(** * Tick ingestion, OHLC aggregation and pair analytics: a shallow embedding

    The development follows the Python sources module by module:
    - [Np]         float64 values with NaN and infinities, and the
                   conversion of integers to them;
    - [Py]         the fragment of the Python runtime the code relies on
                   (exceptions, decoded JSON values, truthiness, [float()]);
    - [Pd]         the stable ordering of rows by a time key;
    - [Database]   database.py, the tick and OHLC tables behind a session;
    - [Collector]  data_collector.py, normalisation, the receive loop with
                   its reconnect backoff, and the periodic buffer flush;
    - [Analytics]  analytics.py, resampling, spread, z-score and ADF test;
    - [Processor]  data_processor.py, the per-timeframe aggregation loop;
    - [Ndjson]     binance_collector.py, the collector that keeps its
                   trades in NDJSON files;
    - [Sample]     concrete runtime services for the closed examples.
    The properties follow, one section per operation.

    Numbers.  Prices, sizes and the values of a series are [Np.float]: a
    finite value, given by the rational it stands for, NaN or an
    infinity.  [float()] is modelled with its failures and with the
    rounding of large integers.  The analytics are modelled on frames
    whose values are all finite, which is what the tick invariant of the
    specification promises; there the sums, means and quotients are
    taken exactly, so that the rounding of binary64 arithmetic is outside
    the model.  What the libraries return for a frame with a value that
    is not finite is left to a parameter.  Instants are integers counting
    microseconds since the epoch.

    Strings.  A string is the sequence of the bytes of its UTF-8
    encoding.  Comparison and concatenation are those of the bytes;
    [str.lower] and [str.strip], which follow the Unicode tables, are
    parameters.

    Effects.  Loops that run until the process is stopped are driven by a
    script: one entry per turn, telling what the environment does during
    that turn (frames received, exceptions raised by the network or by
    storage, the stop signal, the clock).  The state records carry the log
    and the sleeps so that they can be observed.  Library calls whose code
    is not part of the repository ([str.lower], [str.strip], [float()] on
    strings, [fromtimestamp], [isoformat], the square root, [adfuller],
    the regressions) are parameters. *)

From Stdlib Require Import ZArith QArith Qabs Qfield Lia Bool Ascii String Sorted.
From stdpp Require Import base option list strings pretty sorting gmap.

Set Warnings "-register-all".
Open Scope Z_scope.

(** ** Floating-point values with missing data *)

Module Np.

(** A float64: finite, NaN (which is also how pandas stores a missing
    value), or an infinity.  A finite value is given by the rational it
    stands for. *)
Inductive float : Type :=
| Fin (q : Q)
| PInf
| NInf
| NaN.

Definition nan : float := NaN.

Definition isna (x : float) : bool :=
  match x with NaN => true | _ => false end.

Definition is_finite (x : float) : option Q :=
  match x with Fin q => Some q | _ => None end.

(** Equality of values, up to the representation of the rational. *)
Definition feq (x y : float) : Prop :=
  match x, y with
  | Fin a, Fin b => (a == b)%Q
  | PInf, PInf | NInf, NInf | NaN, NaN => True
  | _, _ => False
  end.

Definition fneg (x : float) : float :=
  match x with
  | Fin q => Fin (- q)
  | PInf => NInf
  | NInf => PInf
  | NaN => NaN
  end.

Definition fadd (x y : float) : float :=
  match x, y with
  | NaN, _ | _, NaN => NaN
  | Fin a, Fin b => Fin (a + b)
  | PInf, NInf | NInf, PInf => NaN
  | PInf, _ | _, PInf => PInf
  | NInf, _ | _, NInf => NInf
  end.

Definition fsub (x y : float) : float := fadd x (fneg y).

(** [-1], [0] or [1]; [None] for NaN. *)
Definition sign (x : float) : option Z :=
  match x with
  | Fin q => Some (Z.sgn (Qnum q))
  | PInf => Some 1
  | NInf => Some (-1)
  | NaN => None
  end.

Definition signed_inf (s : Z) : float :=
  if s <? 0 then NInf else if 0 <? s then PInf else NaN.

Definition fmul (x y : float) : float :=
  match x, y with
  | Fin a, Fin b => Fin (a * b)
  | _, _ =>
      match sign x, sign y with
      | Some sx, Some sy => signed_inf (sx * sy)
      | _, _ => NaN
      end
  end.

(** Division; a zero divisor gives an infinity, or NaN for [0 / 0]. *)
Definition fdiv (x y : float) : float :=
  match x, y with
  | NaN, _ | _, NaN => NaN
  | Fin a, Fin b =>
      if Qeq_bool b 0 then signed_inf (Z.sgn (Qnum a)) else Fin (a / b)
  | Fin _, _ => Fin 0
  | _, Fin b =>
      match sign x with
      | Some sx => signed_inf (sx * (if Qeq_bool b 0 then 1 else Z.sgn (Qnum b)))
      | None => NaN
      end
  | _, _ => NaN
  end.

(** [x < c] for a finite constant [c]; false on NaN. *)
Definition flt (x : float) (c : Q) : bool :=
  match x with
  | Fin q => negb (Qle_bool c q)
  | NInf => true
  | PInf | NaN => false
  end.

(** Truth value of a float: zero is false, everything else (NaN
    included) is true. *)
Definition truthy (x : float) : bool :=
  match x with
  | Fin q => negb (Qeq_bool q 0)
  | _ => true
  end.

(** *** Conversion from integers

    [float(n)] rounds an integer to the nearest float64, ties to the
    even mantissa, and fails beyond the range of the format. *)

Definition round_int (z : Z) : Z :=
  let a := Z.abs z in
  if a <? 2 ^ 53 then z
  else
    let e := Z.log2 a - 52 in
    let m := Z.shiftr a e in
    let r := a - Z.shiftl m e in
    let half := Z.shiftl 1 (e - 1) in
    let m' := if (half <? r) || ((r =? half) && Z.odd m) then m + 1 else m in
    Z.sgn z * Z.shiftl m' e.

(** Whether a rational is rounded to a value that float64 cannot
    hold. *)
Definition overflows (q : Q) : bool :=
  Qle_bool (inject_Z (2 ^ 1024 - 2 ^ 970)) (Qabs q).

Definition float_of_int (z : Z) : option float :=
  if overflows (inject_Z z) then None
  else Some (Fin (inject_Z (round_int z))).

(** *** Sums

    The sum of a column, taken exactly: the rounding of the additions
    is not modelled. *)
Fixpoint Qsum (xs : list Q) : Q :=
  match xs with
  | [] => 0
  | x :: xs' => x + Qsum xs'
  end.

End Np.

(** A rational where a float is expected stands for the finite float. *)
Coercion Np.Fin : Q >-> Np.float.
Bind Scope Q_scope with Np.float.

(** ** The Python fragment *)

Module Py.

(** Exception classes that the modelled code raises, catches or lets
    through. *)
Inductive exn : Type :=
| JSONDecodeError
| TypeError
| ValueError
| AttributeError
| KeyError
| OverflowError
| ConnectionClosed
| InvalidURI
| OSError
| OperationalError.

(** [str(e)] as it ends up in log lines and error dictionaries; the
    message is rendered as the name of the class. *)
Definition str_exn (e : exn) : string :=
  match e with
  | JSONDecodeError => "JSONDecodeError"
  | TypeError => "TypeError"
  | ValueError => "ValueError"
  | AttributeError => "AttributeError"
  | KeyError => "KeyError"
  | OverflowError => "OverflowError"
  | ConnectionClosed => "ConnectionClosed"
  | InvalidURI => "InvalidURI"
  | OSError => "OSError"
  | OperationalError => "OperationalError"
  end.

(** A computation that either raises or returns. *)
Definition result (A : Type) : Type := exn + A.

Definition ret {A} (a : A) : result A := inr a.
Definition raise {A} (e : exn) : result A := inl e.
Definition bind {A B} (m : result A) (k : A -> result B) : result B :=
  match m with
  | inl e => inl e
  | inr a => k a
  end.

(** Logging: level and rendered message. *)
Inductive level : Type := DEBUG | INFO | WARNING | ERROR.
Definition log_entry : Type := level * string.

(** Instants, in microseconds since the epoch. *)
Definition datetime : Type := Z.

(** What [json.loads] can produce. *)
Inductive value : Type :=
| VNone
| VBool (b : bool)
| VInt (z : Z)
| VFloat (x : Np.float)
| VStr (s : string)
| VList (l : list value)
| VDict (d : list (string * value)).

(** A frame received from the socket: either text that is not JSON, or
    the value it decodes to. *)
Inductive message : Type :=
| Garbled
| Json (v : value).

Definition json_loads (m : message) : result value :=
  match m with
  | Garbled => raise JSONDecodeError
  | Json v => ret v
  end.

(** Truth value testing. *)
Definition truthy (v : value) : bool :=
  match v with
  | VNone => false
  | VBool b => b
  | VInt z => negb (z =? 0)
  | VFloat x => Np.truthy x
  | VStr s => negb (String.eqb s EmptyString)
  | VList l => match l with [] => false | _ => true end
  | VDict d => match d with [] => false | _ => true end
  end.

Fixpoint assoc (k : string) (d : list (string * value)) : option value :=
  match d with
  | [] => None
  | (k', v) :: d' => if String.eqb k k' then Some v else assoc k d'
  end.

(** [data.get(k, dflt)]; only dictionaries have the method. *)
Definition get (data : value) (k : string) (dflt : value) : result value :=
  match data with
  | VDict d => ret (default dflt (assoc k d))
  | _ => raise AttributeError
  end.

(** [x / 1000]: the true division of an integer fails when the quotient
    is beyond the range of float64; on floats it does not fail.  The
    quotient is taken exactly, without its rounding to float64. *)
Definition div1000 (v : value) : result Np.float :=
  match v with
  | VInt z =>
      if Np.overflows (inject_Z z / 1000)
      then raise OverflowError
      else ret (Np.Fin (inject_Z z / 1000))
  | VFloat x => ret (Np.fdiv x (Np.Fin 1000))
  | VBool b => ret (Np.Fin (inject_Z (if b then 1 else 0) / 1000))
  | _ => raise TypeError
  end.

(** [float(x)], given the conversion of a string literal, which may
    give NaN or an infinity.  A float is returned as it is, an integer
    is rounded or refused with [OverflowError]. *)
Definition float_ (of_string : string -> option Np.float) (v : value)
  : result Np.float :=
  match v with
  | VInt z =>
      match Np.float_of_int z with
      | Some x => ret x
      | None => raise OverflowError
      end
  | VFloat x => ret x
  | VBool b => ret (Np.Fin (inject_Z (if b then 1 else 0)))
  | VStr s =>
      match of_string s with
      | Some x => ret x
      | None => raise ValueError
      end
  | VNone | VList _ | VDict _ => raise TypeError
  end.

(** [x.lower()]: a method of strings only.  The case mapping itself is
    the runtime's, over the whole of Unicode; [str_lower] stands for
    it. *)
Definition lower_ (str_lower : string -> string) (v : value)
  : result string :=
  match v with
  | VStr s => ret (str_lower s)
  | _ => raise AttributeError
  end.

End Py.

(** [x ← m; k] runs [m] and, unless it raised, continues with [k]. *)
#[global] Instance result_ret : MRet Py.result := @Py.ret.
#[global] Instance result_bind : MBind Py.result :=
  fun A B k m => Py.bind m k.

(** ** Ordering rows by time *)

Module Pd.

(** [sort_values('timestamp')] and the ordering that [resample] applies
    to its index: ascending by key, rows with equal keys in their
    original order. *)
Section Sorting.
Context {A : Type} (key : A -> Z).

Fixpoint insert_by (x : A) (l : list A) : list A :=
  match l with
  | [] => [x]
  | y :: l' => if key x <=? key y then x :: l else y :: insert_by x l'
  end.

Fixpoint sort_by (l : list A) : list A :=
  match l with
  | [] => []
  | x :: l' => insert_by x (sort_by l')
  end.
End Sorting.

End Pd.

(** ** database.py *)

Module Database.
Import Py Pd.

(** A normalised trade as the collector buffers it (the dictionary built
    by [normalize]).  Price and size are whatever [float()] returned, NaN
    and the infinities included. *)
Record Tick : Type := mkTick {
  symbol : string;
  timestamp : datetime;
  price : Np.float;
  size : Np.float
}.

(** Row of table [ticks].  The two [Float] columns hold what was
    written; NaN stands for the NULL that a NaN is stored as and read
    back from. *)
Record TickData : Type := mkTickData {
  tick_id : string;
  tick_symbol : string;
  tick_timestamp : datetime;
  tick_price : Np.float;
  tick_size : Np.float
}.

(** Row of table [ohlc]. *)
Record OHLCData : Type := mkOHLCData {
  ohlc_id : string;
  ohlc_symbol : string;
  ohlc_timestamp : datetime;
  ohlc_timeframe : string;
  ohlc_open : Np.float;
  ohlc_high : Np.float;
  ohlc_low : Np.float;
  ohlc_close : Np.float;
  ohlc_volume : Np.float
}.

(** Both tables are keyed by their primary key [id]. *)
Record t : Type := mkDb {
  ticks : gmap string TickData;
  ohlc : gmap string OHLCData;
  log : list log_entry
}.

Definition empty_db : t := mkDb ∅ ∅ [].

Definition logged (e : log_entry) (db : t) : t :=
  mkDb (ticks db) (ohlc db) (log db ++ [e]).

(** What the storage engine does to the calls of one operation: a
    [session.merge] of the row with the given id may raise, and so may
    [session.commit] or a query. *)
Record faults : Type := mkFaults {
  on_merge : string -> option exn;
  on_commit : option exn;
  on_query : option exn
}.

Definition no_faults : faults := mkFaults (fun _ => None) None None.

Definition check (f : option exn) : result unit :=
  match f with
  | Some e => raise e
  | None => ret tt
  end.

(** Ascending order of strings, character by character. *)
Fixpoint insert_symbol (s : string) (l : list string) : list string :=
  match l with
  | [] => [s]
  | x :: l' => if String.leb s x then s :: l else x :: insert_symbol s l'
  end.

Definition sort_symbols (l : list string) : list string :=
  foldr insert_symbol [] l.

Section Session.
(** [datetime.isoformat()] and the rendering of a float in an f-string
    belong to the runtime. *)
Variable isoformat : datetime -> string.
Variable float_str : Np.float -> string.
Variable F : faults.

(** [session.merge(row)]: insert or replace by primary key, in the
    session's pending state. *)
Definition merge_tick (pending : gmap string TickData) (row : TickData)
  : result (gmap string TickData) :=
  check (on_merge F (tick_id row));;
  ret (<[tick_id row := row]> pending).

Definition merge_ohlc (pending : gmap string OHLCData) (row : OHLCData)
  : result (gmap string OHLCData) :=
  check (on_merge F (ohlc_id row));;
  ret (<[ohlc_id row := row]> pending).

Definition commit {A} (pending : A) : result A :=
  check (on_commit F);; ret pending.

Definition make_tick_id (tk : Tick) : string :=
  symbol tk +:+ "_" +:+ isoformat (timestamp tk) +:+ "_"
    +:+ float_str (price tk) +:+ "_" +:+ float_str (size tk).

Definition make_tick_row (tk : Tick) : TickData :=
  mkTickData (make_tick_id tk) (symbol tk) (timestamp tk) (price tk) (size tk).

Fixpoint merge_ticks (pending : gmap string TickData) (batch : list Tick)
  : result (gmap string TickData) :=
  match batch with
  | [] => ret pending
  | tk :: rest =>
      pending' ← merge_tick pending (make_tick_row tk);
      merge_ticks pending' rest
  end.

(** [insert_ticks_batch]: merge every tick, commit once; any exception
    is logged and the session rolled back to the last commit, which
    discards the pending rows.  The rollback itself is taken to
    succeed. *)
Definition write_batch (db : t) (batch : list Tick)
  : result (gmap string TickData) :=
  pending ← merge_ticks (ticks db) batch; commit pending.

Definition insert_ticks_batch (db : t) (batch : list Tick) : t :=
  match write_batch db batch with
  | inr stored => mkDb stored (ohlc db) (log db)
  | inl e => logged (ERROR, "Error inserting batch: " +:+ str_exn e) db
  end.

Definition make_ohlc_id (sym : string) (ts : datetime) (timeframe : string)
  : string :=
  sym +:+ "_" +:+ timeframe +:+ "_" +:+ isoformat ts.

Definition make_ohlc_row (sym : string) (ts : datetime)
    (timeframe : string) (o h l c v : Np.float) : OHLCData :=
  mkOHLCData (make_ohlc_id sym ts timeframe) sym ts timeframe o h l c v.

Definition write_bar (db : t) (row : OHLCData)
  : result (gmap string OHLCData) :=
  pending ← merge_ohlc (ohlc db) row; commit pending.

(** [insert_ohlc]: same discipline for a single bar. *)
Definition insert_ohlc (db : t) (sym : string) (ts : datetime)
    (timeframe : string) (o h l c v : Np.float) : t :=
  match write_bar db (make_ohlc_row sym ts timeframe o h l c v) with
  | inr stored => mkDb (ticks db) stored (log db)
  | inl e => logged (ERROR, "Error inserting OHLC: " +:+ str_exn e) db
  end.

(** [get_symbols]: the distinct symbols of table [ticks].  SQLite
    answers the query from the index on column [symbol], so the symbols
    come in ascending order of their bytes. *)
Definition get_symbols (db : t) : result (list string) :=
  check (on_query F);;
  ret (sort_symbols
         (remove_dups (tick_symbol <$> (map_to_list (ticks db)).*2))).

(** [get_ticks] with symbol, start and end given and no limit.  An
    empty symbol does not filter.  The query orders by time and
    [sort_values] then leaves the rows ascending. *)
Definition get_ticks (db : t) (sym : string) (start_time end_time : datetime)
  : result (list TickData) :=
  check (on_query F);;
  let rows := (map_to_list (ticks db)).*2 in
  let rows :=
    if String.eqb sym EmptyString then rows
    else List.filter (fun r => String.eqb (tick_symbol r) sym) rows in
  let rows := List.filter (fun r => start_time <=? tick_timestamp r) rows in
  let rows := List.filter (fun r => tick_timestamp r <=? end_time) rows in
  ret (sort_by tick_timestamp rows).

(** [get_ticks] with a limit as well: the query orders by time,
    latest first, and keeps the first [limit] rows; [sort_values] then
    puts them in ascending order.  A limit of zero does not limit. *)
Definition get_ticks_limit (db : t) (sym : string)
    (start_time end_time : datetime) (limit : nat)
  : result (list TickData) :=
  check (on_query F);;
  let rows := (map_to_list (ticks db)).*2 in
  let rows :=
    if String.eqb sym EmptyString then rows
    else List.filter (fun r => String.eqb (tick_symbol r) sym) rows in
  let rows := List.filter (fun r => start_time <=? tick_timestamp r) rows in
  let rows := List.filter (fun r => tick_timestamp r <=? end_time) rows in
  let latest_first := reverse (sort_by tick_timestamp rows) in
  let kept := if (limit =? 0)%nat then latest_first else take limit latest_first in
  ret (sort_by tick_timestamp kept).

(** [insert_tick]: the same discipline as the batch, for one row. *)
Definition insert_tick (db : t) (sym : string) (ts : datetime)
    (price size : Np.float) : t :=
  match (pending ← merge_tick (ticks db)
                     (make_tick_row (mkTick sym ts price size));
         commit pending) with
  | inr stored => mkDb stored (ohlc db) (log db)
  | inl e => logged (ERROR, "Error inserting tick: " +:+ str_exn e) db
  end.

(** [get_ohlc]: each filter applies only when its argument is given, and
    for the two strings only when it is not empty; the rows come ordered
    by time. *)
Definition get_ohlc (db : t) (sym timeframe : option string)
    (start_time end_time : option datetime) : result (list OHLCData) :=
  check (on_query F);;
  let rows := (map_to_list (ohlc db)).*2 in
  let rows :=
    match sym with
    | Some s =>
        if String.eqb s EmptyString then rows
        else List.filter (fun r => String.eqb (ohlc_symbol r) s) rows
    | None => rows
    end in
  let rows :=
    match timeframe with
    | Some tf =>
        if String.eqb tf EmptyString then rows
        else List.filter (fun r => String.eqb (ohlc_timeframe r) tf) rows
    | None => rows
    end in
  let rows :=
    match start_time with
    | Some s => List.filter (fun r => s <=? ohlc_timestamp r) rows
    | None => rows
    end in
  let rows :=
    match end_time with
    | Some e => List.filter (fun r => ohlc_timestamp r <=? e) rows
    | None => rows
    end in
  ret (sort_by ohlc_timestamp rows).

End Session.

End Database.

(** ** data_collector.py *)

Module Collector.
Import Py Database.

Definition MAX_RECONNECT_DELAY : Z := 60.
Definition INITIAL_RECONNECT_DELAY : Z := 1.

(** The cooperative tasks of one collector. *)
Inductive task : Type :=
| ConnTask (sym : string)
| SaveTask.

(** The collector object, together with what its tasks did to the
    outside world: the log and the [asyncio.sleep] calls, in order. *)
Record t : Type := mkCollector {
  symbols : list string;
  db : Database.t;
  running : bool;
  buffer : list Tick;
  reconnect_delays : gmap string Z;
  log : list log_entry;
  slept : list (task * Z)
}.

Definition set_running (b : bool) (st : t) : t :=
  mkCollector (symbols st) (db st) b (buffer st) (reconnect_delays st)
              (log st) (slept st).
Definition set_buffer (buf : list Tick) (st : t) : t :=
  mkCollector (symbols st) (db st) (running st) buf (reconnect_delays st)
              (log st) (slept st).
Definition set_db (d : Database.t) (st : t) : t :=
  mkCollector (symbols st) d (running st) (buffer st) (reconnect_delays st)
              (log st) (slept st).
Definition set_delay (sym : string) (d : Z) (st : t) : t :=
  mkCollector (symbols st) (db st) (running st) (buffer st)
              (<[sym := d]> (reconnect_delays st)) (log st) (slept st).
Definition logging (lv : level) (msg : string) (st : t) : t :=
  mkCollector (symbols st) (db st) (running st) (buffer st)
              (reconnect_delays st) (log st ++ [(lv, msg)]) (slept st).
Definition sleep (who : task) (d : Z) (st : t) : t :=
  mkCollector (symbols st) (db st) (running st) (buffer st)
              (reconnect_delays st) (log st) (slept st ++ [(who, d)]).

Section Feed.
(** Runtime services: [str.lower] and [str.strip], which follow the
    Unicode tables, [float()] on a string, and [datetime.fromtimestamp]
    on seconds. *)
Variable str_lower : string -> string.
Variable str_strip : string -> string.
Variable float_of_string : string -> option Np.float.
Variable fromtimestamp : Np.float -> result datetime.

(** [__init__]: symbols are lower-cased and stripped, blank ones are
    left out, and every remaining symbol starts at the initial delay. *)
Definition init (syms : list string) (d : Database.t) : result t :=
  let kept :=
    (fun s => str_strip (str_lower s)) <$>
      List.filter (fun s => negb (String.eqb (str_strip s) EmptyString))
        syms in
  match kept with
  | [] => raise ValueError
  | _ =>
      ret (mkCollector kept d false []
             (list_to_map ((fun s => (s, INITIAL_RECONNECT_DELAY)) <$> kept))
             [] [])
  end.

(** [normalize]; [now] is what [datetime.utcnow()] would return. *)
Definition normalize (now : datetime) (data : value) : result Tick :=
  tT ← get data "T" VNone;
  timestamp ←
    (if truthy tT then ret tT
     else tE ← get data "E" VNone;
          if truthy tE then ret tE else get data "t" VNone);
  ts ← (if truthy timestamp
         then secs ← div1000 timestamp; fromtimestamp secs
         else ret now);
  s ← get data "s" (VStr EmptyString);
  sym ← lower_ str_lower s;
  p ← get data "p" (VInt 0);
  price ← float_ float_of_string p;
  q ← get data "q" (VInt 0);
  size ← float_ float_of_string q;
  ret (mkTick sym ts price size).

Definition is_trade (e : value) : bool :=
  match e with
  | VStr s => String.eqb s "trade"
  | _ => false
  end.

(** The body of the [try] in [handle_trade]. *)
Definition handle_trade_body (now : datetime) (sym : string)
    (msg : message) (st : t) : result t :=
  data ← json_loads msg;
  e ← get data "e" VNone;
  if is_trade e then
    normalized ← normalize now data;
    ret (logging DEBUG ("Received trade for " +:+ sym)
           (set_buffer (buffer st ++ [normalized]) st))
  else ret st.

(** [handle_trade]: both handlers only log. *)
Definition handle_trade (now : datetime) (sym : string) (msg : message)
    (st : t) : t :=
  match handle_trade_body now sym msg st with
  | inr st' => st'
  | inl JSONDecodeError =>
      logging ERROR ("Failed to parse JSON for " +:+ sym) st
  | inl e =>
      logging ERROR ("Error handling trade for " +:+ sym +:+ ": "
                       +:+ str_exn e) st
  end.

(** What reaches one connection while it is open: a frame (with the
    clock reading at its arrival), or the stop signal. *)
Inductive inbound : Type :=
| Recv (now : datetime) (msg : message)
| Signal.

(** One pass through the [try]: the connection is refused with an
    exception, or it opens, delivers frames and ends, normally or with
    an exception. *)
Inductive attempt : Type :=
| Refused (e : exn)
| Connected (frames : list inbound) (ending : option exn).

(** First statements under [async with]. *)
Definition on_connected (sym : string) (st : t) : t :=
  set_delay sym INITIAL_RECONNECT_DELAY
    (logging INFO ("Connected to " +:+ sym +:+ " stream") st).

(** [async for message in ws]; the flag tells whether the loop was
    left through [break]. *)
Fixpoint receive (sym : string) (frames : list inbound) (st : t)
  : t * bool :=
  match frames with
  | [] => (st, false)
  | Signal :: rest => receive sym rest (set_running false st)
  | Recv now msg :: rest =>
      if negb (running st) then (st, true)
      else receive sym rest (handle_trade now sym msg st)
  end.

(** The three [except] clauses; the flag is false for [break]. *)
Definition on_exception (sym : string) (e : exn) (st : t) : t * bool :=
  match e with
  | ConnectionClosed =>
      (logging WARNING ("Connection closed for " +:+ sym
                          +:+ ", reconnecting...") st, true)
  | InvalidURI =>
      (logging ERROR ("Invalid URI for " +:+ sym) st, false)
  | _ =>
      (logging ERROR ("Error in connection for " +:+ sym +:+ ": "
                        +:+ str_exn e) st, true)
  end.

Definition try_connect (sym : string) (a : attempt) (st : t) : t * bool :=
  let st := logging INFO ("Connecting to " +:+ sym +:+ " stream...") st in
  match a with
  | Refused e => on_exception sym e st
  | Connected frames ending =>
      let '(st', broke) := receive sym frames (on_connected sym st) in
      match broke, ending with
      | false, Some e => on_exception sym e st'
      | _, _ => (st', true)
      end
  end.

(** The statements under the final [if self.running]; [signal] tells
    whether the stop signal arrives during the sleep. *)
Definition backoff (sym : string) (signal : bool) (st : t) : result t :=
  match reconnect_delays st !! sym with
  | None => raise KeyError
  | Some delay =>
      let st := logging INFO ("Reconnecting " +:+ sym) st in
      let st := sleep (ConnTask sym) delay st in
      let st := if signal then set_running false st else st in
      ret (set_delay sym (Z.min (delay * 2) MAX_RECONNECT_DELAY) st)
  end.

(** [connect_symbol], run against a script of attempts. *)
Fixpoint connect_symbol (sym : string) (script : list (attempt * bool))
    (st : t) : result t :=
  match script with
  | [] => ret st
  | (a, signal) :: rest =>
      if negb (running st) then ret st
      else
        let '(st1, go_on) := try_connect sym a st in
        if negb go_on then ret st1
        else if running st1 then
          st2 ← backoff sym signal st1;
          connect_symbol sym rest st2
        else connect_symbol sym rest st1
  end.

End Feed.

Section Flush.
Variable isoformat : datetime -> string.
Variable float_str : Np.float -> string.

(** One turn of [save_buffer] after its two-second sleep; [F] is how
    the storage engine behaves during this turn. *)
Definition flush (F : faults) (st : t) : result t :=
  let st := sleep SaveTask 2 st in
  match buffer st with
  | [] => ret st
  | _ =>
      let body : result t :=
        let d := insert_ticks_batch isoformat float_str F (db st) (buffer st) in
        let st := set_db d st in
        let st := logging DEBUG "Saved trades to database" st in
        ret (set_buffer [] st) in
      match body with
      | inr st' => ret st'
      | inl e => ret (logging ERROR ("Error saving buffer: " +:+ str_exn e) st)
      end
  end.

(** [save_buffer]: each turn comes with the storage behaviour and the
    ticks that the connections buffered while the task slept. *)
Fixpoint save_buffer (script : list (faults * list Tick)) (st : t)
  : result t :=
  match script with
  | [] => ret st
  | (F, arrived) :: rest =>
      if negb (running st) then ret st
      else
        st' ← flush F (set_buffer (buffer st ++ arrived) st);
        save_buffer rest st'
  end.

End Flush.

End Collector.

(** ** analytics.py *)

Module Analytics.
Import Py Pd Database Np.

(** *** Frames *)

(** A frame reduced to its [timestamp] column and the price column that
    [price_col] selects. *)
Record PriceRow : Type := mkPriceRow {
  row_timestamp : datetime;
  row_price : float
}.

(** *** compute_spread *)

(** Backward as-of search: the last row of the sorted right frame whose
    key is at or before [t]. *)
Definition asof_backward (right : list PriceRow) (t : datetime)
  : option PriceRow :=
  last (List.filter (fun r => row_timestamp r <=? t) right).

(** [pd.merge_asof(left, right, on='timestamp')]: one output row per left
    row, carrying the left price and the matched right price, NaN when
    nothing matches. *)
Definition merge_asof (left right : list PriceRow)
  : list (datetime * float * float) :=
  (fun l => (row_timestamp l, row_price l,
             from_option row_price nan (asof_backward right (row_timestamp l))))
    <$> left.

(** [compute_spread]; [if hedge_ratio:] is false for [None] and for a
    zero ratio. *)
Definition compute_spread (df1 df2 : list PriceRow)
    (hedge_ratio : option float) : list float :=
  match df1, df2 with
  | [], _ | _, [] => []
  | _, _ =>
      let merged :=
        merge_asof (sort_by row_timestamp df1) (sort_by row_timestamp df2) in
      match hedge_ratio with
      | Some h =>
          if truthy h
          then (fun '(_, p1, p2) => fsub p2 (fmul h p1)) <$> merged
          else (fun '(_, p1, p2) => fsub p2 p1) <$> merged
      | None => (fun '(_, p1, p2) => fsub p2 p1) <$> merged
      end
  end.

(** *** compute_zscore *)

Section Rolling.
(** The square root of the platform. *)
Variable sqrt : Q -> Q.

(** The observations that the window ending at position [i] covers,
    once [window] of them are available ([min_periods] defaults to the
    window size) and none is missing.  A window holding an infinity is
    treated like one holding a missing value.  The window size is a
    natural number: pandas rejects a negative one. *)
Definition window_at (series : list float) (window i : nat)
  : option (list Q) :=
  if (S i <? window)%nat then None
  else mapM is_finite (take window (drop (S i - window) series)).

Definition mean (xs : list Q) : float :=
  match xs with
  | [] => NaN
  | _ => Fin (Qsum xs / inject_Z (Z.of_nat (length xs)))
  end.

(** Sample variance, one degree of freedom removed. *)
Definition var (xs : list Q) : option Q :=
  match xs with
  | [] | [_] => None
  | _ =>
      let n := inject_Z (Z.of_nat (length xs)) in
      let m := (Qsum xs / n)%Q in
      Some (Qsum ((fun x => (x - m) * (x - m))%Q <$> xs) / (n - 1))%Q
  end.

Definition std (xs : list Q) : float :=
  match var xs with
  | Some v => Fin (sqrt v)
  | None => NaN
  end.

(** [series.rolling(window=window).mean()] and [.std()]. *)
Definition rolling (agg : list Q -> float) (series : list float)
    (window : nat) : list float :=
  (fun i => from_option agg NaN (window_at series window i))
    <$> seq 0 (length series).

Definition rolling_mean := rolling mean.
Definition rolling_std := rolling std.

(** [.replace(0, np.nan)] *)
Definition replace_zero_nan (x : float) : float :=
  match x with
  | Fin q => if Qeq_bool q 0 then NaN else x
  | _ => x
  end.

Definition compute_zscore (series : list float) (window : nat)
  : list float :=
  match series with
  | [] => []
  | _ =>
      let rolling_mean := rolling_mean series window in
      let rolling_std := rolling_std series window in
      zip_with fdiv (zip_with fsub series rolling_mean)
               (replace_zero_nan <$> rolling_std)
  end.
End Rolling.

(** *** compute_adf_test *)

(** The tuple that [adfuller] returns, as far as it is read. *)
Record adf_tuple : Type := mkAdf {
  adf_stat : float;
  adf_pvalue : float;
  adf_usedlag : Z;
  adf_nobs : Z;
  adf_crit : list (string * float)
}.

(** The dictionary that [compute_adf_test] returns. *)
Inductive adf_report : Type :=
| AdfError (error : string)
| AdfResult (adf_statistic pvalue : float)
            (critical_values : list (string * float))
            (n_lags n_observations : Z) (is_stationary : bool).

Definition dropna (series : list float) : list float :=
  List.filter (fun x => negb (isna x)) series.

Section ADF.
(** [statsmodels.tsa.stattools.adfuller]. *)
Variable adfuller : list float -> option Z -> result adf_tuple.

Definition compute_adf_test (series : list float) (maxlag : option Z)
  : adf_report :=
  if (length series <? 10)%nat
  then AdfError "Insufficient data for ADF test"
  else
    let body : result adf_report :=
      let series_clean := dropna series in
      if (length series_clean <? 10)%nat
      then ret (AdfError "Insufficient valid data")
      else
        r ← adfuller series_clean maxlag;
        ret (AdfResult (adf_stat r) (adf_pvalue r) (adf_crit r)
                       (adf_usedlag r) (adf_nobs r)
                       (flt (adf_pvalue r) (5 # 100))) in
    match body with
    | inr report => report
    | inl e => AdfError (str_exn e)
    end.
End ADF.

(** *** resample_data

    The frame is the one [get_ticks] returns: its rows are those of table
    [ticks], so the [timestamp] column is always there, and [price_col]
    and [volume_col] keep their defaults.  The function is modelled on
    the frames that the tick invariant allows, those whose prices and
    sizes are all finite; of a row it reads the three columns below. *)

Record TickRow : Type := mkTickRow {
  tr_timestamp : datetime;
  tr_price : Q;
  tr_size : Q
}.

(** The row of a stored tick, when its price and size are finite. *)
Definition finite_row (r : TickData) : option TickRow :=
  p ← is_finite (tick_price r);
  v ← is_finite (tick_size r);
  Some (mkTickRow (tick_timestamp r) p v).

(** The frame of a query result, when all its values are finite. *)
Definition finite_frame (ticks : list TickData) : option (list TickRow) :=
  mapM finite_row ticks.

(** The pandas frequencies the code names. *)
Inductive freq : Type := Freq_1S | Freq_1T | Freq_5T.

Definition freq_map : list (string * freq) :=
  [("1s", Freq_1S); ("1m", Freq_1T); ("5m", Freq_5T)]%string.

Fixpoint dict_get {V} (d : list (string * V)) (k : string) (dflt : V) : V :=
  match d with
  | [] => dflt
  | (k', v) :: d' => if String.eqb k k' then v else dict_get d' k dflt
  end.

(** Bucket width in microseconds. *)
Definition width (f : freq) : Z :=
  match f with
  | Freq_1S => 1000000
  | Freq_1T => 60000000
  | Freq_5T => 300000000
  end.

(** Row of the resampled frame. *)
Record Bar : Type := mkBar {
  bar_timestamp : datetime;
  bar_open : Q;
  bar_high : Q;
  bar_low : Q;
  bar_close : Q;
  bar_volume : Q
}.

Definition Qmax' (a b : Q) : Q := if Qle_bool a b then b else a.
Definition Qmin' (a b : Q) : Q := if Qle_bool a b then a else b.

(** Start of the bucket that holds instant [t]. *)
Definition bin_start (w : Z) (t : datetime) : datetime := w * (t / w).

Definition in_bin (w : Z) (b : datetime) (r : TickRow) : bool :=
  (b <=? tr_timestamp r) && (tr_timestamp r <? b + w).

(** Labels of all buckets from the one of the first row to the one of
    the last row of the sorted frame. *)
Definition bin_labels (w : Z) (sorted : list TickRow) : list datetime :=
  match sorted with
  | [] => []
  | r0 :: _ =>
      let lo := bin_start w (tr_timestamp r0) in
      let hi := bin_start w (tr_timestamp (List.last sorted r0)) in
      (fun k => lo + Z.of_nat k * w) <$> seq 0 (S (Z.to_nat ((hi - lo) / w)))
  end.

(** [.ohlc()] of one bucket: NaN in all four columns when it is empty. *)
Definition ohlc_agg (prices : list Q) : option (Q * Q * Q * Q) :=
  match prices with
  | [] => None
  | p :: ps =>
      Some (p, foldl Qmax' p ps, foldl Qmin' p ps, List.last ps p)
  end.

(** [df[col].resample(freq).agg()]: the rows are put in index order and
    every bucket of the range gets a row. *)
Definition resample {B} (w : Z) (agg : list TickRow -> B)
    (df : list TickRow) : list (datetime * B) :=
  let sorted := sort_by tr_timestamp df in
  (fun b => (b, agg (List.filter (in_bin w b) sorted))) <$> bin_labels w sorted.

(** Column assignment aligned on the index, [dropna], [reset_index]. *)
Definition join_dropna (ohlc : list (datetime * option (Q * Q * Q * Q)))
    (volume : list (datetime * Q)) : list Bar :=
  omap (fun '((b, o), (_, v)) =>
          match o with
          | Some (op, hi, lo, cl) => Some (mkBar b op hi lo cl v)
          | None => None
          end)
       (zip ohlc volume).

(** [resample_data]: open, high, low, close and summed volume per
    bucket, rows with a missing value dropped. *)
Definition resample_data (df : list TickRow) (timeframe : string)
  : list Bar :=
  match df with
  | [] => []
  | _ =>
      let freq := dict_get freq_map timeframe Freq_1T in
      let ohlc := resample (width freq) (fun rs => ohlc_agg (tr_price <$> rs)) df in
      let volume := resample (width freq) (fun rs => Qsum (tr_size <$> rs)) df in
      join_dropna ohlc volume
  end.

(** *** compute_ols_regression

    Both series are columns of one frame, so they share their index and
    the mask pairs them position by position. *)

(** What is read of a fitted [HuberRegressor]. *)
Record huber_model : Type := mkHuber {
  coef_0 : float;
  intercept_ : float
}.

(** What is read of the results of [OLS(...).fit()].  The design matrix
    always has its column [x], so the p-value and the standard error of
    that column are there. *)
Record ols_model : Type := mkOls {
  params_x : float;
  params_const : float;
  rsquared : float;
  pvalues_x : float;
  bse_x : float
}.

(** The result dictionary; the last three keys may be absent. *)
Record regression : Type := mkRegression {
  hedge_ratio : float;
  intercept : float;
  spread_mean : float;
  spread_std : float;
  n_observations : nat;
  r_squared : option float;
  pvalue : option float;
  std_err : option float
}.

Inductive ols_report : Type :=
| OlsError (error : string)
| OlsResult (r : regression).

Definition both_present (xy : float * float) : bool :=
  negb (isna xy.1 || isna xy.2).

Section OLS.
(** Whether [sklearn] could be imported. *)
Variable HUBER_AVAILABLE : bool.
(** [HuberRegressor().fit(X, y)] and [OLS(y, X).fit()]. *)
Variable HuberRegressor_fit : list float -> list float -> result huber_model.
Variable OLS_fit : list float -> list float -> result ols_model.
(** [Series.mean] and [Series.std]. *)
Variable series_mean series_std : list float -> float.

Definition compute_ols_regression (x y : list float) (robust : bool)
  : ols_report :=
  if (length x <? 2)%nat || (length y <? 2)%nat
     || negb (length x =? length y)%nat
  then OlsError "Insufficient data for regression"
  else
    let clean := List.filter both_present (zip x y) in
    let x_clean := clean.*1 in
    let y_clean := clean.*2 in
    if (length x_clean <? 2)%nat
    then OlsError "Insufficient valid data"
    else
      let standard : result (float * float * option float
                             * option float * option float) :=
        model ← OLS_fit y_clean x_clean;
        ret (params_x model, params_const model, Some (rsquared model),
             Some (pvalues_x model), Some (bse_x model)) in
      let body : result regression :=
        fitted ← (if robust then
                    if negb HUBER_AVAILABLE then standard
                    else
                      reg ← HuberRegressor_fit x_clean y_clean;
                      ret (coef_0 reg, intercept_ reg, None, None, None)
                  else standard);
        let '(hedge_ratio, intercept, r_squared, pvalue, std_err) := fitted in
        let predicted :=
          (fun a => fadd (fmul hedge_ratio a) intercept) <$> x_clean in
        let residuals := zip_with fsub y_clean predicted in
        ret (mkRegression hedge_ratio intercept
               (series_mean residuals) (series_std residuals)
               (length x_clean) r_squared pvalue std_err) in
      match body with
      | inr r => OlsResult r
      | inl e => OlsError (str_exn e)
      end.
End OLS.

End Analytics.

(** ** data_processor.py *)

Module Processor.
Import Py Pd Database Np Analytics.

Record t : Type := mkProcessor {
  db : Database.t;
  running : bool;
  log : list log_entry;
  slept : list Z
}.

Definition set_db (d : Database.t) (p : t) : t :=
  mkProcessor d (running p) (log p) (slept p).
Definition logging (lv : level) (msg : string) (p : t) : t :=
  mkProcessor (db p) (running p) (log p ++ [(lv, msg)]) (slept p).
Definition sleep (d : Z) (p : t) : t :=
  mkProcessor (db p) (running p) (log p) (slept p ++ [d]).

Definition one_hour : Z := 3600 * 1000000.

Definition wait_seconds (timeframe : string) : Z :=
  dict_get [("1s", 1); ("1m", 60); ("5m", 300)]%string timeframe 60.

(** Row of the frame that [resample_data] returns to the loop. *)
Record OhlcRow : Type := mkOhlcRow {
  o_timestamp : datetime;
  o_open : float;
  o_high : float;
  o_low : float;
  o_close : float;
  o_volume : float
}.

Definition of_bar (bar : Bar) : OhlcRow :=
  mkOhlcRow (bar_timestamp bar) (Fin (bar_open bar)) (Fin (bar_high bar))
            (Fin (bar_low bar)) (Fin (bar_close bar)) (Fin (bar_volume bar)).

Section Cycle.
Variable isoformat : datetime -> string.
(** What [resample_data] does with a frame in which a price or a size
    is NaN or infinite: whether it raises and which rows it returns is
    left open. *)
Variable resample_other : list TickData -> string -> result (list OhlcRow).
(** How storage behaves during one cycle: for the symbol query, and
    for the calls made on behalf of each symbol. *)
Variable F0 : faults.
Variable F : string -> faults.
(** The clock reading during the cycle. *)
Variable now : datetime.

(** The call [self.engine.resample_data(ticks, timeframe)]. *)
Definition resample_frame (ticks : list TickData) (timeframe : string)
  : result (list OhlcRow) :=
  match finite_frame ticks with
  | Some rows => ret (of_bar <$> resample_data rows timeframe)
  | None => resample_other ticks timeframe
  end.

Definition save_bar (timeframe sym : string) (d : Database.t) (row : OhlcRow)
  : Database.t :=
  insert_ohlc isoformat (F sym) d sym (o_timestamp row) timeframe
              (o_open row) (o_high row) (o_low row) (o_close row)
              (o_volume row).

(** Body of the [for symbol in symbols] loop. *)
Definition process_symbol (timeframe : string) (p : t) (sym : string)
  : result t :=
  let end_time := now in
  let start_time := end_time - one_hour in
  ticks ← get_ticks (F sym) (db p) sym start_time end_time;
  match ticks with
  | [] => ret p
  | _ =>
      ohlc_df ← resample_frame ticks timeframe;
      let p := set_db (foldl (save_bar timeframe sym) (db p) ohlc_df) p in
      ret (logging DEBUG ("Processed " +:+ timeframe +:+ " bars for " +:+ sym) p)
  end.

(** The loop; an exception leaves it with what was done so far. *)
Fixpoint for_symbols (timeframe : string) (syms : list string) (p : t)
  : t * option exn :=
  match syms with
  | [] => (p, None)
  | sym :: rest =>
      match process_symbol timeframe p sym with
      | inr p' => for_symbols timeframe rest p'
      | inl e => (p, Some e)
      end
  end.

Definition on_error (timeframe : string) (e : exn) (p : t) : t :=
  sleep 5 (logging ERROR ("Error processing " +:+ timeframe +:+ ": "
                            +:+ str_exn e) p).

(** One turn of the [while] loop of [process_timeframe]. *)
Definition cycle (timeframe : string) (p : t) : t :=
  match get_symbols F0 (db p) with
  | inl e => on_error timeframe e p
  | inr syms =>
      match for_symbols timeframe syms p with
      | (p', Some e) => on_error timeframe e p'
      | (p', None) => sleep (wait_seconds timeframe) p'
      end
  end.
End Cycle.

(** [process_timeframe], one script entry per turn. *)
Fixpoint process_timeframe (isoformat : datetime -> string)
    (resample_other : list TickData -> string -> result (list OhlcRow))
    (timeframe : string)
    (script : list (faults * (string -> faults) * datetime)) (p : t) : t :=
  match script with
  | [] => p
  | (F0, F, now) :: rest =>
      if negb (running p) then p
      else process_timeframe isoformat resample_other timeframe rest
             (cycle isoformat resample_other F0 F now timeframe p)
  end.

End Processor.

(** ** binance_collector.py

    The collector that keeps its trades in NDJSON files.  Its
    connection side is the one of [data_collector.py]; what differs is
    where the buffer goes. *)

Module Ndjson.
Import Py.

(** A normalised trade; [ts] is already rendered with [isoformat]. *)
Record Trade : Type := mkTrade {
  symbol : string;
  ts : string;
  price : Np.float;
  size : Np.float
}.

(** What the file system does to the writes of one turn: they all
    reach the file, or [open] raises, or an exception is raised after
    some of the lines reached the file. *)
Inductive outcome : Type :=
| Written
| OpenFailed (e : exn)
| WriteFailed (e : exn) (written : nat).

(** The collector object with the files below its output directory,
    each as the list of its lines, the log and the sleeps. *)
Record t : Type := mkNdjson {
  output_dir : string;
  running : bool;
  buffer : list Trade;
  files : gmap string (list string);
  log : list log_entry;
  slept : list Z
}.

Definition set_buffer (buf : list Trade) (st : t) : t :=
  mkNdjson (output_dir st) (running st) buf (files st) (log st) (slept st).
Definition set_files (fs : gmap string (list string)) (st : t) : t :=
  mkNdjson (output_dir st) (running st) (buffer st) fs (log st) (slept st).
Definition logging (lv : level) (msg : string) (st : t) : t :=
  mkNdjson (output_dir st) (running st) (buffer st) (files st)
           (log st ++ [(lv, msg)]) (slept st).
Definition sleep (d : Z) (st : t) : t :=
  mkNdjson (output_dir st) (running st) (buffer st) (files st) (log st)
           (slept st ++ [d]).

(** The lines of a file; a file that does not exist has none. *)
Definition content (fs : gmap string (list string)) (name : string)
  : list string :=
  default [] (fs !! name).

Section Save.
(** [json.dumps] on a normalised trade. *)
Variable json_dumps : Trade -> string.

Definition newline : string := String "010" EmptyString.

Definition line (item : Trade) : string := json_dumps item +:+ newline.

(** [self.output_dir / f"trades_{timestamp}.ndjson"] *)
Definition trades_file (dir stamp : string) : string :=
  dir +:+ "/trades_" +:+ stamp +:+ ".ndjson".

(** Lines written to a file opened with mode ['a']. *)
Definition append (name : string) (lines : list string)
    (fs : gmap string (list string)) : gmap string (list string) :=
  <[name := content fs name ++ lines]> fs.

(** The [with open(...)] block. *)
Definition write_all (o : outcome) (name : string) (items : list Trade)
    (fs : gmap string (list string))
  : gmap string (list string) * option exn :=
  match o with
  | Written => (append name (line <$> items) fs, None)
  | OpenFailed e => (fs, Some e)
  | WriteFailed e n => (append name (take n (line <$> items)) fs, Some e)
  end.

(** One turn of [save_buffer] after its five-second sleep; [stamp] is
    the clock reading as [strftime] renders it. *)
Definition flush (stamp : string) (o : outcome) (st : t) : t :=
  let st := sleep 5 st in
  match buffer st with
  | [] => st
  | _ =>
      let filename := trades_file (output_dir st) stamp in
      match write_all o filename (buffer st) (files st) with
      | (fs, None) =>
          let st := set_files fs st in
          let st := logging INFO ("Saved trades to " +:+ filename) st in
          set_buffer [] st
      | (fs, Some e) =>
          logging ERROR ("Error saving buffer: " +:+ str_exn e)
                  (set_files fs st)
      end
  end.

(** [save_buffer]: each turn comes with the clock reading, the
    behaviour of the file system and the trades that the connections
    buffered while the task slept. *)
Fixpoint save_buffer (script : list (string * outcome * list Trade))
    (st : t) : t :=
  match script with
  | [] => st
  | (stamp, o, arrived) :: rest =>
      if negb (running st) then st
      else save_buffer rest
             (flush stamp o (set_buffer (buffer st ++ arrived) st))
  end.

End Save.

End Ndjson.

(** ** Sample runtime services

    Closed examples need the runtime services as concrete functions:
    the case mapping and the white space of ASCII for [str.lower] and
    [str.strip], plain decimal literals and the names of NaN and the
    infinities for [float()] on strings, seconds turned into
    microseconds for [fromtimestamp], and decimal renderings for
    [isoformat] and for floats inside f-strings.  The examples keep to
    ASCII strings, on which these agree with the runtime. *)

Module Sample.
Import Py.

Definition lower_char (c : ascii) : ascii :=
  let n := Ascii.N_of_ascii c in
  if ((65 <=? n) && (n <=? 90))%N then Ascii.ascii_of_N (n + 32) else c.

Fixpoint lower (s : string) : string :=
  match s with
  | EmptyString => EmptyString
  | String c s' => String (lower_char c) (lower s')
  end.

Definition is_space (c : ascii) : bool :=
  let n := Ascii.N_of_ascii c in
  (((9 <=? n) && (n <=? 13)) || ((28 <=? n) && (n <=? 32)))%N.

Fixpoint lstrip (s : string) : string :=
  match s with
  | EmptyString => EmptyString
  | String c s' => if is_space c then lstrip s' else s
  end.

Definition strip (s : string) : string :=
  String.rev (lstrip (String.rev (lstrip s))).

Definition digit (c : ascii) : option Z :=
  let n := Ascii.N_of_ascii c in
  if ((48 <=? n) && (n <=? 57))%N then Some (Z.of_N n - 48) else None.

(** Reads [digits] or [digits.digits]; [den] is the power of ten
    gathered after the point, zero before it. *)
Fixpoint decimal_go (s : string) (num den : Z) (seen : bool) : option Q :=
  match s with
  | EmptyString =>
      if seen then Some (num # Z.to_pos (Z.max 1 den))%Q else None
  | String c s' =>
      if Ascii.eqb c "." then
        if (den =? 0) && seen then decimal_go s' num 1 true else None
      else
        match digit c with
        | Some k => decimal_go s' (num * 10 + k) (den * 10) true
        | None => None
        end
  end.

Definition float_of_string (s : string) : option Np.float :=
  if String.eqb s "nan" then Some Np.NaN
  else if String.eqb s "inf" then Some Np.PInf
  else if String.eqb s "-inf" then Some Np.NInf
  else
    match s with
    | String "-" s' => (fun q => Np.Fin (- q)) <$> decimal_go s' 0 0 false
    | _ => Np.Fin <$> decimal_go s 0 0 false
    end.

Definition fromtimestamp (secs : Np.float) : result datetime :=
  match secs with
  | Np.Fin q => ret (Qnum q * 1000000 / Zpos (Qden q))
  | Np.NaN => raise ValueError
  | _ => raise OverflowError
  end.

Definition isoformat (ts : datetime) : string := pretty ts.

Definition float_str (x : Np.float) : string :=
  match x with
  | Np.Fin q => pretty (Qnum q) +:+ "/" +:+ pretty (Zpos (Qden q))
  | Np.PInf => "inf"
  | Np.NInf => "-inf"
  | Np.NaN => "nan"
  end.

(** A stand-in for [resample_data] on frames with a value that is not
    finite: it refuses them. *)
Definition resample_other (ticks : list Database.TickData)
    (timeframe : string) : result (list Processor.OhlcRow) :=
  raise ValueError.

(** A stand-in for [adfuller] that keeps the library's input check: a
    constant series is refused with [ValueError].  Any other series
    gets a fixed answer. *)
Definition adfuller (x : list Np.float) (maxlag : option Z)
  : result Analytics.adf_tuple :=
  match x with
  | Np.Fin a :: rest =>
      if forallb (fun y => match y with
                           | Np.Fin b => Qeq_bool a b
                           | _ => false
                           end) rest
      then raise ValueError
      else ret (Analytics.mkAdf (Np.Fin (-3)) (Np.Fin (1 # 100)) 0
                  (Z.of_nat (length x) - 1) [])
  | _ => raise ValueError
  end.

(** A rational approximation of the square root from below. *)
Definition sqrt (q : Q) : Q :=
  (Z.sqrt (Qnum q * Zpos (Qden q)) # Qden q)%Q.

(** Stand-ins for the two regressions that keep the libraries' input
    check: an infinite value is refused with [ValueError].  Any other
    input gets a fixed answer. *)
Definition all_finite (xs : list Np.float) : bool :=
  forallb (fun x => bool_decide (is_Some (Np.is_finite x))) xs.

Definition OLS_fit (y x : list Np.float) : result Analytics.ols_model :=
  if all_finite x && all_finite y
  then ret (Analytics.mkOls (Np.Fin 2) (Np.Fin 0) (Np.Fin 1) (Np.Fin 0)
              (Np.Fin 0))
  else raise ValueError.

Definition HuberRegressor_fit (x y : list Np.float)
  : result Analytics.huber_model :=
  if all_finite x && all_finite y
  then ret (Analytics.mkHuber (Np.Fin 2) (Np.Fin 0))
  else raise ValueError.

(** Stand-ins for [Series.mean] and [Series.std] on the residuals:
    exact on finite values, NaN otherwise. *)
Definition series_mean (xs : list Np.float) : Np.float :=
  from_option Analytics.mean Np.NaN (mapM Np.is_finite xs).

Definition series_std (xs : list Np.float) : Np.float :=
  from_option (Analytics.std sqrt) Np.NaN (mapM Np.is_finite xs).

End Sample.

(** * Properties *)

(** ** Reconnect backoff *)

Section Backoff.
Import Py Database Collector.

Variable str_lower : string -> string.
Variable str_strip : string -> string.
Variable float_of_string : string -> option Np.float.
Variable fromtimestamp : Np.float -> result datetime.

(** The values a delay may take. *)
Definition valid_delay (d : Z) : Prop := d ∈ [1; 2; 4; 8; 16; 32; 60].

(** The delay that follows [d] after a wait. *)
Definition next_delay (d : Z) : Z := Z.min (d * 2) MAX_RECONNECT_DELAY.

Lemma valid_delay_initial : valid_delay INITIAL_RECONNECT_DELAY.
Proof. unfold valid_delay, INITIAL_RECONNECT_DELAY. set_solver. Qed.

Lemma valid_delay_next d : valid_delay d -> valid_delay (next_delay d).
Proof.
  unfold valid_delay, next_delay, MAX_RECONNECT_DELAY.
  rewrite !elem_of_cons, elem_of_nil.
  intros H. repeat (destruct H as [-> | H]; [vm_compute; tauto |]).
  destruct H.
Qed.

Lemma valid_delay_bounds d : valid_delay d -> 1 <= d <= MAX_RECONNECT_DELAY.
Proof.
  unfold valid_delay, MAX_RECONNECT_DELAY.
  rewrite !elem_of_cons, elem_of_nil. lia.
Qed.

Lemma uniform_map_lookup (l : list string) (v : Z) sym :
  sym ∈ l ->
  (list_to_map ((fun s => (s, v)) <$> l) : gmap string Z) !! sym = Some v.
Proof.
  induction l as [| x l IH]; [by intros ?%elem_of_nil |].
  intros Hin. rewrite fmap_cons, list_to_map_cons. simpl.
  destruct (decide (x = sym)) as [-> | Hne].
  - by rewrite lookup_insert_eq.
  - rewrite lookup_insert_ne by done. apply IH.
    by apply elem_of_cons in Hin as [-> | Hin].
Qed.

(** Right after construction every configured symbol has the initial
    delay. *)
Lemma init_delays syms d st sym :
  init str_lower str_strip syms d = inr st -> sym ∈ symbols st ->
  reconnect_delays st !! sym = Some INITIAL_RECONNECT_DELAY
  /\ valid_delay INITIAL_RECONNECT_DELAY.
Proof.
  unfold init.
  generalize ((fun s => str_strip (str_lower s)) <$>
                List.filter
                  (fun s => negb (String.eqb (str_strip s) EmptyString)) syms).
  intros [| k kept]; [done |].
  intros [= <-]. simpl. intros Hin. split; [| apply valid_delay_initial].
  by apply (uniform_map_lookup (k :: kept)).
Qed.

(** What a connection task may change, seen from outside: only its own
    delay, which stays valid, and its own sleeps, all of valid length. *)
Definition evolves (sym : string) (st st' : t) : Prop :=
  (forall s, s <> sym -> reconnect_delays st' !! s = reconnect_delays st !! s)
  /\ (exists d, reconnect_delays st' !! sym = Some d /\ valid_delay d)
  /\ (exists ds, slept st' = slept st ++ ((fun d => (ConnTask sym, d)) <$> ds)
                 /\ Forall valid_delay ds).

Lemma evolves_refl sym st d :
  reconnect_delays st !! sym = Some d -> valid_delay d -> evolves sym st st.
Proof.
  intros Hd Hv. repeat split; eauto.
  exists []. simpl. by rewrite app_nil_r.
Qed.

Lemma evolves_trans sym st1 st2 st3 :
  evolves sym st1 st2 -> evolves sym st2 st3 -> evolves sym st1 st3.
Proof.
  intros (Ho1 & _ & ds1 & Hs1 & Hv1) (Ho2 & Hd2 & ds2 & Hs2 & Hv2).
  repeat split; eauto.
  - intros s Hs. by rewrite Ho2, Ho1.
  - exists (ds1 ++ ds2). split; [| by apply Forall_app].
    by rewrite Hs2, Hs1, fmap_app, app_assoc.
Qed.

(** Handling a frame touches the buffer and the log only. *)
Lemma handle_trade_frame now sym msg st :
  let st' := handle_trade str_lower float_of_string
      fromtimestamp now sym msg st in
  reconnect_delays st' = reconnect_delays st
  /\ slept st' = slept st /\ running st' = running st /\ db st' = db st.
Proof.
  unfold handle_trade, handle_trade_body. simpl.
  destruct (json_loads msg) as [e | data]; simpl.
  { by destruct e. }
  destruct (get data "e" VNone) as [e | ev]; simpl.
  { by destruct e. }
  destruct (is_trade ev); [| done].
  destruct (normalize _ _ _ _) as [e | tk]; simpl; [by destruct e | done].
Qed.

Lemma receive_frame sym frames : forall st st' broke,
  receive str_lower float_of_string
      fromtimestamp sym frames st = (st', broke) ->
  reconnect_delays st' = reconnect_delays st /\ slept st' = slept st.
Proof.
  induction frames as [| [now msg |] rest IH]; intros st st' broke; simpl.
  - by intros [= <- <-].
  - destruct (running st); simpl; [| by intros [= <- <-]].
    intros H. apply IH in H as [-> ->].
    by destruct (handle_trade_frame now sym msg st) as (-> & -> & _).
  - intros H. by apply IH in H as [-> ->].
Qed.

Lemma on_exception_frame sym e st :
  reconnect_delays (on_exception sym e st).1 = reconnect_delays st
  /\ slept (on_exception sym e st).1 = slept st
  /\ running (on_exception sym e st).1 = running st.
Proof. by destruct e. Qed.

(** After an attempt, the slept trace is untouched and the delay is the
    initial one if the connection opened, the old one otherwise. *)
Lemma try_connect_delays sym a st st1 go_on :
  try_connect str_lower float_of_string fromtimestamp sym a st = (st1, go_on) ->
  slept st1 = slept st
  /\ reconnect_delays st1 =
       match a with
       | Refused _ => reconnect_delays st
       | Connected _ _ => <[sym := INITIAL_RECONNECT_DELAY]> (reconnect_delays st)
       end.
Proof.
  unfold try_connect. destruct a as [e | frames ending].
  - intros H.
    destruct (on_exception_frame sym e
                (logging INFO ("Connecting to " +:+ sym +:+ " stream...") st))
      as (Hd & Hs & _).
    rewrite H in Hd, Hs. simpl in *. by rewrite Hd, Hs.
  - destruct (receive _ _ _ _ _) as [st' broke] eqn:Hr.
    apply receive_frame in Hr as [Hd Hs]. simpl in Hd, Hs.
    destruct broke, ending as [e |]; try (intros [= <- <-]; by rewrite Hd, Hs).
    intros H. destruct (on_exception_frame sym e st') as (Hd' & Hs' & _).
    rewrite H in Hd', Hs'. simpl in *. by rewrite Hd', Hs', Hd, Hs.
Qed.

Lemma try_connect_evolves sym a st st1 go_on d :
  reconnect_delays st !! sym = Some d -> valid_delay d ->
  try_connect str_lower float_of_string fromtimestamp sym a st = (st1, go_on) ->
  evolves sym st st1.
Proof.
  intros Hd Hv H. apply try_connect_delays in H as [Hs Hr].
  repeat split.
  - intros s Hne. rewrite Hr. destruct a; [done |]. by rewrite lookup_insert_ne.
  - rewrite Hr. destruct a; [eauto |].
    rewrite lookup_insert_eq. eauto using valid_delay_initial.
  - exists []. simpl. by rewrite app_nil_r.
Qed.

Lemma backoff_spec sym signal st d :
  reconnect_delays st !! sym = Some d ->
  exists st', backoff sym signal st = inr st'
    /\ slept st' = slept st ++ [(ConnTask sym, d)]
    /\ reconnect_delays st' = <[sym := next_delay d]> (reconnect_delays st)
    /\ running st' = (if signal then false else running st).
Proof.
  intros Hd. unfold backoff. rewrite Hd. eexists. split; [done |].
  by destruct signal.
Qed.

Lemma backoff_evolves sym signal st d :
  reconnect_delays st !! sym = Some d -> valid_delay d ->
  exists st', backoff sym signal st = inr st' /\ evolves sym st st'.
Proof.
  intros Hd Hv. destruct (backoff_spec sym signal st d Hd)
    as (st' & Hb & Hs & Hr & _).
  exists st'. split; [done |]. repeat split.
  - intros s Hne. rewrite Hr. by rewrite lookup_insert_ne.
  - rewrite Hr, lookup_insert_eq. eauto using valid_delay_next.
  - exists [d]. split; [done | by constructor].
Qed.

Lemma connect_symbol_evolves sym script : forall st d,
  reconnect_delays st !! sym = Some d -> valid_delay d ->
  exists st',
    connect_symbol str_lower float_of_string
        fromtimestamp sym script st = inr st'
    /\ evolves sym st st'.
Proof.
  induction script as [| [a signal] rest IH]; intros st d Hd Hv; simpl.
  { eauto using evolves_refl. }
  destruct (running st); simpl; [| eauto using evolves_refl].
  destruct (try_connect _ _ _ _ _) as [st1 go_on] eqn:Ht.
  pose proof (try_connect_evolves _ _ _ _ _ _ Hd Hv Ht) as He1.
  destruct go_on; simpl; [| eauto].
  destruct He1 as (Ho1 & (d1 & Hd1 & Hv1) & Hs1).
  assert (evolves sym st st1) as He1 by (repeat split; eauto).
  destruct (running st1).
  - destruct (backoff_evolves sym signal st1 d1 Hd1 Hv1) as (st2 & Hb & He2).
    rewrite Hb. simpl.
    destruct He2 as (Ho2 & (d2 & Hd2 & Hv2) & Hs2).
    destruct (IH st2 d2 Hd2 Hv2) as (st' & Hc & He3).
    exists st'. split; [done |].
    eapply evolves_trans; [exact He1 |].
    eapply evolves_trans; [| exact He3]. repeat split; eauto.
  - destruct (IH st1 d1 Hd1 Hv1) as (st' & Hc & He3).
    exists st'. split; [done |]. eapply evolves_trans; eauto.
Qed.

#[local] Arguments try_connect : simpl never.
#[local] Arguments backoff : simpl never.

Lemma refused_goes_on sym e st :
  e <> InvalidURI ->
  exists st1,
    try_connect str_lower float_of_string
        fromtimestamp sym (Refused e) st = (st1, true)
    /\ running st1 = running st.
Proof. intros He. unfold try_connect. destruct e; try done; simpl; eauto. Qed.

(** Attempts refused in a row: each wait lasts the current delay, which
    is then doubled up to the cap. *)
Lemma refused_run sym es : forall st d,
  running st = true ->
  reconnect_delays st !! sym = Some d ->
  Forall (fun e => e <> InvalidURI) es ->
  exists st',
    connect_symbol str_lower float_of_string fromtimestamp sym
      ((fun e => (Refused e, false)) <$> es) st = inr st'
    /\ slept st' = slept st ++
         ((fun i => (ConnTask sym, Nat.iter i next_delay d))
            <$> seq 0 (length es))
    /\ reconnect_delays st' !! sym = Some (Nat.iter (length es) next_delay d)
    /\ running st' = true.
Proof.
  induction es as [| e es IH]; intros st d Hrun Hd Hes; simpl.
  { exists st. by rewrite app_nil_r. }
  apply Forall_cons in Hes as [He Hes].
  rewrite Hrun. simpl.
  destruct (refused_goes_on sym e st He) as (st1 & Ht & Hr1).
  rewrite Ht. simpl. rewrite Hr1, Hrun.
  apply try_connect_delays in Ht as [Hs1 Hd1].
  assert (reconnect_delays st1 !! sym = Some d) as Hd1' by by rewrite Hd1.
  destruct (backoff_spec sym false st1 d Hd1') as (st2 & Hb & Hs2 & Hd2 & Hr2).
  rewrite Hb. simpl.
  destruct (IH st2 (next_delay d)) as (st' & Hc & Hs' & Hd' & Hr'); auto.
  { by rewrite Hr2, Hr1. }
  { by rewrite Hd2, lookup_insert_eq. }
  exists st'. split; [done |]. split; [| split; [| done]].
  - rewrite Hs', Hs2, Hs1, <- app_assoc. f_equal. simpl. f_equal.
    rewrite <- fmap_S_seq, <- list_fmap_compose.
    apply list_fmap_ext. intros _ i _. unfold compose. f_equal.
    symmetry. apply Nat.iter_succ_r.
  - rewrite Hd'. f_equal.
    exact (eq_sym (Nat.iter_succ_r (length es) next_delay d)).
Qed.

(** A pass in which the connection opened: whatever the delay was, the
    wait that follows, if any, lasts the initial delay. *)
Lemma connected_pass sym frames ending signal st d :
  running st = true ->
  reconnect_delays st !! sym = Some d ->
  exists st',
    connect_symbol str_lower float_of_string fromtimestamp sym
      [(Connected frames ending, signal)] st = inr st'
    /\ ((slept st' = slept st
         /\ reconnect_delays st' !! sym = Some INITIAL_RECONNECT_DELAY)
        \/ (slept st' = slept st ++ [(ConnTask sym, INITIAL_RECONNECT_DELAY)]
            /\ reconnect_delays st' !! sym
               = Some (next_delay INITIAL_RECONNECT_DELAY))).
Proof.
  intros Hrun Hd. simpl. rewrite Hrun. simpl.
  destruct (try_connect _ _ _ _ _) as [st1 go_on] eqn:Ht.
  apply try_connect_delays in Ht as [Hs1 Hd1].
  assert (reconnect_delays st1 !! sym = Some INITIAL_RECONNECT_DELAY) as Hd1'.
  { by rewrite Hd1, lookup_insert_eq. }
  destruct go_on; simpl; [| exists st1; auto].
  destruct (running st1); [| exists st1; auto].
  destruct (backoff_spec sym signal st1 _ Hd1') as (st2 & Hb & Hs2 & Hd2 & _).
  rewrite Hb. simpl. exists st2. split; [done |]. right. split.
  - by rewrite Hs2, Hs1.
  - by rewrite Hd2, lookup_insert_eq.
Qed.

(** C4.  For every symbol, whatever happens to its connection, the
    reconnect delay only takes the values 1, 2, 4, 8, 16, 32 and 60: every
    run of [connect_symbol] returns, leaves the delays of the other
    symbols alone, keeps its own delay among these values and only sleeps
    such delays; attempts refused in a row wait the current delay and
    then double it, never beyond 60; and once a connection has opened,
    the delay is back at 1, so that the next wait lasts 1. *)
Theorem reconnect_delay_sequence (sym : string) (st : t) (d : Z) :
  reconnect_delays st !! sym = Some d ->
  valid_delay d ->
  (forall script, exists st',
      connect_symbol str_lower float_of_string
          fromtimestamp sym script st = inr st'
      /\ evolves sym st st')
  /\ (forall es, running st = true ->
        Forall (fun e => e <> InvalidURI) es ->
        exists st',
          connect_symbol str_lower float_of_string fromtimestamp sym
            ((fun e => (Refused e, false)) <$> es) st = inr st'
          /\ slept st' = slept st ++
               ((fun i => (ConnTask sym, Nat.iter i next_delay d))
                  <$> seq 0 (length es))
          /\ reconnect_delays st' !! sym
             = Some (Nat.iter (length es) next_delay d)
          /\ Nat.iter (length es) next_delay d <= MAX_RECONNECT_DELAY)
  /\ (forall frames ending signal, running st = true ->
        exists st',
          connect_symbol str_lower float_of_string fromtimestamp sym
            [(Connected frames ending, signal)] st = inr st'
          /\ ((slept st' = slept st
               /\ reconnect_delays st' !! sym = Some 1)
              \/ (slept st' = slept st ++ [(ConnTask sym, 1)]
                  /\ reconnect_delays st' !! sym = Some 2))).
Proof.
  intros Hd Hv. split; [| split].
  - intros script. by eapply connect_symbol_evolves.
  - intros es Hrun Hes.
    destruct (refused_run sym es st d Hrun Hd Hes) as (st' & Hc & Hs & Hd' & _).
    exists st'. repeat split; try done.
    assert (forall n, valid_delay (Nat.iter n next_delay d)) as Hn.
    { induction n; simpl; auto using valid_delay_next. }
    apply (valid_delay_bounds _ (Hn _)).
  - intros frames ending signal Hrun.
    apply (connected_pass sym frames ending signal st d Hrun Hd).
Qed.

End Backoff.

(** The collector right after [run] has set [running], for one symbol. *)
Definition sample_collector : Collector.t :=
  Collector.mkCollector ["btcusdt"%string] Database.empty_db true []
    {[ "btcusdt"%string := 1 ]} [] [].

Lemma sample_collector_init :
  Collector.init Sample.lower Sample.strip
      [" BTCUSDT "%string; EmptyString] Database.empty_db
  = inr (Collector.set_running false sample_collector).
Proof. reflexivity. Qed.

(** Seven refusals in a row from a fresh collector. *)
Lemma reconnect_delay_sequence_witness :
  exists st',
    Collector.connect_symbol Sample.lower
        (fun _ => None) (fun _ => inr 0) "btcusdt"
      ((fun e => (Collector.Refused e, false)) <$> replicate 8 Py.OSError)
      sample_collector = inr st'
    /\ (Collector.slept st').*2 = [1; 2; 4; 8; 16; 32; 60; 60].
Proof.
  destruct (reconnect_delay_sequence Sample.lower
      (fun _ => None) (fun _ => inr 0)
              "btcusdt" sample_collector 1) as (_ & H & _).
  - reflexivity.
  - unfold valid_delay. apply list_elem_of_here.
  - destruct (H (replicate 8 Py.OSError)) as (st' & Hc & Hs & _).
    + reflexivity.
    + repeat constructor; discriminate.
    + exists st'. split; [exact Hc |]. rewrite Hs. reflexivity.
Defined.

(** ** Normalising trade messages *)

Section Normalizer.
Import Py Database Collector.

Variable str_lower : string -> string.
Variable float_of_string : string -> option Np.float.
Variable fromtimestamp : Np.float -> result datetime.

#[local] Abbreviation normalize :=
  (normalize str_lower float_of_string fromtimestamp).
#[local] Abbreviation handle_trade :=
  (handle_trade str_lower float_of_string fromtimestamp).
#[local] Abbreviation float_ := (float_ float_of_string).

(** The price and quantity fields as [normalize] reads them. *)
Definition price_field (d : list (string * value)) : value :=
  default (VInt 0) (assoc "p" d).
Definition size_field (d : list (string * value)) : value :=
  default (VInt 0) (assoc "q" d).

Ltac run_bind :=
  match goal with
  | |- context [Py.bind ?m _] =>
      let E := fresh "E" in destruct m eqn:E; simpl; try discriminate
  | |- context [if ?b then _ else _] => destruct b; simpl
  end.

(** When [normalize] returns, both conversions went through and their
    results are the tick's fields. *)
Lemma normalize_returns now d tk :
  normalize now (VDict d) = inr tk ->
  float_ (price_field d) = inr (price tk)
  /\ float_ (size_field d) = inr (size tk).
Proof.
  unfold Collector.normalize, price_field, size_field, mbind, result_bind.
  simpl. repeat run_bind; intros [= <-]; done.
Qed.

Lemma normalize_raises now d e :
  float_ (price_field d) = inl e \/ float_ (size_field d) = inl e ->
  exists e', normalize now (VDict d) = inl e'.
Proof.
  intros H. destruct (normalize now (VDict d)) as [e' | tk] eqn:Hn; [eauto |].
  apply normalize_returns in Hn as [Hp Hq].
  destruct H as [H | H]; congruence.
Qed.

Lemma handle_trade_appends now sym d st tk :
  assoc "e" d = Some (VStr "trade") ->
  normalize now (VDict d) = inr tk ->
  buffer (handle_trade now sym (Json (VDict d)) st) = buffer st ++ [tk].
Proof.
  intros He Hn. unfold Collector.handle_trade, handle_trade_body.
  simpl. rewrite He. simpl.
  unfold mbind, result_bind. by rewrite Hn.
Qed.

Lemma handle_trade_drops now sym d st e :
  assoc "e" d = Some (VStr "trade") ->
  normalize now (VDict d) = inl e ->
  buffer (handle_trade now sym (Json (VDict d)) st) = buffer st
  /\ exists msg,
       log (handle_trade now sym (Json (VDict d)) st) = log st ++ [(ERROR, msg)].
Proof.
  intros He Hn. unfold Collector.handle_trade, handle_trade_body.
  simpl. rewrite He. simpl.
  unfold mbind, result_bind. rewrite Hn. simpl.
  destruct e; simpl; eauto.
Qed.

(** What [float()] makes of a value, in the words of the language:
    a float is returned as it is, [True] and [False] are 1.0 and 0.0, a
    string is parsed, and an integer is taken to a nearest float64, which
    below 2^53 is the integer itself and from there on a multiple of the
    spacing of the floats of its size, no further away than half of
    it. *)
Definition nearest_double (z z' : Z) : Prop :=
  if Z.abs z <? 2 ^ 53 then z' = z
  else
    let ulp := 2 ^ (Z.log2 (Z.abs z) - 52) in
    (ulp | z') /\ 2 * Z.abs (z' - z) <= ulp.

Definition converts_to (v : value) (x : Np.float) : Prop :=
  match v with
  | VFloat y => x = y
  | VBool b => x = Np.Fin (if b then 1 else 0)
  | VInt z =>
      Z.abs z < 2 ^ 1024 - 2 ^ 970
      /\ exists z', x = Np.Fin (inject_Z z') /\ nearest_double z z'
  | VStr s => float_of_string s = Some x
  | VNone | VList _ | VDict _ => False
  end.

(** The values that [float()] refuses: what is neither a number nor a
    string, a string that is not a literal, and an integer beyond the
    range of float64. *)
Definition refused (v : value) : Prop :=
  match v with
  | VNone | VList _ | VDict _ => True
  | VStr s => float_of_string s = None
  | VInt z => 2 ^ 1024 - 2 ^ 970 <= Z.abs z
  | VFloat _ | VBool _ => False
  end.

Lemma overflows_int z :
  Np.overflows (inject_Z z) = true <-> 2 ^ 1024 - 2 ^ 970 <= Z.abs z.
Proof.
  unfold Np.overflows, Qle_bool, inject_Z, Qabs.
  cbn [Qnum Qden]. rewrite !Z.mul_1_r. apply Z.leb_le.
Qed.

Lemma round_int_nearest z : nearest_double z (Np.round_int z).
Proof.
  unfold nearest_double, Np.round_int.
  destruct (Z.abs z <? 2 ^ 53) eqn:E; [done |].
  apply Z.ltb_ge in E. cbv zeta.
  set (a := Z.abs z) in *.
  assert (0 < a) as Ha by (pose proof (Z.pow_pos_nonneg 2 53); lia).
  assert (53 <= Z.log2 a) as Hl by (by apply Z.log2_le_pow2).
  set (e := Z.log2 a - 52). assert (1 <= e) as He by (unfold e; lia).
  rewrite Z.shiftr_div_pow2, !Z.shiftl_mul_pow2 by lia.
  rewrite Z.mul_1_l.
  assert (2 ^ e = 2 * 2 ^ (e - 1)) as Hp.
  { rewrite <- Z.pow_succ_r by lia. f_equal. lia. }
  assert (0 < 2 ^ (e - 1)) as Hh by (apply Z.pow_pos_nonneg; lia).
  set (h := 2 ^ (e - 1)) in *. set (P := 2 ^ e) in *.
  pose proof (Z.div_mod a P ltac:(lia)) as Hdm.
  pose proof (Z.mod_pos_bound a P ltac:(lia)) as Hb.
  set (m := a / P) in *. set (r := a mod P) in *.
  replace (a - m * P) with r by lia.
  set (m' := if (h <? r) || (r =? h) && Z.odd m then m + 1 else m).
  split.
  - apply Z.divide_mul_r, Z.divide_factor_r.
  - assert (2 * Z.abs (m' * P - a) <= P) as Hd.
    { unfold m'.
      destruct (h <? r) eqn:E1; [apply Z.ltb_lt in E1 | apply Z.ltb_ge in E1];
        simpl.
      - lia.
      - destruct (r =? h) eqn:E2;
          [apply Z.eqb_eq in E2 | apply Z.eqb_neq in E2]; simpl.
        + destruct (Z.odd m); lia.
        + lia. }
    unfold a in *. destruct (Z.abs_spec z) as [[Hz Hz'] | [Hz Hz']];
      rewrite Hz' in *.
    + rewrite Z.sgn_pos by lia. by rewrite Z.mul_1_l.
    + rewrite Z.sgn_neg by lia.
      replace (-1 * (m' * P) - z) with (- (m' * P - - z)) by lia.
      by rewrite Z.abs_opp.
Qed.

Lemma float_converts v x : float_ v = inr x -> converts_to v x.
Proof.
  destruct v as [| b | z | y | s | l | d]; simpl; try done.
  - intros [= <-]. by destruct b.
  - unfold Np.float_of_int.
    destruct (Np.overflows (inject_Z z)) eqn:E; [done |].
    intros [= <-]. split.
    + destruct (Z.le_gt_cases (2 ^ 1024 - 2 ^ 970) (Z.abs z)) as [H | H];
        [| lia].
      apply overflows_int in H. congruence.
    + exists (Np.round_int z). split; [done | apply round_int_nearest].
  - by intros [= <-].
  - destruct (float_of_string s); [by intros [= <-] | done].
Qed.

Lemma float_refuses v : refused v -> exists e, float_ v = inl e.
Proof.
  destruct v as [| b | z | y | s | l | d]; simpl; try done; eauto.
  - intros H%overflows_int. unfold Np.float_of_int. rewrite H. eauto.
  - intros ->. eauto.
Qed.

Lemma float_accepts v : ~ refused v -> exists x, float_ v = inr x.
Proof.
  destruct v as [| b | z | y | s | l | d]; simpl; try done; eauto.
  - intros H. unfold Np.float_of_int.
    destruct (Np.overflows (inject_Z z)) eqn:E; [| eauto].
    by apply overflows_int in E.
  - destruct (float_of_string s); [eauto | done].
Qed.

(** A message with a usable time stamp, symbol, price and quantity gives
    this tick. *)
Lemma normalize_accepts now d ts s p q :
  (assoc "T" d = None /\ assoc "E" d = None /\ assoc "t" d = None
   /\ ts = now
   \/ exists ms,
        assoc "T" d = Some (VInt ms) /\ ms <> 0
        /\ Np.overflows (inject_Z ms / 1000) = false
        /\ fromtimestamp (Np.Fin (inject_Z ms / 1000)) = inr ts) ->
  default (VStr EmptyString) (assoc "s" d) = VStr s ->
  float_ (price_field d) = inr p ->
  float_ (size_field d) = inr q ->
  normalize now (VDict d) = inr (mkTick (str_lower s) ts p q).
Proof.
  unfold price_field, size_field.
  intros Hts Hs Hp Hq.
  unfold Collector.normalize, get, mbind, result_bind. simpl.
  rewrite Hs, Hp, Hq. simpl.
  destruct Hts as [(-> & -> & -> & ->) | (ms & -> & Hms & Hov & Hts)]; simpl.
  - done.
  - apply Z.eqb_neq in Hms.
    repeat (rewrite ?Hms, ?Hov, ?Hts; simpl). done.
Qed.

(** C3, as the code has it.  For a decoded message whose event type is
    "trade", [handle_trade] returns without raising and leaves the rest
    of the collector alone.  If [normalize] returns a tick, the tick is
    appended to the buffer, its price and size are what [float()] makes
    of the fields, and a missing field gives 0.0.  If the price or the
    quantity is present but [float()] refuses it, [normalize] raises, the
    error is logged and the message is dropped: no tick with 0.0 is
    buffered for it.  A message without a time stamp, or with a usable
    one under "T", whose symbol is a string and whose price and quantity
    [float()] does not refuse, is buffered with the converted values. *)
Theorem trade_message_handling (now : datetime) (sym : string)
    (d : list (string * value)) (st : t) :
  assoc "e" d = Some (VStr "trade") ->
  let st' := handle_trade now sym (Json (VDict d)) st in
  (running st' = running st /\ reconnect_delays st' = reconnect_delays st
   /\ db st' = db st /\ slept st' = slept st)
  /\ (forall tk, normalize now (VDict d) = inr tk ->
        buffer st' = buffer st ++ [tk]
        /\ float_ (price_field d) = inr (price tk)
        /\ float_ (size_field d) = inr (size tk)
        /\ converts_to (price_field d) (price tk)
        /\ converts_to (size_field d) (size tk)
        /\ (assoc "p" d = None -> price tk = Np.Fin 0)
        /\ (assoc "q" d = None -> size tk = Np.Fin 0))
  /\ (forall e,
        float_ (price_field d) = inl e \/ float_ (size_field d) = inl e ->
        (exists e', normalize now (VDict d) = inl e')
        /\ buffer st' = buffer st
        /\ exists msg, log st' = log st ++ [(ERROR, msg)])
  /\ (refused (price_field d) \/ refused (size_field d) ->
        (exists e', normalize now (VDict d) = inl e')
        /\ buffer st' = buffer st
        /\ exists msg, log st' = log st ++ [(ERROR, msg)])
  /\ (forall ts s,
        (assoc "T" d = None /\ assoc "E" d = None /\ assoc "t" d = None
         /\ ts = now
         \/ exists ms,
              assoc "T" d = Some (VInt ms) /\ ms <> 0
              /\ Np.overflows (inject_Z ms / 1000) = false
              /\ fromtimestamp (Np.Fin (inject_Z ms / 1000)) = inr ts) ->
        default (VStr EmptyString) (assoc "s" d) = VStr s ->
        ~ refused (price_field d) ->
        ~ refused (size_field d) ->
        exists p q,
          buffer st' = buffer st ++ [mkTick (str_lower s) ts p q]
          /\ converts_to (price_field d) p
          /\ converts_to (size_field d) q).
Proof.
  intros He st'.
  assert (forall e,
            float_ (price_field d) = inl e \/ float_ (size_field d) = inl e ->
            (exists e', normalize now (VDict d) = inl e')
            /\ buffer st' = buffer st
            /\ exists msg, log st' = log st ++ [(ERROR, msg)]) as Hdrop.
  { intros e Hbad. destruct (normalize_raises now d e Hbad) as [e' Hn].
    split; [eauto |]. by apply (handle_trade_drops now sym d st e'). }
  split; [| split; [| split; [| split]]].
  - destruct (handle_trade_frame str_lower float_of_string fromtimestamp now
                sym (Json (VDict d)) st) as (? & ? & ? & ?). done.
  - intros tk Hn. split; [by apply handle_trade_appends |].
    destruct (normalize_returns now d tk Hn) as [Hp Hq].
    split; [done |]. split; [done |].
    split; [by apply float_converts |]. split; [by apply float_converts |].
    split.
    + intros Hnone. unfold price_field in Hp. rewrite Hnone in Hp.
      simpl in Hp. by injection Hp.
    + intros Hnone. unfold size_field in Hq. rewrite Hnone in Hq.
      simpl in Hq. by injection Hq.
  - exact Hdrop.
  - intros [H | H]; apply float_refuses in H as [e H]; apply (Hdrop e); auto.
  - intros ts s Hts Hs Hp Hq.
    apply float_accepts in Hp as [p Hp]. apply float_accepts in Hq as [q Hq].
    exists p, q. split.
    + apply handle_trade_appends; [done |]. by apply normalize_accepts.
    + split; by apply float_converts.
Qed.

End Normalizer.

(** A trade without price and quantity: the tick is buffered with 0.0 in
    both fields. *)
Lemma trade_message_handling_witness :
  Collector.buffer
    (Collector.handle_trade Sample.lower Sample.float_of_string
        Sample.fromtimestamp 0
       "btcusdt"
       (Py.Json (Py.VDict [("e", Py.VStr "trade"); ("s", Py.VStr "BTCUSDT");
                           ("T", Py.VInt 1700000000000)]%string))
       sample_collector)
  = [Database.mkTick "btcusdt" 1700000000000000 0 0].
Proof.
  pose proof (trade_message_handling Sample.lower Sample.float_of_string
                Sample.fromtimestamp 0 "btcusdt"
                [("e", Py.VStr "trade"); ("s", Py.VStr "BTCUSDT");
                 ("T", Py.VInt 1700000000000)]%string
                sample_collector eq_refl) as (_ & H & _).
  destruct (H (Database.mkTick "btcusdt" 1700000000000000 0 0) eq_refl)
    as (Hb & _).
  exact Hb.
Defined.

(** C3 as stated fails on a price that is not a number: [normalize]
    raises and the message never reaches the buffer, so no tick with price
    0.0 is stored for it. *)
Lemma malformed_price_is_dropped :
  let data :=
    Py.VDict [("e", Py.VStr "trade"); ("s", Py.VStr "BTCUSDT");
              ("T", Py.VInt 1700000000000); ("p", Py.VStr "abc");
              ("q", Py.VStr "0.5")]%string in
  Collector.normalize Sample.lower Sample.float_of_string
      Sample.fromtimestamp 0 data
  = inl Py.ValueError
  /\ Collector.buffer
       (Collector.handle_trade Sample.lower Sample.float_of_string
           Sample.fromtimestamp 0
          "btcusdt" (Py.Json data) sample_collector) = []
  /\ Collector.log
       (Collector.handle_trade Sample.lower Sample.float_of_string
           Sample.fromtimestamp 0
          "btcusdt" (Py.Json data) sample_collector)
     = [(Py.ERROR, "Error handling trade for btcusdt: ValueError"%string)].
Proof. repeat split. Qed.

(** A price that reads as NaN is a float for [float()]: the tick is
    buffered with it. *)
Example nan_price_is_buffered :
  Collector.buffer
    (Collector.handle_trade Sample.lower Sample.float_of_string
       Sample.fromtimestamp 0 "btcusdt"
       (Py.Json (Py.VDict [("e", Py.VStr "trade"); ("s", Py.VStr "BTCUSDT");
                           ("T", Py.VInt 1700000000000);
                           ("p", Py.VStr "nan"); ("q", Py.VInt 2)]%string))
       sample_collector)
  = [Database.mkTick "btcusdt" 1700000000000000 Np.NaN (Np.Fin 2)].
Proof. reflexivity. Qed.

(** An integer price beyond the range of float64 is refused with
    [OverflowError], and the message is dropped. *)
Example huge_price_is_dropped :
  let data :=
    Py.VDict [("e", Py.VStr "trade"); ("s", Py.VStr "BTCUSDT");
              ("T", Py.VInt 1700000000000); ("p", Py.VInt (10 ^ 400));
              ("q", Py.VInt 2)]%string in
  Collector.normalize Sample.lower Sample.float_of_string
    Sample.fromtimestamp 0 data = inl Py.OverflowError
  /\ Collector.buffer
       (Collector.handle_trade Sample.lower Sample.float_of_string
          Sample.fromtimestamp 0 "btcusdt" (Py.Json data) sample_collector)
     = [].
Proof. split; vm_compute; reflexivity. Qed.

(** Above 2^53 an integer is rounded to the nearest float64, ties to the
    even mantissa. *)
Example float_of_int_rounds :
  Np.float_of_int (2 ^ 53 + 1) = Some (Np.Fin (inject_Z (2 ^ 53)))
  /\ Np.float_of_int (2 ^ 53 + 3) = Some (Np.Fin (inject_Z (2 ^ 53 + 4)))
  /\ Np.float_of_int (10 ^ 23)
     = Some (Np.Fin (inject_Z 99999999999999991611392))
  /\ Np.float_of_int (2 ^ 1024 - 2 ^ 970 - 1)
     = Some (Np.Fin (inject_Z (2 ^ 1024 - 2 ^ 971)))
  /\ Np.float_of_int (2 ^ 1024 - 2 ^ 970) = None.
Proof. repeat split; vm_compute; reflexivity. Qed.

(** ** Flushing the buffer *)

Section FlushFacts.
Import Py Database Collector.

Variable isoformat : datetime -> string.
Variable float_str : Np.float -> string.

#[local] Abbreviation flush := (flush isoformat float_str).
#[local] Abbreviation save_buffer := (save_buffer isoformat float_str).
#[local] Abbreviation write_batch := (write_batch isoformat float_str).

(** The scheduler itself never raises. *)
Lemma flush_returns F st : exists st', flush F st = inr st'.
Proof. unfold Collector.flush. simpl. destruct (buffer st); eauto. Qed.

Lemma save_buffer_returns script : forall st,
  exists st', save_buffer script st = inr st'.
Proof.
  induction script as [| [F arrived] rest IH]; intros st; simpl; [eauto |].
  destruct (running st); simpl; [| eauto].
  destruct (flush_returns F (set_buffer (buffer st ++ arrived) st)) as [st1 H].
  unfold mbind, result_bind. rewrite H. simpl. apply IH.
Qed.

(** A commit that raises makes the whole batch write raise. *)
Lemma commit_fault_fails F d batch e :
  (forall id, on_merge F id = None) ->
  on_commit F = Some e ->
  write_batch F d batch = inl e.
Proof.
  intros Hm Hc. unfold Database.write_batch.
  assert (forall pending, exists stored,
             merge_ticks isoformat float_str F pending batch = inr stored) as H.
  { induction batch as [| tk rest IH]; intros pending; simpl; [eauto |].
    unfold merge_tick. rewrite Hm. simpl. apply IH. }
  destruct (H (ticks d)) as [stored ->]. simpl.
  unfold commit. by rewrite Hc.
Qed.

(** C5.  When the batched write of a flush fails, the failure is logged
    by the storage layer, nothing of the batch is stored, and the buffer
    is emptied all the same: the next turn writes only what arrived in
    the meantime.  Neither that turn nor any run of the scheduler
    raises. *)
Theorem failed_flush_loses_batch (F : faults) (st : t) (e : exn) :
  buffer st <> [] ->
  write_batch F (db st) (buffer st) = inl e ->
  exists st',
    flush F st = inr st'
    /\ buffer st' = []
    /\ Database.ticks (db st') = Database.ticks (db st)
    /\ Database.log (db st')
       = Database.log (db st)
           ++ [(ERROR, "Error inserting batch: " +:+ str_exn e)]
    /\ running st' = running st
    /\ (forall F' arrived rest,
          running st' = true ->
          save_buffer ((F', arrived) :: rest) st'
          = (st2 ← flush F' (set_buffer arrived st'); save_buffer rest st2))
    /\ (forall script, exists st'', save_buffer script st = inr st'').
Proof.
  intros Hbuf Hw. unfold Collector.flush. simpl.
  destruct (buffer st) as [| tk rest] eqn:Hb; [done |].
  eexists. split; [reflexivity |]. simpl.
  unfold insert_ticks_batch. fold write_batch. rewrite Hw. simpl.
  repeat split.
  - intros F' arrived rest' Hrun. simpl in Hrun. by rewrite Hrun.
  - intros script. apply save_buffer_returns.
Qed.

End FlushFacts.

(** A collector holding one tick. *)
Definition sample_tick : Database.Tick :=
  Database.mkTick "btcusdt" 1700000000000000 (100 # 1) (1 # 2).

Definition sample_loaded : Collector.t :=
  Collector.set_buffer [sample_tick] sample_collector.

(** Storage whose commits raise. *)
Definition commit_down : Database.faults :=
  Database.mkFaults (fun _ => None) (Some Py.OperationalError) None.

Lemma failed_flush_loses_batch_witness :
  exists st',
    Collector.flush Sample.isoformat Sample.float_str commit_down sample_loaded
    = inr st'
    /\ Collector.buffer st' = []
    /\ Database.ticks (Collector.db st') = ∅.
Proof.
  destruct (failed_flush_loses_batch Sample.isoformat Sample.float_str
              commit_down sample_loaded Py.OperationalError)
    as (st' & Hf & Hb & Ht & _).
  - discriminate.
  - reflexivity.
  - exists st'. split; [exact Hf |]. split; [exact Hb |]. exact Ht.
Defined.

(** ** Upserting bars *)

Section Upsert.
Import Py Database.

Variable isoformat : datetime -> string.

#[local] Abbreviation insert_ohlc := (insert_ohlc isoformat).
#[local] Abbreviation make_ohlc_id := (make_ohlc_id isoformat).
#[local] Abbreviation make_ohlc_row := (make_ohlc_row isoformat).

(** The key of a stored bar. *)
Definition bar_key (r : OHLCData) : string * string * datetime :=
  (ohlc_symbol r, ohlc_timeframe r, ohlc_timestamp r).

(** Every row sits under the id computed from its own key. *)
Definition keyed (tbl : gmap string OHLCData) : Prop :=
  forall i r, tbl !! i = Some r ->
    i = make_ohlc_id (ohlc_symbol r) (ohlc_timestamp r) (ohlc_timeframe r).

Lemma keyed_empty : keyed ∅.
Proof. intros i r H. by rewrite lookup_empty in H. Qed.

Lemma keyed_one_per_key tbl i j r1 r2 :
  keyed tbl -> tbl !! i = Some r1 -> tbl !! j = Some r2 ->
  bar_key r1 = bar_key r2 -> i = j /\ r1 = r2.
Proof.
  intros Hk H1 H2 [= Hs Hf Ht].
  assert (i = j) as ->.
  { rewrite (Hk _ _ H1), (Hk _ _ H2). by rewrite Hs, Hf, Ht. }
  split; [done | congruence].
Qed.

Lemma insert_ohlc_stored F d sym ts tf o h l c v :
  on_merge F (make_ohlc_id sym ts tf) = None ->
  on_commit F = None ->
  insert_ohlc F d sym ts tf o h l c v
  = mkDb (ticks d)
         (<[make_ohlc_id sym ts tf := make_ohlc_row sym ts tf o h l c v]> (ohlc d))
         (log d).
Proof.
  intros Hm Hc.
  unfold Database.insert_ohlc, write_bar, merge_ohlc, commit. simpl.
  by rewrite Hm, Hc.
Qed.

(** With or without a fault, the table stays keyed. *)
Lemma insert_ohlc_keyed F d sym ts tf o h l c v :
  keyed (ohlc d) -> keyed (ohlc (insert_ohlc F d sym ts tf o h l c v)).
Proof.
  intros Hk. unfold Database.insert_ohlc, write_bar, merge_ohlc, commit.
  simpl.
  destruct (on_merge F _); simpl; [done |].
  destruct (on_commit F); simpl; [done |].
  intros i r. rewrite lookup_insert.
  case_decide as Hi; [| by apply Hk].
  intros [= <-]. by rewrite <- Hi.
Qed.

(** The databases that sequences of [insert_ohlc] calls, successful or
    not, build from the empty one. *)
Inductive built_by_inserts : Database.t -> Prop :=
| built_empty : built_by_inserts empty_db
| built_insert F d sym ts tf o h l c v :
    built_by_inserts d ->
    built_by_inserts (insert_ohlc F d sym ts tf o h l c v).

Lemma built_by_inserts_keyed d : built_by_inserts d -> keyed (ohlc d).
Proof.
  induction 1; [apply keyed_empty | by apply insert_ohlc_keyed].
Qed.

Lemma built_by_inserts_one_per_key d i j r1 r2 :
  built_by_inserts d ->
  ohlc d !! i = Some r1 -> ohlc d !! j = Some r2 ->
  bar_key r1 = bar_key r2 -> i = j /\ r1 = r2.
Proof.
  intros Hd. apply keyed_one_per_key. by apply built_by_inserts_keyed.
Qed.


End Upsert.


(** ** The stationarity test *)

Section AdfFacts.
Import Py Np Analytics.

Variable adfuller : list float -> option Z -> result adf_tuple.

#[local] Abbreviation compute_adf_test := (compute_adf_test adfuller).

Lemma dropna_length series : (length (dropna series) <= length series)%nat.
Proof. apply List.filter_length_le. Qed.

Lemma flt_true p c :
  flt p c = true <-> p = NInf \/ exists q, p = Fin q /\ (q < c)%Q.
Proof.
  destruct p as [q | | |]; simpl.
  - rewrite negb_true_iff. split.
    + intros H. right. exists q. split; [done |].
      apply Qnot_le_lt. intros Hle. apply Qle_bool_iff in Hle. congruence.
    + intros [| (q' & [= <-] & Hlt)]; [done |].
      destruct (Qle_bool c q) eqn:E; [| done].
      apply Qle_bool_iff in E. by apply Qle_not_lt in E.
  - split; [done |]. intros [| (? & ? & _)]; done.
  - split; auto.
  - split; [done |]. intros [| (? & ? & _)]; done.
Qed.

(** C7, as the code has it.  With fewer than 10 observations left after
    dropping missing values the result is an error dictionary.  With 10
    or more, the outcome follows [adfuller]: if it returns, the result
    carries its statistic, p-value, critical values, lag count and
    observation count, and the verdict is true exactly when the p-value
    is below 0.05; if it raises, the exception is caught and the result
    is an error dictionary with its message. *)
Theorem adf_test_outcomes (series : list float) (maxlag : option Z) :
  ((length (dropna series) < 10)%nat ->
     exists msg, compute_adf_test series maxlag = AdfError msg)
  /\ ((10 <= length (dropna series))%nat ->
        match adfuller (dropna series) maxlag with
        | inr r =>
            compute_adf_test series maxlag
            = AdfResult (adf_stat r) (adf_pvalue r) (adf_crit r)
                        (adf_usedlag r) (adf_nobs r)
                        (flt (adf_pvalue r) (5 # 100))
        | inl e => compute_adf_test series maxlag = AdfError (str_exn e)
        end)
  /\ (forall stat p crit lags nobs verdict,
        compute_adf_test series maxlag
          = AdfResult stat p crit lags nobs verdict ->
        (verdict = true <->
           p = NInf \/ exists q, p = Fin q /\ (q < 5 # 100)%Q)).
Proof.
  pose proof (dropna_length series) as Hle.
  unfold Analytics.compute_adf_test. split; [| split].
  - intros Hlt. destruct (length series <? 10)%nat eqn:E1; [eauto |].
    apply Nat.ltb_lt in Hlt. rewrite Hlt. eauto.
  - intros Hge.
    assert ((length series <? 10)%nat = false) as -> by (apply Nat.ltb_ge; lia).
    assert ((length (dropna series) <? 10)%nat = false) as ->
      by (apply Nat.ltb_ge; lia).
    by destruct (adfuller (dropna series) maxlag).
  - intros stat p crit lags nobs verdict.
    destruct (length series <? 10)%nat; [done |].
    destruct (length (dropna series) <? 10)%nat; [done |].
    destruct (adfuller (dropna series) maxlag) as [e | r]; simpl; [done |].
    intros [= _ <- _ _ _ <-]. apply flt_true.
Qed.

End AdfFacts.

(** C7 as stated fails when the series is long enough but the test itself
    raises: twelve equal observations give an error dictionary, not a
    statistic. *)
Lemma adf_constant_series_is_error :
  let series := replicate 12 (Np.Fin 5) in
  length (Analytics.dropna series) = 12%nat
  /\ Analytics.compute_adf_test Sample.adfuller series None
     = Analytics.AdfError "ValueError".
Proof. split; reflexivity. Qed.

(** ** Ordering rows *)

Section SortFacts.
Import Pd.
Context {A : Type} (key : A -> Z).

Definition key_le (x y : A) : Prop := key x <= key y.

Lemma insert_by_perm x l : insert_by key x l ≡ₚ x :: l.
Proof.
  induction l as [| y l IH]; simpl; [done |].
  destruct (key x <=? key y); [done |].
  rewrite IH. apply Permutation_swap.
Qed.

Lemma sort_by_perm l : sort_by key l ≡ₚ l.
Proof.
  induction l as [| x l IH]; simpl; [done |].
  by rewrite insert_by_perm, IH.
Qed.

Lemma insert_by_sorted x l :
  StronglySorted key_le l -> StronglySorted key_le (insert_by key x l).
Proof.
  induction 1 as [| y l Hs IH Hy]; simpl.
  { repeat constructor. }
  destruct (key x <=? key y) eqn:E.
  - apply Z.leb_le in E. constructor; [by constructor |].
    constructor; [done |].
    eapply Forall_impl; [exact Hy |]. unfold key_le. intros; lia.
  - apply Z.leb_gt in E. constructor; [done |].
    rewrite insert_by_perm. constructor; [unfold key_le; lia | done].
Qed.

Lemma sort_by_sorted l : StronglySorted key_le (sort_by key l).
Proof.
  induction l; simpl; [constructor | by apply insert_by_sorted].
Qed.

Lemma sort_by_elem x l : x ∈ sort_by key l <-> x ∈ l.
Proof. by rewrite sort_by_perm. Qed.

End SortFacts.

(** ** Lists filtered by a boolean test *)

Section FilterFacts.
Context {A : Type}.

Lemma elem_of_bfilter (f : A -> bool) x l :
  x ∈ List.filter f l <-> x ∈ l /\ f x = true.
Proof. rewrite !list_elem_of_In. apply List.filter_In. Qed.

Lemma bfilter_perm (f : A -> bool) l l' :
  l ≡ₚ l' -> List.filter f l ≡ₚ List.filter f l'.
Proof.
  induction 1 as [| x l l' _ IH | x y l | l1 l2 l3 _ IH1 _ IH2]; simpl.
  - done.
  - destruct (f x); [by constructor | done].
  - destruct (f x), (f y); try done. apply Permutation_swap.
  - by rewrite IH1.
Qed.

Lemma bfilter_sorted (R : A -> A -> Prop) (f : A -> bool) l :
  StronglySorted R l -> StronglySorted R (List.filter f l).
Proof.
  induction 1 as [| x l Hs IH Hx]; simpl; [constructor |].
  destruct (f x); [| done]. constructor; [done |].
  apply Forall_forall. intros y Hy. apply elem_of_bfilter in Hy as [Hy _].
  by eapply Forall_forall in Hx.
Qed.

Lemma last_cons_default {T : Type} (l : list T) x z :
  List.last (z :: l) x = List.last l z.
Proof.
  revert x z. induction l as [| u l IH]; intros x z; [done |].
  change (List.last (z :: u :: l) x) with (List.last (u :: l) x).
  by rewrite (IH x u), (IH z u).
Qed.

Lemma last_elem (l : list A) x : List.last l x ∈ x :: l.
Proof.
  revert x. induction l as [| z l IH]; intros x.
  - apply list_elem_of_here.
  - rewrite last_cons_default. apply list_elem_of_further, IH.
Qed.

Lemma last_fmap {B} (f : A -> B) (l : list A) x :
  List.last (f <$> l) (f x) = f (List.last l x).
Proof.
  revert x. induction l as [| z l IH]; intros x; [done |].
  rewrite fmap_cons, (last_cons_default l x z).
  transitivity (List.last (f <$> l) (f z)); [| apply IH].
  apply (last_cons_default (f <$> l)).
Qed.

(** In a sorted list the first element is below and the last one above
    every element. *)
Lemma sorted_head_least (R : A -> A -> Prop) `{!Reflexive R} x l y :
  StronglySorted R (x :: l) -> y ∈ x :: l -> R x y.
Proof.
  intros Hs Hy. apply StronglySorted_inv in Hs as [_ Hx].
  apply elem_of_cons in Hy as [-> | Hy]; [done |].
  by eapply Forall_forall in Hx.
Qed.

Lemma sorted_last_greatest (R : A -> A -> Prop) `{!Reflexive R} l : forall x y,
  StronglySorted R (x :: l) -> y ∈ x :: l -> R y (List.last l x).
Proof.
  induction l as [| z l IH]; intros x y Hs Hy.
  - apply list_elem_of_singleton in Hy as ->. done.
  - apply StronglySorted_inv in Hs as [Hs Hx].
    rewrite last_cons_default.
    apply elem_of_cons in Hy as [-> | Hy]; [| by apply IH].
    eapply Forall_forall in Hx; [exact Hx |]. apply last_elem.
Qed.

End FilterFacts.

(** ** Resampling ticks into bars *)

Section ResampleFacts.
Import Py Pd Database Np Analytics.

(** The bar of bucket [b], given the rows that fall into it, in order. *)
Definition bar_of (b : datetime) (rs : list TickRow) : option Bar :=
  match ohlc_agg (tr_price <$> rs) with
  | Some (o, h, l, c) => Some (mkBar b o h l c (Qsum (tr_size <$> rs)))
  | None => None
  end.

(** [resample_data] for a non-empty frame, with bucket width [w]. *)
Definition resample_bars (w : Z) (df : list TickRow) : list Bar :=
  let sorted := sort_by tr_timestamp df in
  omap (fun b => bar_of b (List.filter (in_bin w b) sorted)) (bin_labels w sorted).

Lemma omap_zip_fmap {A B C D} (f1 : A -> B) (f2 : A -> C)
    (g : B * C -> option D) (h : A -> option D) (l : list A) :
  (forall a, g (f1 a, f2 a) = h a) ->
  omap g (zip (f1 <$> l) (f2 <$> l)) = omap h l.
Proof.
  intros Hg. induction l as [| a l IH]; [done |].
  change (omap g (zip (f1 <$> a :: l) (f2 <$> a :: l)))
    with (match g (f1 a, f2 a) with
          | Some y => y :: omap g (zip (f1 <$> l) (f2 <$> l))
          | None => omap g (zip (f1 <$> l) (f2 <$> l))
          end).
  by rewrite Hg, IH.
Qed.

Lemma resample_data_bars df timeframe :
  df <> [] ->
  resample_data df timeframe
  = resample_bars (width (dict_get freq_map timeframe Freq_1T)) df.
Proof.
  intros Hne. unfold resample_data. destruct df as [| r df]; [done |].
  unfold join_dropna, resample, resample_bars.
  apply omap_zip_fmap. intros b. unfold bar_of.
  by destruct (ohlc_agg _) as [[[[o h] l] c] |].
Qed.

(** *** Buckets *)

Lemma bin_start_bounds w t :
  0 < w -> bin_start w t <= t < bin_start w t + w.
Proof.
  intros Hw. unfold bin_start.
  pose proof (Z.div_mod t w ltac:(lia)). pose proof (Z.mod_pos_bound t w Hw).
  lia.
Qed.

Lemma bin_start_unique w k t :
  0 < w -> w * k <= t < w * k + w -> bin_start w t = w * k.
Proof.
  intros Hw Ht. unfold bin_start. f_equal.
  symmetry. apply (Z.div_unique t w k (t - w * k)); lia.
Qed.

(** A row is in the bucket labelled by a multiple of the width exactly
    when that label is the start of its own bucket. *)
Lemma in_bin_start w k r :
  0 < w ->
  in_bin w (w * k) r = true <-> bin_start w (tr_timestamp r) = w * k.
Proof.
  intros Hw. unfold in_bin. rewrite andb_true_iff, Z.leb_le, Z.ltb_lt. split.
  - intros H. by apply bin_start_unique.
  - intros H. pose proof (bin_start_bounds w (tr_timestamp r) Hw). lia.
Qed.

Lemma labels_increasing lo w n : forall s,
  0 < w ->
  StronglySorted Z.lt ((fun k => lo + Z.of_nat k * w) <$> seq s n).
Proof.
  induction n as [| n IH]; intros s Hw; simpl; constructor; [by apply IH |].
  apply Forall_forall. intros b Hb.
  apply list_elem_of_fmap in Hb as (k & -> & Hk).
  apply elem_of_seq in Hk. nia.
Qed.

Lemma bin_labels_increasing w sorted :
  0 < w -> StronglySorted Z.lt (bin_labels w sorted).
Proof.
  intros Hw. unfold bin_labels. destruct sorted; [constructor |].
  by apply labels_increasing.
Qed.

Lemma bin_labels_aligned w sorted b :
  b ∈ bin_labels w sorted -> exists k, b = w * k.
Proof.
  unfold bin_labels. destruct sorted as [| r0 rest]; [by intros ?%elem_of_nil |].
  intros (k & -> & _)%list_elem_of_fmap. unfold bin_start.
  exists (tr_timestamp r0 / w + Z.of_nat k). lia.
Qed.

(** The labels cover the bucket of every row of a sorted frame. *)
Lemma bin_labels_cover w sorted r :
  0 < w ->
  StronglySorted (key_le tr_timestamp) sorted ->
  r ∈ sorted ->
  bin_start w (tr_timestamp r) ∈ bin_labels w sorted.
Proof.
  intros Hw Hs Hr. unfold bin_labels.
  destruct sorted as [| r0 rest]; [by apply elem_of_nil in Hr |].
  assert (Reflexive (key_le tr_timestamp)) as Hrefl
    by (intros x; unfold key_le; lia).
  pose proof (sorted_head_least _ r0 rest r Hs Hr) as Hlo.
  pose proof (sorted_last_greatest _ rest r0 r Hs Hr) as Hhi.
  rewrite <- (last_cons_default rest r0 r0) in Hhi.
  unfold key_le in Hlo, Hhi.
  set (t0 := tr_timestamp r0) in *.
  set (t1 := tr_timestamp (List.last (r0 :: rest) r0)) in *.
  set (t := tr_timestamp r) in *.
  pose proof (Z.div_le_mono t0 t w Hw Hlo) as H1.
  pose proof (Z.div_le_mono t t1 w Hw Hhi) as H2.
  apply list_elem_of_fmap. exists (Z.to_nat (t / w - t0 / w)). split.
  - unfold bin_start. rewrite Z2Nat.id by lia. lia.
  - apply elem_of_seq. unfold bin_start.
    replace (w * (t1 / w) - w * (t0 / w)) with ((t1 / w - t0 / w) * w) by lia.
    rewrite Z.div_mul by lia. lia.
Qed.

(** *** Aggregates of one bucket *)

Lemma Qmax'_cases a b : (Qmax' a b = a \/ Qmax' a b = b)
  /\ (a <= Qmax' a b)%Q /\ (b <= Qmax' a b)%Q.
Proof.
  unfold Qmax'. destruct (Qle_bool a b) eqn:E.
  - apply Qle_bool_iff in E. repeat split; auto. apply Qle_refl.
  - repeat split; auto; [apply Qle_refl |].
    destruct (Qlt_le_dec a b) as [Hlt | Hle]; [| done].
    apply Qlt_le_weak, Qle_bool_iff in Hlt. congruence.
Qed.

Lemma Qmin'_cases a b : (Qmin' a b = a \/ Qmin' a b = b)
  /\ (Qmin' a b <= a)%Q /\ (Qmin' a b <= b)%Q.
Proof.
  unfold Qmin'. destruct (Qle_bool a b) eqn:E.
  - apply Qle_bool_iff in E. repeat split; auto. apply Qle_refl.
  - repeat split; auto; [| apply Qle_refl].
    destruct (Qlt_le_dec a b) as [Hlt | Hle]; [| done].
    apply Qlt_le_weak, Qle_bool_iff in Hlt. congruence.
Qed.

Lemma foldl_Qmax' ps : forall p,
  foldl Qmax' p ps ∈ p :: ps
  /\ forall x, x ∈ p :: ps -> (x <= foldl Qmax' p ps)%Q.
Proof.
  induction ps as [| y ps IH]; intros p; simpl.
  { split; [apply list_elem_of_here |].
    intros x ->%list_elem_of_singleton. apply Qle_refl. }
  destruct (IH (Qmax' p y)) as [Hin Hub].
  destruct (Qmax'_cases p y) as (Hc & Hp & Hy).
  split.
  - apply elem_of_cons in Hin as [-> | Hin].
    + destruct Hc as [-> | ->]; [apply list_elem_of_here |].
      apply list_elem_of_further, list_elem_of_here.
    + by do 2 apply list_elem_of_further.
  - assert (Qmax' p y <= foldl Qmax' (Qmax' p y) ps)%Q as Hm
      by apply Hub, list_elem_of_here.
    intros x [-> | [-> | Hx]%elem_of_cons]%elem_of_cons.
    + by eapply Qle_trans.
    + by eapply Qle_trans.
    + by apply Hub, list_elem_of_further.
Qed.

Lemma foldl_Qmin' ps : forall p,
  foldl Qmin' p ps ∈ p :: ps
  /\ forall x, x ∈ p :: ps -> (foldl Qmin' p ps <= x)%Q.
Proof.
  induction ps as [| y ps IH]; intros p; simpl.
  { split; [apply list_elem_of_here |].
    intros x ->%list_elem_of_singleton. apply Qle_refl. }
  destruct (IH (Qmin' p y)) as [Hin Hlb].
  destruct (Qmin'_cases p y) as (Hc & Hp & Hy).
  split.
  - apply elem_of_cons in Hin as [-> | Hin].
    + destruct Hc as [-> | ->]; [apply list_elem_of_here |].
      apply list_elem_of_further, list_elem_of_here.
    + by do 2 apply list_elem_of_further.
  - assert (foldl Qmin' (Qmin' p y) ps <= Qmin' p y)%Q as Hm
      by apply Hlb, list_elem_of_here.
    intros x [-> | [-> | Hx]%elem_of_cons]%elem_of_cons.
    + by eapply Qle_trans.
    + by eapply Qle_trans.
    + by apply Hlb, list_elem_of_further.
Qed.

Lemma Qsum_perm l l' : l ≡ₚ l' -> (Qsum l == Qsum l')%Q.
Proof.
  induction 1 as [| x l l' _ IH | x y l | l1 l2 l3 _ IH1 _ IH2]; simpl.
  - reflexivity.
  - by rewrite IH.
  - ring.
  - by rewrite IH1.
Qed.

Lemma Qsum_foldr l : Qsum l = foldr Qplus 0%Q l.
Proof. induction l as [| x l IH]; simpl; [done | by rewrite IH]. Qed.

(** What it means for a bar to summarise a set of rows: open and close
    are the prices of an earliest and a latest row, high and low are the
    extreme prices, and volume is the total of the sizes (the sum is
    exact: the rounding of the additions is not part of the model). *)
Definition summarises (bar : Bar) (rows : list TickRow) : Prop :=
  (exists r, r ∈ rows /\ tr_price r = bar_open bar
             /\ forall r', r' ∈ rows -> tr_timestamp r <= tr_timestamp r')
  /\ (exists r, r ∈ rows /\ tr_price r = bar_close bar
                /\ forall r', r' ∈ rows -> tr_timestamp r' <= tr_timestamp r)
  /\ (exists r, r ∈ rows /\ tr_price r = bar_high bar)
  /\ (forall r', r' ∈ rows -> (tr_price r' <= bar_high bar)%Q)
  /\ (exists r, r ∈ rows /\ tr_price r = bar_low bar)
  /\ (forall r', r' ∈ rows -> (bar_low bar <= tr_price r')%Q)
  /\ (bar_volume bar == foldr Qplus 0 (tr_size <$> rows))%Q.

Lemma bar_of_timestamp b rs bar :
  bar_of b rs = Some bar -> bar_timestamp bar = b /\ rs <> [].
Proof.
  unfold bar_of. destruct rs as [| r rs]; [done |]. simpl.
  by intros [= <-].
Qed.

Lemma bar_of_nonempty b rs : rs <> [] -> is_Some (bar_of b rs).
Proof. destruct rs; [done |]. by eexists. Qed.

Lemma bar_of_summarises b rs bar rows :
  StronglySorted (key_le tr_timestamp) rs ->
  rs ≡ₚ rows ->
  bar_of b rs = Some bar ->
  summarises bar rows.
Proof.
  intros Hs Hp Hbar. unfold bar_of in Hbar.
  destruct rs as [| r rs]; [done |]. simpl in Hbar.
  injection Hbar as <-. unfold summarises. simpl.
  assert (Reflexive (key_le tr_timestamp)) as Hrefl
    by (intros x; unfold key_le; lia).
  assert (forall x, x ∈ rows <-> x ∈ r :: rs) as Hin
    by (intros x; by rewrite Hp).
  destruct (foldl_Qmax' (tr_price <$> rs) (tr_price r)) as [Hmax Hub].
  destruct (foldl_Qmin' (tr_price <$> rs) (tr_price r)) as [Hmin Hlb].
  change (tr_price r :: (tr_price <$> rs))
    with (tr_price <$> r :: rs) in Hmax, Hub, Hmin, Hlb.
  apply list_elem_of_fmap in Hmax as (rmax & Hmax & Hrmax).
  apply list_elem_of_fmap in Hmin as (rmin & Hmin & Hrmin).
  repeat split.
  - exists r. split; [apply Hin, list_elem_of_here |]. split; [done |].
    intros r' Hr'. apply Hin in Hr'.
    apply (sorted_head_least _ r rs r' Hs Hr').
  - exists (List.last rs r). split; [apply Hin, last_elem |].
    split; [by rewrite last_fmap |].
    intros r' Hr'. apply Hin in Hr'.
    apply (sorted_last_greatest _ rs r r' Hs Hr').
  - exists rmax. split; [by apply Hin | done].
  - intros r' Hr'. apply Hub, list_elem_of_fmap_2, Hin, Hr'.
  - exists rmin. split; [by apply Hin | done].
  - intros r' Hr'. apply Hlb, list_elem_of_fmap_2, Hin, Hr'.
  - rewrite <- (Qsum_foldr (tr_size <$> rows)).
    change (Qsum (tr_size <$> r :: rs) == Qsum (tr_size <$> rows))%Q.
    apply Qsum_perm. by apply fmap_Permutation.
Qed.

Lemma sorted_fmap_inj {A} (f : A -> Z) (l : list A) x y :
  StronglySorted Z.lt (f <$> l) -> x ∈ l -> y ∈ l -> f x = f y -> x = y.
Proof.
  induction l as [| a l IH]; [by intros _ ?%elem_of_nil |].
  rewrite fmap_cons. intros [Hs Ha]%StronglySorted_inv Hx Hy Hf.
  assert (forall z, z ∈ l -> f a < f z) as Hlt.
  { intros z Hz. eapply Forall_forall in Ha; [exact Ha |].
    by apply list_elem_of_fmap_2. }
  apply elem_of_cons in Hx as [-> | Hx], Hy as [-> | Hy]; auto.
  - specialize (Hlt y Hy). lia.
  - specialize (Hlt x Hx). lia.
Qed.

Lemma omap_timestamps_sorted (f : datetime -> option Bar) labels :
  (forall b bar, f b = Some bar -> bar_timestamp bar = b) ->
  StronglySorted Z.lt labels ->
  StronglySorted Z.lt (bar_timestamp <$> omap f labels).
Proof.
  intros Hf. induction 1 as [| b labels Hs IH Hb].
  { constructor. }
  change (omap f (b :: labels))
    with (match f b with
          | Some y => y :: omap f labels
          | None => omap f labels
          end).
  destruct (f b) as [bar |] eqn:E; [| done].
  rewrite fmap_cons. constructor; [done |].
  apply Forall_forall. intros t (bar' & -> & Hbar')%list_elem_of_fmap.
  apply list_elem_of_omap in Hbar' as (b' & Hb' & Hfb').
  rewrite (Hf _ _ E), (Hf _ _ Hfb').
  by eapply Forall_forall in Hb.
Qed.

(** The resampled frame for any positive bucket width. *)
Lemma resample_bars_spec w df :
  0 < w ->
  StronglySorted Z.lt (bar_timestamp <$> resample_bars w df)
  /\ (forall bar, bar ∈ resample_bars w df ->
        (exists k, bar_timestamp bar = w * k)
        /\ List.filter (in_bin w (bar_timestamp bar)) df <> []
        /\ summarises bar (List.filter (in_bin w (bar_timestamp bar)) df))
  /\ (forall r, r ∈ df ->
        exists bar, bar ∈ resample_bars w df
                    /\ in_bin w (bar_timestamp bar) r = true).
Proof.
  intros Hw. unfold resample_bars.
  set (sorted := sort_by tr_timestamp df).
  assert (StronglySorted (key_le tr_timestamp) sorted) as Hsorted
    by apply sort_by_sorted.
  assert (sorted ≡ₚ df) as Hperm by apply sort_by_perm.
  split; [| split].
  - apply omap_timestamps_sorted; [| by apply bin_labels_increasing].
    intros b bar Hbar. by destruct (bar_of_timestamp _ _ _ Hbar).
  - intros bar (b & Hb & Hbar)%list_elem_of_omap.
    destruct (bar_of_timestamp _ _ _ Hbar) as [-> Hne].
    split; [by eapply bin_labels_aligned |].
    pose proof (bfilter_perm (in_bin w b) _ _ Hperm) as Hp.
    split.
    + intros Hnil. rewrite Hnil in Hp. by apply Permutation_nil_r in Hp.
    + eapply bar_of_summarises; [| exact Hp | exact Hbar].
      by apply bfilter_sorted.
  - intros r Hr.
    assert (r ∈ sorted) as Hrs by by rewrite Hperm.
    pose proof (bin_labels_cover w sorted r Hw Hsorted Hrs) as Hb.
    assert (in_bin w (bin_start w (tr_timestamp r)) r = true) as Hin.
    { unfold bin_start. by apply in_bin_start. }
    destruct (bar_of_nonempty (bin_start w (tr_timestamp r))
                (List.filter (in_bin w (bin_start w (tr_timestamp r))) sorted))
      as [bar Hbar].
    { intros Hnil.
      assert (r ∈ List.filter (in_bin w (bin_start w (tr_timestamp r))) sorted)
        as Hmem by by apply elem_of_bfilter.
      rewrite Hnil in Hmem. by apply elem_of_nil in Hmem. }
    exists bar. split.
    + apply list_elem_of_omap. eauto.
    + by rewrite (proj1 (bar_of_timestamp _ _ _ Hbar)).
Qed.

Lemma freq_of_timeframe timeframe w :
  (timeframe, w) ∈ [("1s", 1000000); ("1m", 60000000); ("5m", 300000000)]%string ->
  width (dict_get freq_map timeframe Freq_1T) = w /\ 0 < w.
Proof.
  rewrite !elem_of_cons, elem_of_nil.
  intros [[= -> ->] | [[= -> ->] | [[= -> ->] | []]]]; by vm_compute.
Qed.

Lemma freq_of_unknown timeframe :
  timeframe ∉ ["1s"; "1m"; "5m"]%string ->
  dict_get freq_map timeframe Freq_1T = Freq_1T.
Proof.
  rewrite !not_elem_of_cons. intros (H1 & H2 & H3 & _).
  unfold freq_map. simpl.
  apply String.eqb_neq in H1, H2, H3. by rewrite H1, H2, H3.
Qed.

(** C6.  For a non-empty frame and a timeframe among 1s, 1m and 5m, whose
    bucket width is [w]: the bars come in strictly increasing time order,
    each starts at a multiple of [w], and each summarises exactly the rows
    of the frame that fall into its bucket, of which there is at least
    one; every row of the frame falls into the bucket of exactly one bar;
    and a bucket without rows has no bar. *)
Theorem resample_data_ohlc (df : list TickRow) (timeframe : string) (w : Z) :
  df <> [] ->
  (timeframe, w) ∈ [("1s", 1000000); ("1m", 60000000); ("5m", 300000000)]%string ->
  StronglySorted Z.lt (bar_timestamp <$> resample_data df timeframe)
  /\ (forall bar, bar ∈ resample_data df timeframe ->
        (exists k, bar_timestamp bar = w * k)
        /\ List.filter (in_bin w (bar_timestamp bar)) df <> []
        /\ summarises bar (List.filter (in_bin w (bar_timestamp bar)) df))
  /\ (forall r, r ∈ df ->
        exists bar, bar ∈ resample_data df timeframe
          /\ in_bin w (bar_timestamp bar) r = true
          /\ forall bar', bar' ∈ resample_data df timeframe ->
               in_bin w (bar_timestamp bar') r = true -> bar' = bar)
  /\ (forall b, (forall r, r ∈ df -> in_bin w b r = false) ->
        forall bar, bar ∈ resample_data df timeframe -> bar_timestamp bar <> b).
Proof.
  intros Hne Htf. rewrite (resample_data_bars df timeframe Hne).
  destruct (freq_of_timeframe timeframe w Htf) as [-> Hw].
  destruct (resample_bars_spec w df Hw) as (Hsorted & Hbars & Hrows).
  split; [done |]. split; [done |]. split.
  - intros r Hr. destruct (Hrows r Hr) as (bar & Hbar & Hin).
    exists bar. split; [done |]. split; [done |].
    intros bar' Hbar' Hin'.
    destruct (Hbars bar Hbar) as ((k & Hk) & _).
    destruct (Hbars bar' Hbar') as ((k' & Hk') & _).
    rewrite Hk in Hin. rewrite Hk' in Hin'.
    apply in_bin_start in Hin, Hin'; try done.
    apply (sorted_fmap_inj bar_timestamp (resample_bars w df)); try done.
    congruence.
  - intros b Hempty bar Hbar <-.
    destruct (Hbars bar Hbar) as (_ & Hrows' & _).
    destruct (List.filter (in_bin w (bar_timestamp bar)) df) as [| r rest] eqn:E;
      [done |].
    assert (r ∈ List.filter (in_bin w (bar_timestamp bar)) df) as Hr
      by (rewrite E; apply list_elem_of_here).
    apply elem_of_bfilter in Hr as [Hr Hin].
    rewrite (Hempty r Hr) in Hin. discriminate.
Qed.

(** C10.  A timeframe string other than 1s, 1m and 5m is resampled with
    one-minute buckets, as 1m would be: the result is the one for 1m, a
    non-empty frame gives at least one bar, the bars come in strictly
    increasing time order, each starts at a whole minute and summarises
    exactly the rows of the frame that fall into the minute it starts,
    of which there is at least one, and every row of the frame falls
    into the minute of a bar. *)
Theorem resample_unknown_timeframe (df : list TickRow) (timeframe : string) :
  df <> [] ->
  timeframe ∉ ["1s"; "1m"; "5m"]%string ->
  resample_data df timeframe = resample_data df "1m"
  /\ resample_data df timeframe <> []
  /\ StronglySorted Z.lt (bar_timestamp <$> resample_data df timeframe)
  /\ (forall bar, bar ∈ resample_data df timeframe ->
        (exists k, bar_timestamp bar = 60000000 * k)
        /\ List.filter (in_bin 60000000 (bar_timestamp bar)) df <> []
        /\ summarises bar (List.filter (in_bin 60000000 (bar_timestamp bar)) df))
  /\ (forall r, r ∈ df ->
        exists bar, bar ∈ resample_data df timeframe
          /\ bar_timestamp bar <= tr_timestamp r < bar_timestamp bar + 60000000).
Proof.
  intros Hne Htf.
  rewrite !(resample_data_bars _ _ Hne), (freq_of_unknown _ Htf).
  change (dict_get freq_map "1m" Freq_1T) with Freq_1T.
  change (width Freq_1T) with 60000000.
  destruct (resample_bars_spec 60000000 df) as (Hsorted & Hbars & Hrows);
    [done |].
  split; [done |]. split; [| split; [done |]; split; [done |]].
  - destruct df as [| r df]; [done |].
    destruct (Hrows r) as (bar & Hbar & _); [apply list_elem_of_here |].
    intros Hnil. rewrite Hnil in Hbar. by apply elem_of_nil in Hbar.
  - intros r Hr. destruct (Hrows r Hr) as (bar & Hbar & Hin).
    exists bar. split; [done |].
    unfold in_bin in Hin. apply andb_true_iff in Hin as [H1 H2].
    apply Z.leb_le in H1. apply Z.ltb_lt in H2. done.
Qed.

End ResampleFacts.

(** Three trades of one symbol, one per second. *)
Definition three_ticks : list Analytics.TickRow :=
  [Analytics.mkTickRow 0 100 1;
   Analytics.mkTickRow 1000000 101 2;
   Analytics.mkTickRow 2000000 99 1].

(** Resampled to one second they give three bars, each with the price
    and the size of its own trade. *)
Lemma three_ticks_1s :
  Analytics.resample_data three_ticks "1s"
  = [Analytics.mkBar 0 100 100 100 100 1;
     Analytics.mkBar 1000000 101 101 101 101 2;
     Analytics.mkBar 2000000 99 99 99 99 1].
Proof. reflexivity. Qed.

(** Resampled to one minute they give a single bar; a gap of empty
    seconds in between leaves no bar behind. *)
Lemma three_ticks_1m :
  Analytics.resample_data three_ticks "1m"
  = [Analytics.mkBar 0 100 101 99 99 4]
  /\ Analytics.resample_data
       [Analytics.mkTickRow 0 100 1;
        Analytics.mkTickRow 3000000 99 1] "1s"
     = [Analytics.mkBar 0 100 100 100 100 1;
        Analytics.mkBar 3000000 99 99 99 99 1].
Proof. split; reflexivity. Qed.

(** The three trades under one minute: one bar, whose volume is the
    total of the three sizes and whose extremes bound the three
    prices. *)
Lemma resample_data_ohlc_witness :
  exists bar,
    Analytics.resample_data three_ticks "1m" = [bar]
    /\ Analytics.bar_timestamp bar = 0
    /\ Qeq (Analytics.bar_volume bar) 4
    /\ Qle 101 (Analytics.bar_high bar)
    /\ Qle (Analytics.bar_low bar) 99.
Proof.
  eexists. split; [reflexivity |].
  destruct (resample_data_ohlc three_ticks "1m" 60000000) as (_ & H & _).
  - discriminate.
  - apply list_elem_of_further, list_elem_of_here.
  - destruct (H (Analytics.mkBar 0 100 101 99 99 (1 + (2 + (1 + 0)))))
      as (_ & _ & Hsum).
    { apply list_elem_of_here. }
    destruct Hsum as (_ & _ & _ & Hhigh & _ & Hlow & Hvol).
    split; [reflexivity |]. split; [exact Hvol |]. split.
    + apply (Hhigh (Analytics.mkTickRow 1000000 101 2)).
      apply list_elem_of_further, list_elem_of_here.
    + apply (Hlow (Analytics.mkTickRow 2000000 99 1)).
      do 2 apply list_elem_of_further. apply list_elem_of_here.
Defined.

(** Under an unknown timeframe the three trades give the one bar that
    starts at minute zero. *)
Lemma resample_unknown_timeframe_witness :
  exists bar,
    Analytics.resample_data three_ticks "15m" = [bar]
    /\ Analytics.resample_data three_ticks "1m" = [bar]
    /\ Analytics.bar_timestamp bar = 0
    /\ Qeq (Analytics.bar_volume bar) 4.
Proof.
  destruct (resample_unknown_timeframe three_ticks "15m")
    as (H & _ & _ & Hbars & _).
  - discriminate.
  - rewrite !not_elem_of_cons. repeat split; try discriminate.
    apply not_elem_of_nil.
  - eexists. split; [reflexivity |]. split; [by rewrite <- H |].
    destruct (Hbars (Analytics.mkBar 0 100 101 99 99 (1 + (2 + (1 + 0)))))
      as (_ & _ & Hsum).
    { apply list_elem_of_here. }
    destruct Hsum as (_ & _ & _ & _ & _ & _ & Hvol).
    split; [reflexivity | exact Hvol].
Defined.

(** ** The spread of two series *)

Section SpreadFacts.
Import Py Pd Np Analytics.

(** The alignment in the other direction: every row of the second frame
    paired with the most recent row of the first frame at or before it,
    and the ratio taken as 1 when none is given. *)
Definition spread_over_second (df1 df2 : list PriceRow)
    (hedge_ratio : option float) : list float :=
  match df1, df2 with
  | [], _ | _, [] => []
  | _, _ =>
      let h := default (Fin 1) hedge_ratio in
      (fun b =>
         fsub (row_price b)
              (fmul h (from_option row_price nan
                         (asof_backward (sort_by row_timestamp df1)
                                        (row_timestamp b)))))
        <$> sort_by row_timestamp df2
  end.

Lemma feq_refl x : feq x x.
Proof. destruct x; simpl; auto. reflexivity. Qed.

Lemma fmul_one x : feq (fmul (Fin 1) x) x.
Proof. destruct x; simpl; auto. ring. Qed.

Lemma fsub_feq x y y' : feq y y' -> feq (fsub x y) (fsub x y').
Proof.
  destruct x, y, y'; simpl; try done. intros H. by rewrite H.
Qed.

Lemma last_sorted_greatest {A} (R : A -> A -> Prop) `{!Reflexive R} l x y :
  StronglySorted R l -> last l = Some x -> y ∈ l -> R y x.
Proof.
  intros Hs Hl Hy. destruct l as [| a l]; [done |].
  assert (x = List.last l a) as ->.
  { clear Hs Hy. revert a Hl. induction l as [| b l IH]; intros a Hl.
    - by injection Hl.
    - rewrite last_cons_cons in Hl. rewrite last_cons_default. by apply IH. }
  by apply sorted_last_greatest.
Qed.

(** The as-of match against a frame: nothing when every row is later,
    otherwise a row at or before the instant that no other such row
    follows. *)
Lemma asof_backward_spec (df : list PriceRow) t :
  match asof_backward (sort_by row_timestamp df) t with
  | None => forall b, b ∈ df -> t < row_timestamp b
  | Some b =>
      b ∈ df /\ row_timestamp b <= t
      /\ forall b', b' ∈ df -> row_timestamp b' <= t ->
                    row_timestamp b' <= row_timestamp b
  end.
Proof.
  unfold asof_backward.
  set (early := List.filter (fun r => row_timestamp r <=? t)
                            (sort_by row_timestamp df)).
  assert (forall b, b ∈ early <-> b ∈ df /\ row_timestamp b <= t) as Hin.
  { intros b. unfold early. by rewrite elem_of_bfilter, sort_by_elem, Z.leb_le. }
  assert (StronglySorted (key_le row_timestamp) early) as Hs
    by apply bfilter_sorted, sort_by_sorted.
  destruct (last early) as [b |] eqn:Hl.
  - assert (b ∈ early) as Hb by by apply last_Some_elem_of.
    apply Hin in Hb as [Hb Hle]. repeat split; try done.
    intros b' Hb' Hle'.
    assert (Reflexive (key_le row_timestamp)) as Hrefl
      by (intros x; unfold key_le; lia).
    apply (last_sorted_greatest (key_le row_timestamp) early b b' Hs Hl).
    by apply Hin.
  - apply last_None in Hl. intros b Hb.
    destruct (Z_lt_le_dec t (row_timestamp b)) as [| Hle]; [done |].
    assert (b ∈ early) as Hmem by by apply Hin.
    rewrite Hl in Hmem. by apply elem_of_nil in Hmem.
Qed.

(** The value that [compute_spread] puts at a row of the first frame. *)
Lemma compute_spread_lookup df1 df2 hedge_ratio i :
  df1 <> [] -> df2 <> [] ->
  (forall h, hedge_ratio = Some h -> truthy h = true) ->
  exists combine,
    compute_spread df1 df2 hedge_ratio !! i
    = (fun a => combine (row_price a)
                  (from_option row_price nan
                     (asof_backward (sort_by row_timestamp df2) (row_timestamp a))))
        <$> sort_by row_timestamp df1 !! i
    /\ forall p1 p2,
         feq (combine p1 p2) (fsub p2 (fmul (default (Fin 1) hedge_ratio) p1)).
Proof.
  intros H1 H2 Hh. unfold compute_spread, merge_asof.
  destruct df1 as [| a1 df1]; [done |]. destruct df2 as [| b1 df2]; [done |].
  destruct hedge_ratio as [h |].
  - rewrite (Hh h eq_refl). exists (fun p1 p2 => fsub p2 (fmul h p1)).
    split; [| intros; apply feq_refl].
    by rewrite <- list_fmap_compose, list_lookup_fmap.
  - exists (fun p1 p2 => fsub p2 p1). split.
    + by rewrite <- list_fmap_compose, list_lookup_fmap.
    + intros p1 p2. simpl. destruct p1, p2; simpl; try done; ring.
Qed.

(** C2, as the code has it.  For non-empty frames, and a hedge ratio that
    is either left out (then taken as 1) or given and not zero, the result
    has one value per row of the first frame, in time order.  A row with
    no row of the second frame at or before it gets NaN; any other row is
    paired with the most recent row of the second frame at or before it
    and gets that row's price minus the ratio times its own. *)
Theorem compute_spread_asof (df1 df2 : list PriceRow)
    (hedge_ratio : option float) :
  df1 <> [] -> df2 <> [] ->
  (forall h, hedge_ratio = Some h -> truthy h = true) ->
  length (compute_spread df1 df2 hedge_ratio) = length df1
  /\ forall i a, sort_by row_timestamp df1 !! i = Some a ->
       exists x, compute_spread df1 df2 hedge_ratio !! i = Some x
         /\ ((x = NaN
              /\ forall b, b ∈ df2 -> row_timestamp a < row_timestamp b)
             \/ (exists b, b ∈ df2
                   /\ row_timestamp b <= row_timestamp a
                   /\ (forall b', b' ∈ df2 ->
                         row_timestamp b' <= row_timestamp a ->
                         row_timestamp b' <= row_timestamp b)
                   /\ feq x (fsub (row_price b)
                               (fmul (default (Fin 1) hedge_ratio)
                                     (row_price a))))).
Proof.
  intros H1 H2 Hh. split.
  - unfold compute_spread, merge_asof.
    destruct df1 as [| a1 df1]; [done |]. destruct df2 as [| b1 df2]; [done |].
    assert (length (sort_by row_timestamp (a1 :: df1)) = length (a1 :: df1))
      as Hlen by by rewrite sort_by_perm.
    destruct hedge_ratio as [h |]; [destruct (truthy h) |];
      by rewrite !length_fmap.
  - intros i a Ha.
    destruct (compute_spread_lookup df1 df2 hedge_ratio i H1 H2 Hh)
      as (combine & Hl & Hc).
    rewrite Ha in Hl. simpl in Hl.
    eexists. split; [exact Hl |].
    pose proof (asof_backward_spec df2 (row_timestamp a)) as Hspec.
    destruct (asof_backward (sort_by row_timestamp df2) (row_timestamp a))
      as [b |]; simpl.
    + right. exists b. destruct Hspec as (Hb & Hle & Hmax).
      repeat split; done.
    + left. split; [| done].
      specialize (Hc (row_price a) nan). simpl in Hc.
      by destruct (combine (row_price a) nan).
Qed.

End SpreadFacts.

(** Two rows of A around one row of B. *)
Definition series_a : list Analytics.PriceRow :=
  [Analytics.mkPriceRow 0 (Np.Fin 10); Analytics.mkPriceRow 2 (Np.Fin 20)].
Definition series_b : list Analytics.PriceRow :=
  [Analytics.mkPriceRow 1 (Np.Fin 5)].

Lemma compute_spread_asof_witness :
  length (Analytics.compute_spread series_a series_b None) = 2%nat.
Proof.
  destruct (compute_spread_asof series_a series_b None) as (H & _).
  - discriminate.
  - discriminate.
  - discriminate.
  - exact H.
Defined.

(** C2 as stated fails on these frames: pairing the row of B with the
    most recent row of A would give the single value 5 - 10, whereas the
    code yields one value per row of A, NaN for the first and 5 - 20 for
    the second. *)
Lemma compute_spread_follows_first_frame :
  Analytics.compute_spread series_a series_b None = [Np.NaN; Np.Fin (-15)]
  /\ spread_over_second series_a series_b None = [Np.Fin (-5)].
Proof. split; reflexivity. Qed.

(** ** The rolling z-score *)

Section ZscoreFacts.
Import Py Np Analytics.

Variable sqrt : Q -> Q.
Hypothesis sqrt_zero : forall q, (q == 0)%Q -> (sqrt q == 0)%Q.

#[local] Abbreviation rolling_std := (rolling_std sqrt).
#[local] Abbreviation compute_zscore := (compute_zscore sqrt).
#[local] Abbreviation std := (std sqrt).

Lemma fsub_nan x : fsub x NaN = NaN.
Proof. by destruct x. Qed.

Lemma fdiv_nan_l y : fdiv NaN y = NaN.
Proof. done. Qed.

Lemma fdiv_nan_r x : fdiv x NaN = NaN.
Proof. by destruct x. Qed.

(** After the replacement no divisor is zero. *)
Lemma replace_zero_nan_nonzero s : ~ feq (replace_zero_nan s) (Fin 0).
Proof.
  destruct s as [q | | |]; simpl; try tauto.
  destruct (Qeq_bool q 0) eqn:E; simpl; [tauto |].
  intros H. apply Qeq_bool_iff in H. congruence.
Qed.

Lemma replace_zero_nan_zero s : feq s (Fin 0) -> replace_zero_nan s = NaN.
Proof.
  destruct s as [q | | |]; simpl; try tauto.
  intros H. apply Qeq_bool_iff in H. by rewrite H.
Qed.

Lemma replace_zero_nan_other s : ~ feq s (Fin 0) -> replace_zero_nan s = s.
Proof.
  destruct s as [q | | |]; simpl; try tauto.
  intros H. destruct (Qeq_bool q 0) eqn:E; [| done].
  apply Qeq_bool_iff in E. tauto.
Qed.

Lemma rolling_lookup agg series window i :
  (i < length series)%nat ->
  rolling agg series window !! i
  = Some (from_option agg NaN (window_at series window i)).
Proof.
  intros Hi. unfold rolling.
  by rewrite list_lookup_fmap, lookup_seq_lt.
Qed.

Lemma compute_zscore_lookup series window i v :
  series !! i = Some v ->
  compute_zscore series window !! i
  = Some (fdiv (fsub v (from_option mean NaN (window_at series window i)))
               (replace_zero_nan
                  (from_option std NaN (window_at series window i)))).
Proof.
  intros Hv. pose proof (lookup_lt_Some _ _ _ Hv) as Hi.
  unfold Analytics.compute_zscore.
  destruct series as [| v0 series]; [done |].
  rewrite !lookup_zip_with, Hv, list_lookup_fmap.
  unfold rolling_mean, Analytics.rolling_std.
  by rewrite !rolling_lookup.
Qed.

Lemma compute_zscore_length series window :
  length (compute_zscore series window) = length series.
Proof.
  unfold Analytics.compute_zscore. destruct series as [| v0 series]; [done |].
  unfold rolling_mean, Analytics.rolling_std, rolling.
  rewrite !length_zip_with, !length_fmap, !length_seq. lia.
Qed.

(** *** Constant windows *)

Lemma Qsum_constant q l :
  Forall (fun x => x == q)%Q l ->
  (Qsum l == inject_Z (Z.of_nat (length l)) * q)%Q.
Proof.
  induction 1 as [| x l Hx _ IH].
  - simpl. ring.
  - change (length (x :: l)) with (S (length l)).
    rewrite Nat2Z.inj_succ. unfold Z.succ. rewrite inject_Z_plus.
    simpl. rewrite IH, Hx. ring.
Qed.

Lemma Qsum_zeros l : Forall (fun x => x == 0)%Q l -> (Qsum l == 0)%Q.
Proof.
  induction 1 as [| x l Hx _ IH]; simpl; [reflexivity |].
  rewrite Hx, IH. ring.
Qed.

Lemma var_two_or_more a b xs :
  var (a :: b :: xs)
  = Some (Qsum ((fun x =>
                   (x - Qsum (a :: b :: xs)
                        / inject_Z (Z.of_nat (length (a :: b :: xs))))
                   * (x - Qsum (a :: b :: xs)
                          / inject_Z (Z.of_nat (length (a :: b :: xs)))))%Q
                  <$> a :: b :: xs)
            / (inject_Z (Z.of_nat (length (a :: b :: xs))) - 1))%Q.
Proof. reflexivity. Qed.

(** The variance of equal observations is zero. *)
Lemma var_constant q l v :
  Forall (fun x => x == q)%Q l -> var l = Some v -> (v == 0)%Q.
Proof.
  intros Hall Hv. destruct l as [| a [| b xs]]; [done | done |].
  rewrite var_two_or_more in Hv.
  remember (a :: b :: xs) as l eqn:El. injection Hv as <-.
  assert (~ inject_Z (Z.of_nat (length l)) == 0)%Q as Hn.
  { rewrite El. unfold Qeq. simpl. lia. }
  assert (Qsum l / inject_Z (Z.of_nat (length l)) == q)%Q as Hm.
  { rewrite (Qsum_constant q l Hall). by field. }
  rewrite Qsum_zeros.
  - unfold Qdiv. ring.
  - apply Forall_fmap. eapply Forall_impl; [exact Hall |].
    intros x Hx. simpl. rewrite Hm, Hx. ring.
Qed.

Lemma std_constant q l :
  Forall (fun x => x == q)%Q l -> replace_zero_nan (std l) = NaN.
Proof.
  intros Hall. unfold Analytics.std.
  destruct (var l) as [v |] eqn:E; [| done].
  apply (var_constant q l v Hall), sqrt_zero in E. simpl.
  apply Qeq_bool_iff in E. by rewrite E.
Qed.

Lemma finite_constant c l xs :
  Forall (fun x => x = c) l ->
  mapM is_finite l = Some xs ->
  exists q, Forall (fun x => x == q)%Q xs.
Proof.
  intros Hc Hm. apply mapM_Some in Hm.
  destruct c as [q | | |].
  - exists q. induction Hm as [| x y l xs Hxy _ IH]; [constructor |].
    apply Forall_cons in Hc as [-> Hc]. injection Hxy as <-.
    constructor; [reflexivity | by apply IH].
  - exists 0%Q. destruct Hm as [| x y l xs Hxy _]; [constructor |].
    by apply Forall_cons in Hc as [-> _].
  - exists 0%Q. destruct Hm as [| x y l xs Hxy _]; [constructor |].
    by apply Forall_cons in Hc as [-> _].
  - exists 0%Q. destruct Hm as [| x y l xs Hxy _]; [constructor |].
    by apply Forall_cons in Hc as [-> _].
Qed.

(** At every position of a constant series the mean is missing or the
    guarded deviation is. *)
Lemma constant_window c n window i :
  from_option mean NaN (window_at (replicate n c) window i) = NaN
  \/ replace_zero_nan (from_option std NaN (window_at (replicate n c) window i))
     = NaN.
Proof.
  unfold window_at. destruct (S i <? window)%nat; [by left |].
  destruct (mapM is_finite _) as [xs |] eqn:E; [| by left].
  apply (finite_constant c) in E as [q Hq].
  - right. by apply (std_constant q).
  - apply Forall_take, Forall_drop.
    eapply Forall_impl; [apply Forall_replicate_eq |]. done.
Qed.

(** *** The window *)

Lemma mapM_is_finite_Fin xs : mapM is_finite (Fin <$> xs) = Some xs.
Proof.
  apply mapM_Some, Forall2_fmap_l, Forall_Forall2_diag, Forall_forall.
  done.
Qed.

Lemma window_at_finite series window i xs :
  (window <= S i)%nat ->
  take window (drop (S i - window) series) = Fin <$> xs ->
  window_at series window i = Some xs.
Proof.
  intros Hi Hwin. unfold window_at.
  assert ((S i <? window)%nat = false) as -> by by apply Nat.ltb_ge.
  rewrite Hwin. apply mapM_is_finite_Fin.
Qed.

Lemma window_at_not_finite series window i j y :
  series !! j = Some y -> is_finite y = None ->
  (j <= i)%nat -> (i < j + window)%nat ->
  window_at series window i = None.
Proof.
  intros Hj Hy Hle Hlt. unfold window_at.
  destruct (S i <? window)%nat; [done |].
  destruct (mapM is_finite _) as [qs |] eqn:E; [| done].
  apply mapM_Some in E.
  assert (take window (drop (S i - window) series) !! (j - (S i - window))%nat
          = Some y) as Hlook.
  { rewrite lookup_take_lt by lia. rewrite lookup_drop.
    by replace (S i - window + (j - (S i - window)))%nat with j by lia. }
  destruct (Forall2_lookup_l _ _ _ _ _ E Hlook) as (q & _ & Hq).
  congruence.
Qed.

Lemma mean_two_or_more a b xs :
  mean (a :: b :: xs)
  = Fin (Qsum (a :: b :: xs)
         / inject_Z (Z.of_nat (length (a :: b :: xs)))).
Proof. reflexivity. Qed.

(** C8.  The z-score has the length of the series.  At a position whose
    window (the [window] observations that end there) is complete and
    finite, with mean [m] and deviation [s], the square root of the sum
    of the squared distances from [m] over [window - 1], it is
    [(value - m) / s], and NaN when [s] is zero, so that nothing is ever
    divided by zero.  It is NaN at the first [window - 1] positions,
    everywhere under a window of one observation, and wherever the
    window holds a value that is not finite.  On a constant series it is
    NaN at every position. *)
Theorem compute_zscore_spec (series : list float) (window : nat) :
  length (compute_zscore series window) = length series
  /\ (forall i xs x,
        (2 <= window)%nat -> (window <= S i)%nat ->
        take window (drop (S i - window) series) = Fin <$> xs ->
        series !! i = Some (Fin x) ->
        let n := inject_Z (Z.of_nat window) in
        let m := (foldr Qplus 0 xs / n)%Q in
        let v := (foldr Qplus 0 ((fun y => (y - m) * (y - m)) <$> xs)
                  / (n - 1))%Q in
        compute_zscore series window !! i
        = Some (if Qeq_bool (sqrt v) 0 then NaN
                else Fin ((x - m) / sqrt v)))
  /\ (forall i, (i < length series)%nat ->
        (S i < window)%nat \/ window = 1%nat
        \/ (exists j y, series !! j = Some y /\ is_finite y = None
                        /\ (j <= i)%nat /\ (i < j + window)%nat) ->
        compute_zscore series window !! i = Some NaN)
  /\ (forall c n i, (i < n)%nat ->
        compute_zscore (replicate n c) window !! i = Some NaN).
Proof.
  split; [apply compute_zscore_length |]. split; [| split].
  - intros i xs x Hw Hi Hwin Hx n m v.
    pose proof (lookup_lt_Some _ _ _ Hx) as Hlt.
    assert (length xs = window) as Hlen.
    { apply (f_equal length) in Hwin.
      rewrite length_take, length_drop, length_fmap in Hwin. lia. }
    rewrite (compute_zscore_lookup series window i (Fin x) Hx).
    rewrite (window_at_finite series window i xs Hi Hwin).
    cbn [from_option]. unfold Analytics.std.
    destruct xs as [| a [| b rest]]; simpl in Hlen; try lia.
    rewrite mean_two_or_more, var_two_or_more.
    remember (a :: b :: rest) as l eqn:El.
    assert (length l = window) as -> by (rewrite El; simpl; lia).
    rewrite (Qsum_foldr l). fold n. fold m.
    rewrite (Qsum_foldr (_ <$> l)). fold v.
    cbn [fsub fadd fneg replace_zero_nan].
    destruct (Qeq_bool (sqrt v) 0) eqn:E.
    + by rewrite fdiv_nan_r.
    + cbn [fdiv]. by rewrite E.
  - intros i Hi Hcase.
    destruct (lookup_lt_is_Some_2 series i Hi) as [y Hy].
    rewrite (compute_zscore_lookup series window i y Hy).
    destruct Hcase as [Hw | [-> | (j & z & Hj & Hz & Hle & Hlt)]].
    + unfold window_at. apply Nat.ltb_lt in Hw. rewrite Hw. simpl.
      by rewrite fsub_nan.
    + unfold window_at. simpl.
      destruct (mapM is_finite (take 1 (drop (i - 0) series))) as [qs |] eqn:E;
        simpl; [| by rewrite fsub_nan].
      assert (length qs = 1%nat) as Hlen.
      { apply length_mapM in E. rewrite <- E, length_take, length_drop. lia. }
      destruct qs as [| q [| q' qs]]; try done. simpl.
      unfold Analytics.std. simpl. by rewrite fdiv_nan_r.
    + rewrite (window_at_not_finite series window i j z Hj Hz Hle Hlt).
      simpl. by rewrite fsub_nan.
  - intros c n i Hi.
    rewrite (compute_zscore_lookup _ window i c) by by apply lookup_replicate_2.
    destruct (constant_window c n window i) as [-> | ->].
    + by rewrite fsub_nan.
    + by rewrite fdiv_nan_r.
Qed.

End ZscoreFacts.

Lemma sample_sqrt_zero q : (q == 0)%Q -> (Sample.sqrt q == 0)%Q.
Proof.
  unfold Qeq, Sample.sqrt. simpl. intros H.
  assert (Qnum q = 0) as -> by lia. reflexivity.
Qed.

(** The series 1, 2, 3, 5 under a window of three: at the third
    position the window is 1, 2, 3, with mean 2 and deviation 1, and the
    z-score is 1. *)
Lemma compute_zscore_spec_witness :
  exists z,
    Analytics.compute_zscore Sample.sqrt
      [Np.Fin 1; Np.Fin 2; Np.Fin 3; Np.Fin 5] 3 !! 2%nat = Some z
    /\ Np.feq z (Np.Fin 1).
Proof.
  destruct (compute_zscore_spec Sample.sqrt sample_sqrt_zero
              [Np.Fin 1; Np.Fin 2; Np.Fin 3; Np.Fin 5] 3) as (_ & H & _).
  rewrite (H 2%nat [1; 2; 3]%Q 3%Q); [| lia | lia | reflexivity | reflexivity].
  eexists. split; [reflexivity |]. vm_compute. reflexivity.
Defined.

(** Two series that differ by the constant 5: the spread is 5 at every
    row and the z-score is NaN at every row. *)
Lemma offset_series_zscore :
  let a := (fun t => Analytics.mkPriceRow t (Np.Fin (100 + inject_Z t)))
             <$> [0; 1; 2; 3] in
  let b := (fun t => Analytics.mkPriceRow t (Np.Fin (105 + inject_Z t)))
             <$> [0; 1; 2; 3] in
  Analytics.compute_spread a b None = replicate 4 (Np.Fin 5)
  /\ Analytics.compute_zscore Sample.sqrt
       (Analytics.compute_spread a b None) 2 = replicate 4 Np.NaN.
Proof. split; reflexivity. Qed.


(** ** The aggregation loop *)

Section CycleFacts.
Import Py Pd Database Np Analytics Processor.

Variable isoformat : datetime -> string.
Variable resample_other : list TickData -> string -> result (list OhlcRow).
Variable F0 : faults.
Variable F : string -> faults.
Variable now : datetime.

#[local] Abbreviation resample_frame := (resample_frame resample_other).
#[local] Abbreviation save_bar := (save_bar isoformat F).
#[local] Abbreviation process_symbol :=
  (process_symbol isoformat resample_other F now).
#[local] Abbreviation for_symbols :=
  (for_symbols isoformat resample_other F now).
#[local] Abbreviation cycle := (cycle isoformat resample_other F0 F now).

(** The tick invariant on a database: every stored price and size is
    finite. *)
Definition finite_ticks (d : Database.t) : Prop :=
  forall id r, ticks d !! id = Some r -> is_Some (finite_row r).

Lemma get_ticks_stored Fq d sym s e rows r :
  get_ticks Fq d sym s e = inr rows -> r ∈ rows ->
  exists id, ticks d !! id = Some r.
Proof.
  unfold get_ticks. destruct (on_query Fq); simpl; [done |].
  intros [= <-]. rewrite sort_by_elem, !elem_of_bfilter.
  intros [[Hr _] _].
  assert (r ∈ (map_to_list (ticks d)).*2) as Hin.
  { destruct (String.eqb sym EmptyString); [done |].
    by apply elem_of_bfilter in Hr as [Hr _]. }
  apply list_elem_of_fmap in Hin as ([id r'] & -> & Hin).
  exists id. by apply elem_of_map_to_list.
Qed.

Lemma get_ticks_finite Fq d sym s e rows :
  finite_ticks d ->
  get_ticks Fq d sym s e = inr rows ->
  is_Some (finite_frame rows).
Proof.
  intros Hfin Hrows. unfold finite_frame. apply mapM_is_Some, Forall_forall.
  intros r Hr. destruct (get_ticks_stored _ _ _ _ _ _ _ Hrows Hr) as [id Hid].
  by apply (Hfin id).
Qed.

Lemma resample_frame_finite ticks timeframe rows :
  finite_frame ticks = Some rows ->
  resample_frame ticks timeframe = inr (of_bar <$> resample_data rows timeframe).
Proof. intros H. unfold Processor.resample_frame. by rewrite H. Qed.

(** Table [ticks] is only read. *)
Lemma insert_ohlc_ticks Fw d sym ts tf o h l c v :
  ticks (insert_ohlc isoformat Fw d sym ts tf o h l c v) = ticks d.
Proof. unfold insert_ohlc. by destruct (write_bar _ _ _). Qed.

Lemma foldl_save_bar_ticks tf sym bars : forall d,
  ticks (foldl (save_bar tf sym) d bars) = ticks d.
Proof.
  induction bars as [| bar bars IH]; intros d; simpl; [done |].
  rewrite IH. apply insert_ohlc_ticks.
Qed.

Lemma process_symbol_inv timeframe p sym p' :
  process_symbol timeframe p sym = inr p' ->
  ticks (db p') = ticks (db p) /\ running p' = running p.
Proof.
  unfold Processor.process_symbol.
  destruct (get_ticks _ _ _ _ _) as [e | [| r rows]]; simpl; try done.
  - by intros [= <-].
  - destruct (resample_frame _ _) as [e | bars]; simpl; [done |].
    intros [= <-]. simpl. split; [apply foldl_save_bar_ticks | done].
Qed.

(** On a database that keeps the tick invariant only a failing query
    makes the processing of a symbol raise; faults of the bar writes are
    absorbed by [insert_ohlc]. *)
Lemma process_symbol_returns timeframe p sym :
  finite_ticks (db p) ->
  on_query (F sym) = None ->
  exists p', process_symbol timeframe p sym = inr p'.
Proof.
  intros Hfin Hq. unfold Processor.process_symbol.
  destruct (get_ticks (F sym) (db p) sym (now - one_hour) now)
    as [e | rows] eqn:E.
  { unfold get_ticks in E. by rewrite Hq in E. }
  destruct (get_ticks_finite _ _ _ _ _ _ Hfin E) as [trades Ht].
  simpl. destruct rows as [| r rows]; [eauto |].
  rewrite (resample_frame_finite _ _ _ Ht). simpl. eauto.
Qed.

Lemma process_symbol_raises timeframe p sym e :
  on_query (F sym) = Some e ->
  process_symbol timeframe p sym = inl e.
Proof.
  intros Hq. unfold Processor.process_symbol, get_ticks. by rewrite Hq.
Qed.

Lemma for_symbols_app timeframe l1 l2 : forall p,
  for_symbols timeframe (l1 ++ l2) p
  = match for_symbols timeframe l1 p with
    | (p1, None) => for_symbols timeframe l2 p1
    | (p1, Some e) => (p1, Some e)
    end.
Proof.
  induction l1 as [| s l1 IH]; intros p; simpl; [done |].
  destruct (process_symbol timeframe p s) as [e | p']; [done |]. apply IH.
Qed.

Lemma for_symbols_returns timeframe syms : forall p,
  finite_ticks (db p) ->
  (forall x, x ∈ syms -> on_query (F x) = None) ->
  exists p', for_symbols timeframe syms p = (p', None).
Proof.
  induction syms as [| s syms IH]; intros p Hfin Hq; simpl; [eauto |].
  destruct (process_symbol_returns timeframe p s Hfin) as [p' Hp'].
  { apply Hq, list_elem_of_here. }
  rewrite Hp'. apply IH.
  - unfold finite_ticks.
    by rewrite (proj1 (process_symbol_inv _ _ _ _ Hp')).
  - intros x Hx. by apply Hq, list_elem_of_further.
Qed.

Lemma for_symbols_inv timeframe syms : forall p,
  ticks (db (for_symbols timeframe syms p).1) = ticks (db p)
  /\ running (for_symbols timeframe syms p).1 = running p.
Proof.
  induction syms as [| s syms IH]; intros p; simpl; [done |].
  destruct (process_symbol timeframe p s) as [e | p'] eqn:E; [done |].
  destruct (IH p') as [-> ->]. by eapply process_symbol_inv.
Qed.

(** C1, as the code has it.  On a database that keeps the tick
    invariant: when the query for a symbol raises during a cycle, the
    symbols before it have been processed, the error is caught and
    logged, the loop sleeps 5 instead of the cadence of the timeframe,
    and neither the failing symbol nor the symbols after it are
    processed in that cycle; the loop itself goes on with its next
    turn.  A cycle without a failing query processes every symbol and
    sleeps the cadence of its timeframe. *)
Theorem cycle_error_handling (timeframe : string) (p : Processor.t)
    (before : list string) (sym : string) (after : list string) (e : exn) :
  get_symbols F0 (db p) = inr (before ++ sym :: after) ->
  finite_ticks (db p) ->
  (forall x, x ∈ before -> on_query (F x) = None) ->
  on_query (F sym) = Some e ->
  (exists p1,
      for_symbols timeframe before p = (p1, None)
      /\ cycle timeframe p
         = sleep 5 (logging ERROR ("Error processing " +:+ timeframe +:+ ": "
                                     +:+ str_exn e) p1)
      /\ db (cycle timeframe p) = db p1
      /\ slept (cycle timeframe p) = slept p1 ++ [5]
      /\ running (cycle timeframe p) = running p
      /\ forall rest,
           running p = true ->
           process_timeframe isoformat resample_other timeframe
             ((F0, F, now) :: rest) p
           = process_timeframe isoformat resample_other timeframe rest
               (cycle timeframe p))
  /\ (forall p0 syms,
        get_symbols F0 (db p0) = inr syms ->
        finite_ticks (db p0) ->
        (forall x, x ∈ syms -> on_query (F x) = None) ->
        exists p', for_symbols timeframe syms p0 = (p', None)
                   /\ cycle timeframe p0 = sleep (wait_seconds timeframe) p').
Proof.
  intros Hsyms Hfin Hbefore Hsym. split.
  - destruct (for_symbols_returns timeframe before p Hfin Hbefore) as [p1 H1].
    exists p1. split; [done |].
    assert (cycle timeframe p
            = sleep 5 (logging ERROR ("Error processing " +:+ timeframe +:+ ": "
                                        +:+ str_exn e) p1)) as Hc.
    { unfold Processor.cycle. rewrite Hsyms, for_symbols_app, H1. simpl.
      by rewrite (process_symbol_raises timeframe p1 sym e Hsym). }
    rewrite Hc. repeat split.
    + simpl. pose proof (for_symbols_inv timeframe before p) as [_ Hr].
      by rewrite H1 in Hr.
    + intros rest Hrun. simpl. by rewrite Hrun, Hc.
  - intros p0 syms Hs Hfin0 Hq.
    destruct (for_symbols_returns timeframe syms p0 Hfin0 Hq) as [p' H'].
    exists p'. split; [done |].
    unfold Processor.cycle. by rewrite Hs, H'.
Qed.

End CycleFacts.

(** A store with one trade of each of two symbols. *)
Definition demo_db : Database.t :=
  Database.insert_ticks_batch Sample.isoformat Sample.float_str
    Database.no_faults Database.empty_db
    [Database.mkTick "ethusdt" 1000000 2000 1;
     Database.mkTick "btcusdt" 2000000 30000 2].

Definition demo_processor : Processor.t :=
  Processor.mkProcessor demo_db true [] [].

Lemma demo_db_finite : finite_ticks demo_db.
Proof.
  intros id r Hr.
  assert (r ∈ (map_to_list (Database.ticks demo_db)).*2) as Hin.
  { apply list_elem_of_fmap. exists (id, r). split; [done |].
    by apply elem_of_map_to_list. }
  vm_compute in Hin.
  repeat (apply elem_of_cons in Hin as [-> | Hin]; [by eexists |]).
  by apply elem_of_nil in Hin.
Qed.

(** Storage that refuses the tick query of one symbol only. *)
Definition query_down_for (sym : string) (s : string) : Database.faults :=
  if String.eqb s sym
  then Database.mkFaults (fun _ => None) None (Some Py.OperationalError)
  else Database.no_faults.

(** The query for the second symbol fails: the bar of the first one is
    written all the same, and the loop sleeps 5. *)
Lemma cycle_error_handling_witness :
  Processor.slept
    (Processor.cycle Sample.isoformat Sample.resample_other Database.no_faults
       (query_down_for "ethusdt") 3000000 "1s" demo_processor)
  = [5]
  /\ Database.ohlc
       (Processor.db
          (Processor.cycle Sample.isoformat Sample.resample_other
             Database.no_faults (query_down_for "ethusdt") 3000000 "1s"
             demo_processor))
     !! "btcusdt_1s_2000000"%string
     = Some (Database.mkOHLCData "btcusdt_1s_2000000" "btcusdt" 2000000 "1s"
               30000 30000 30000 30000 2).
Proof.
  destruct (cycle_error_handling Sample.isoformat Sample.resample_other
              Database.no_faults (query_down_for "ethusdt") 3000000 "1s"
              demo_processor ["btcusdt"%string] "ethusdt" []
              Py.OperationalError)
    as ((p1 & H1 & _ & Hd & Hs & _) & _).
  - reflexivity.
  - apply demo_db_finite.
  - intros x ->%list_elem_of_singleton. reflexivity.
  - reflexivity.
  - rewrite Hs, Hd. vm_compute in H1. injection H1 as <-.
    split; reflexivity.
Defined.

(** C1 as stated fails when the first symbol of the cycle is the one
    whose query raises.  The symbols come in ascending order, so
    [btcusdt] is handled first.  The second symbol, [ethusdt], has a
    trade in the window and nothing goes wrong for it, yet no bar is
    written for it in this cycle, whereas a cycle without the failure
    writes it. *)
Lemma failing_symbol_stops_cycle :
  Database.get_symbols Database.no_faults demo_db
  = inr ["btcusdt"; "ethusdt"]%string
  /\ Database.on_query (query_down_for "btcusdt" "ethusdt") = None
  /\ Database.ohlc
       (Processor.db
          (Processor.cycle Sample.isoformat Sample.resample_other
             Database.no_faults (query_down_for "btcusdt") 3000000 "1s"
             demo_processor)) = ∅
  /\ Processor.slept
       (Processor.cycle Sample.isoformat Sample.resample_other
          Database.no_faults (query_down_for "btcusdt") 3000000 "1s"
          demo_processor) = [5]
  /\ Database.ohlc
       (Processor.db
          (Processor.cycle Sample.isoformat Sample.resample_other
             Database.no_faults (fun _ => Database.no_faults) 3000000 "1s"
             demo_processor))
     !! "ethusdt_1s_1000000"%string
     = Some (Database.mkOHLCData "ethusdt_1s_1000000" "ethusdt" 1000000 "1s"
               2000 2000 2000 2000 1).
Proof. repeat split; vm_compute; reflexivity. Qed.

(** * Further properties of the code *)

(** ** Folding inserts into a table *)

Section FoldInsert.
Context {A V : Type} (key : A -> string) (val : A -> V).

(** One insert-or-replace, as [session.merge] does it. *)
Definition put (m : gmap string V) (a : A) : gmap string V :=
  <[key a := val a]> m.

(** The value that the last item with key [i] carries, if any. *)
Fixpoint latest (i : string) (l : list A) : option V :=
  match l with
  | [] => None
  | a :: l' =>
      match latest i l' with
      | Some v => Some v
      | None => if decide (key a = i) then Some (val a) else None
      end
  end.

Lemma lookup_foldl_put l : forall m i,
  foldl put m l !! i = match latest i l with
                       | Some v => Some v
                       | None => m !! i
                       end.
Proof.
  induction l as [| a l IH]; intros m i; simpl; [done |].
  rewrite IH. destruct (latest i l); [done |].
  unfold put. rewrite lookup_insert. by destruct (decide (key a = i)).
Qed.

Lemma foldl_put_twice l m : foldl put (foldl put m l) l = foldl put m l.
Proof.
  apply map_eq. intros i. rewrite !lookup_foldl_put.
  by destruct (latest i l).
Qed.

Lemma latest_elem i l v :
  latest i l = Some v -> exists a, a ∈ l /\ key a = i /\ val a = v.
Proof.
  induction l as [| a l IH]; simpl; [done |].
  destruct (latest i l) as [v' |].
  - intros [= <-]. destruct (IH eq_refl) as (a' & Ha' & Hk & Hv).
    exists a'. split; [by apply list_elem_of_further | done].
  - destruct (decide (key a = i)); [| done]. intros [= <-].
    exists a. split; [apply list_elem_of_here | done].
Qed.

Lemma latest_is_Some i l a : a ∈ l -> key a = i -> is_Some (latest i l).
Proof.
  induction l as [| b l IH]; [by intros ?%elem_of_nil |].
  intros [-> | Hin]%elem_of_cons Hk; simpl.
  - destruct (latest i l); [by eexists |].
    rewrite decide_True by done. by eexists.
  - destruct (IH Hin Hk) as [v ->]. by eexists.
Qed.

Lemma latest_None i l :
  latest i l = None -> forall a, a ∈ l -> key a <> i.
Proof.
  intros Hl a Ha Hk. destruct (latest_is_Some i l a Ha Hk) as [v Hv].
  congruence.
Qed.

End FoldInsert.

Lemma values_elem {V} (m : gmap string V) (r : V) :
  r ∈ (map_to_list m).*2 <-> exists i, m !! i = Some r.
Proof.
  rewrite list_elem_of_fmap. split.
  - intros ([i r'] & -> & Hin). exists i. by apply elem_of_map_to_list.
  - intros [i Hi]. exists (i, r). split; [done |].
    by apply elem_of_map_to_list.
Qed.

(** ** Storing and reading back ticks *)

Section TickStore.
Import Py Pd Database.

Variable isoformat : datetime -> string.
Variable float_str : Np.float -> string.

#[local] Abbreviation make_tick_id := (make_tick_id isoformat float_str).
#[local] Abbreviation make_tick_row := (make_tick_row isoformat float_str).
#[local] Abbreviation insert_ticks_batch :=
  (insert_ticks_batch isoformat float_str).
#[local] Abbreviation insert_tick := (insert_tick isoformat float_str).

(** Storage that lets every write through. *)
Definition writes_ok (F : faults) : Prop :=
  (forall id, on_merge F id = None) /\ on_commit F = None.

Lemma merge_ticks_ok F batch : forall pending,
  (forall id, on_merge F id = None) ->
  merge_ticks isoformat float_str F pending batch
  = inr (foldl (put make_tick_id make_tick_row) pending batch).
Proof.
  induction batch as [| tk rest IH]; intros pending Hm; simpl; [done |].
  unfold merge_tick. rewrite Hm. simpl. by apply IH.
Qed.

Lemma insert_ticks_batch_ok F d batch :
  writes_ok F ->
  insert_ticks_batch F d batch
  = mkDb (foldl (put make_tick_id make_tick_row) (ticks d) batch)
         (ohlc d) (log d).
Proof.
  intros [Hm Hc]. unfold Database.insert_ticks_batch, write_batch.
  rewrite merge_ticks_ok by done. simpl. unfold commit. by rewrite Hc.
Qed.

Lemma insert_tick_ok F d tk :
  writes_ok F ->
  insert_tick F d (symbol tk) (timestamp tk) (price tk) (size tk)
  = mkDb (put make_tick_id make_tick_row (ticks d) tk) (ohlc d) (log d).
Proof.
  intros [Hm Hc]. unfold Database.insert_tick, merge_tick, commit.
  rewrite Hm, Hc. by destruct tk.
Qed.

(** X1.  Ticks are stored under an id made of their content, so writing
    a batch that is already stored changes nothing, and a batch that
    repeats itself stores what the batch alone stores. *)
Theorem insert_ticks_batch_idempotent (F : faults) (d : Database.t)
    (batch : list Tick) :
  writes_ok F ->
  insert_ticks_batch F (insert_ticks_batch F d batch) batch
  = insert_ticks_batch F d batch
  /\ insert_ticks_batch F d (batch ++ batch) = insert_ticks_batch F d batch.
Proof.
  intros HF. rewrite !insert_ticks_batch_ok by done. simpl. split.
  - by rewrite foldl_put_twice.
  - by rewrite foldl_app, foldl_put_twice.
Qed.

(** X2.  When every write goes through, a batch insert stores exactly
    what inserting its ticks one by one with [insert_tick] stores. *)
Theorem insert_ticks_batch_as_single_inserts (F : faults) (d : Database.t)
    (batch : list Tick) :
  writes_ok F ->
  insert_ticks_batch F d batch
  = foldl (fun d' tk => insert_tick F d' (symbol tk) (timestamp tk)
                          (price tk) (size tk)) d batch.
Proof.
  intros HF. rewrite insert_ticks_batch_ok by done.
  revert d. induction batch as [| tk rest IH]; intros d; simpl.
  - by destruct d.
  - rewrite insert_tick_ok by done. by rewrite <- IH.
Qed.

(** What a successful batch leaves in the table: under the id of each of
    its ticks the row of the last tick of the batch with that id, and
    everything else as before. *)
Lemma insert_ticks_batch_lookup F d batch i :
  writes_ok F ->
  ticks (insert_ticks_batch F d batch) !! i
  = match latest make_tick_id make_tick_row i batch with
    | Some r => Some r
    | None => ticks d !! i
    end.
Proof.
  intros HF. rewrite insert_ticks_batch_ok by done. simpl.
  apply lookup_foldl_put.
Qed.

End TickStore.

Lemma no_faults_writes_ok : writes_ok Database.no_faults.
Proof. by split. Qed.

Lemma insert_ticks_batch_idempotent_witness :
  Database.insert_ticks_batch Sample.isoformat Sample.float_str
    Database.no_faults demo_db
    [Database.mkTick "ethusdt" 1000000 2000 1;
     Database.mkTick "btcusdt" 2000000 30000 2]
  = demo_db.
Proof.
  destruct (insert_ticks_batch_idempotent Sample.isoformat Sample.float_str
              Database.no_faults Database.empty_db
              [Database.mkTick "ethusdt" 1000000 2000 1;
               Database.mkTick "btcusdt" 2000000 30000 2]
              no_faults_writes_ok) as [H _].
  exact H.
Defined.

Lemma insert_ticks_batch_as_single_inserts_witness :
  demo_db
  = Database.insert_tick Sample.isoformat Sample.float_str Database.no_faults
      (Database.insert_tick Sample.isoformat Sample.float_str
         Database.no_faults Database.empty_db "ethusdt" 1000000 2000 1)
      "btcusdt" 2000000 30000 2.
Proof.
  exact (insert_ticks_batch_as_single_inserts Sample.isoformat
           Sample.float_str Database.no_faults Database.empty_db
           [Database.mkTick "ethusdt" 1000000 2000 1;
            Database.mkTick "btcusdt" 2000000 30000 2]
           no_faults_writes_ok).
Defined.

(** ** Queries *)

Section QueryFacts.
Import Py Pd Database.

Variable isoformat : datetime -> string.
Variable float_str : Np.float -> string.

#[local] Abbreviation insert_tick := (insert_tick isoformat float_str).
#[local] Abbreviation insert_ohlc := (insert_ohlc isoformat).

(** The stored ticks that a query for [sym] between [s] and [e] selects,
    in table order. *)
Definition matching_ticks (d : Database.t) (sym : string) (s e : datetime)
  : list TickData :=
  List.filter (fun r => tick_timestamp r <=? e)
    (List.filter (fun r => s <=? tick_timestamp r)
       (if String.eqb sym EmptyString then (map_to_list (ticks d)).*2
        else List.filter (fun r => String.eqb (tick_symbol r) sym)
                         (map_to_list (ticks d)).*2)).

Lemma matching_ticks_elem d sym s e r :
  r ∈ matching_ticks d sym s e
  <-> (exists id, ticks d !! id = Some r)
      /\ (sym = EmptyString \/ tick_symbol r = sym)
      /\ s <= tick_timestamp r <= e.
Proof.
  clear isoformat float_str.
  unfold matching_ticks. rewrite !elem_of_bfilter, Z.leb_le, Z.leb_le.
  destruct (String.eqb sym EmptyString) eqn:E.
  - apply String.eqb_eq in E. rewrite values_elem. tauto.
  - apply String.eqb_neq in E.
    rewrite elem_of_bfilter, values_elem, String.eqb_eq. tauto.
Qed.

Lemma get_ticks_ok F d sym s e :
  on_query F = None ->
  get_ticks F d sym s e = inr (sort_by tick_timestamp (matching_ticks d sym s e)).
Proof. intros Hq. unfold get_ticks. by rewrite Hq. Qed.

Lemma get_ticks_inv F d sym s e rows :
  get_ticks F d sym s e = inr rows ->
  on_query F = None
  /\ rows = sort_by tick_timestamp (matching_ticks d sym s e).
Proof.
  unfold get_ticks. destruct (on_query F); simpl; [done |].
  by intros [= <-].
Qed.

(** X3.  [get_ticks] raises what the query raises; otherwise it returns,
    in ascending time order, exactly the stored ticks of the symbol whose
    timestamp lies in the closed window.  An empty symbol selects the ticks
    of every symbol. *)
Theorem get_ticks_window (F : faults) (d : Database.t) (sym : string)
    (s e : datetime) :
  (forall err, on_query F = Some err -> get_ticks F d sym s e = inl err)
  /\ (on_query F = None ->
      exists rows,
        get_ticks F d sym s e = inr rows
        /\ StronglySorted (key_le tick_timestamp) rows
        /\ forall r, r ∈ rows
             <-> (exists id, ticks d !! id = Some r)
                 /\ (sym = EmptyString \/ tick_symbol r = sym)
                 /\ s <= tick_timestamp r <= e).
Proof.
  split.
  - intros err Hq. unfold get_ticks. by rewrite Hq.
  - intros Hq. eexists. split; [by apply get_ticks_ok |].
    split; [apply sort_by_sorted |].
    intros r. by rewrite sort_by_elem, matching_ticks_elem.
Qed.

Lemma insert_symbol_perm x l : insert_symbol x l ≡ₚ x :: l.
Proof.
  induction l as [| y l IH]; simpl; [done |].
  destruct (String.leb x y); [done |].
  by rewrite IH, Permutation_swap.
Qed.

Lemma sort_symbols_perm l : sort_symbols l ≡ₚ l.
Proof.
  induction l as [| x l IH]; simpl; [done |].
  by rewrite insert_symbol_perm, IH.
Qed.

(** The symbols of the stored ticks, as [get_symbols] lists them. *)
Definition stored_symbols (d : Database.t) : list string :=
  sort_symbols (remove_dups (tick_symbol <$> (map_to_list (ticks d)).*2)).

Lemma get_symbols_ok F d :
  on_query F = None -> get_symbols F d = inr (stored_symbols d).
Proof. intros Hq. unfold get_symbols. by rewrite Hq. Qed.

Lemma stored_symbol_elem d sym :
  sym ∈ stored_symbols d
  <-> exists id r, ticks d !! id = Some r /\ tick_symbol r = sym.
Proof.
  unfold stored_symbols.
  rewrite sort_symbols_perm, elem_of_remove_dups, list_elem_of_fmap. split.
  - intros (r & -> & [id Hid]%values_elem). eauto.
  - intros (id & r & Hid & <-). exists r. split; [done |].
    apply values_elem. eauto.
Qed.

(** X4.  [get_symbols] returns every symbol that has a stored tick, each
    exactly once, and nothing else. *)
Theorem get_symbols_distinct (F : faults) (d : Database.t) :
  on_query F = None ->
  exists syms,
    get_symbols F d = inr syms
    /\ NoDup syms
    /\ forall sym, sym ∈ syms
         <-> exists id r, ticks d !! id = Some r /\ tick_symbol r = sym.
Proof.
  intros Hq. rewrite get_symbols_ok by done. eexists.
  split; [done |]. split; [| apply stored_symbol_elem].
  unfold stored_symbols. rewrite sort_symbols_perm. apply NoDup_remove_dups.
Qed.

Lemma sorted_reverse {A} (R : A -> A -> Prop) (l : list A) :
  StronglySorted R l -> StronglySorted (flip R) (reverse l).
Proof.
  induction 1 as [| x l Hs IH Hx]; [constructor |].
  rewrite reverse_cons. apply StronglySorted_app_2.
  - intros y z Hy ->%list_elem_of_singleton.
    rewrite elem_of_reverse in Hy. unfold flip.
    rewrite Forall_forall in Hx. by apply Hx.
  - done.
  - repeat constructor.
Qed.

(** X5.  With a limit, [get_ticks] keeps the latest rows of the window:
    the rows it returns and the rows it leaves out make up the unlimited
    answer, no row left out is later than a row returned, the answer is
    in ascending time order, and it holds [limit] rows, or all of them if
    there are fewer or the limit is zero. *)
Theorem get_ticks_limit_latest (F : faults) (d : Database.t) (sym : string)
    (s e : datetime) (limit : nat) (all : list TickData) :
  get_ticks F d sym s e = inr all ->
  exists rows rest,
    get_ticks_limit F d sym s e limit = inr rows
    /\ StronglySorted (key_le tick_timestamp) rows
    /\ all ≡ₚ rows ++ rest
    /\ length rows = (if (limit =? 0)%nat then length all
                      else Nat.min limit (length all))
    /\ forall x y, x ∈ rows -> y ∈ rest ->
                   tick_timestamp y <= tick_timestamp x.
Proof.
  intros [Hq ->]%get_ticks_inv.
  set (all := sort_by tick_timestamp (matching_ticks d sym s e)).
  assert (get_ticks_limit F d sym s e limit
          = inr (sort_by tick_timestamp
                   (if (limit =? 0)%nat then reverse all
                    else take limit (reverse all)))) as ->.
  { unfold get_ticks_limit. by rewrite Hq. }
  assert (StronglySorted (flip (key_le tick_timestamp)) (reverse all)) as Hrev
    by apply sorted_reverse, sort_by_sorted.
  destruct (limit =? 0)%nat.
  - exists (sort_by tick_timestamp (reverse all)), [].
    split; [done |]. split; [apply sort_by_sorted |].
    rewrite app_nil_r. split; [| split].
    + by rewrite sort_by_perm, reverse_Permutation.
    + by rewrite sort_by_perm, length_reverse.
    + by intros x y _ ?%elem_of_nil.
  - exists (sort_by tick_timestamp (take limit (reverse all))),
           (drop limit (reverse all)).
    split; [done |]. split; [apply sort_by_sorted |]. split; [| split].
    + by rewrite sort_by_perm, take_drop, reverse_Permutation.
    + by rewrite sort_by_perm, length_take, length_reverse.
    + intros x y Hx Hy. apply sort_by_elem in Hx.
      rewrite <- (take_drop limit (reverse all)) in Hrev.
      apply (StronglySorted_app_1_elem_of _ _ _ x y Hrev Hx Hy).
Qed.

(** X6.  A tick written with [insert_tick] can be read back: the query
    for its symbol over any window that holds its timestamp returns its
    row, and its symbol is among the known symbols. *)
Theorem insert_tick_read_back (F F' : faults) (d : Database.t)
    (sym : string) (ts : datetime) (price size : Q) (s e : datetime) :
  writes_ok F -> on_query F' = None -> s <= ts <= e ->
  exists rows syms,
    get_ticks F' (insert_tick F d sym ts price size) sym s e = inr rows
    /\ make_tick_row isoformat float_str (mkTick sym ts price size) ∈ rows
    /\ get_symbols F' (insert_tick F d sym ts price size) = inr syms
    /\ sym ∈ syms.
Proof.
  intros HF Hq Hts.
  pose proof (insert_tick_ok isoformat float_str F d
                (mkTick sym ts price size) HF) as E. simpl in E.
  assert (ticks (insert_tick F d sym ts price size)
            !! make_tick_id isoformat float_str (mkTick sym ts price size)
          = Some (make_tick_row isoformat float_str (mkTick sym ts price size)))
    as Hstored.
  { rewrite E. simpl. unfold put. by rewrite lookup_insert_eq. }
  eexists (sort_by tick_timestamp
             (matching_ticks (insert_tick F d sym ts price size) sym s e)), _.
  split; [by apply get_ticks_ok |].
  split; [| split; [by apply get_symbols_ok |]].
  - apply sort_by_elem, matching_ticks_elem. split; [eauto |].
    split; [by right | done].
  - apply stored_symbol_elem. eauto.
Qed.

End QueryFacts.

Lemma insert_tick_read_back_witness :
  exists rows,
    Database.get_ticks Database.no_faults
      (Database.insert_tick Sample.isoformat Sample.float_str
         Database.no_faults Database.empty_db "btcusdt" 5 100 1)
      "btcusdt" 0 10 = inr rows
    /\ Database.mkTickData "btcusdt_5_100/1_1/1" "btcusdt" 5 100 1 ∈ rows.
Proof.
  destruct (insert_tick_read_back Sample.isoformat Sample.float_str
              Database.no_faults Database.no_faults Database.empty_db
              "btcusdt" 5 100 1 0 10 no_faults_writes_ok eq_refl)
    as (rows & syms & Hr & Hin & _).
  - lia.
  - exists rows. split; [exact Hr | exact Hin].
Defined.

Lemma get_symbols_distinct_witness :
  exists syms,
    Database.get_symbols Database.no_faults demo_db = inr syms
    /\ NoDup syms.
Proof.
  destruct (get_symbols_distinct Database.no_faults demo_db eq_refl)
    as (syms & Hs & Hn & _).
  exists syms. split; [exact Hs | exact Hn].
Defined.

Lemma get_ticks_limit_latest_witness :
  exists rows,
    Database.get_ticks_limit Database.no_faults demo_db EmptyString 0 3000000 1
    = inr rows
    /\ length rows = 1%nat.
Proof.
  destruct (get_ticks_limit_latest Database.no_faults demo_db EmptyString
              0 3000000 1
              (Pd.sort_by Database.tick_timestamp
                 (matching_ticks demo_db EmptyString 0 3000000)) eq_refl)
    as (rows & rest & Hr & _ & _ & Hl & _).
  exists rows. split; [exact Hr | exact Hl].
Defined.

(** ** Reading bars back *)

Section BarQueries.
Import Py Pd Database.

Variable isoformat : datetime -> string.

#[local] Abbreviation insert_ohlc := (insert_ohlc isoformat).
#[local] Abbreviation make_ohlc_id := (make_ohlc_id isoformat).
#[local] Abbreviation make_ohlc_row := (make_ohlc_row isoformat).

(** A filter on a string column that an empty string switches off. *)
Definition passes (wanted actual : string) : Prop :=
  wanted = EmptyString \/ actual = wanted.

Lemma get_ohlc_elem F d sym tf s e r :
  on_query F = None ->
  exists rows,
    get_ohlc F d (Some sym) (Some tf) (Some s) (Some e) = inr rows
    /\ StronglySorted (key_le ohlc_timestamp) rows
    /\ (r ∈ rows
        <-> (exists id, ohlc d !! id = Some r)
            /\ passes sym (ohlc_symbol r)
            /\ passes tf (ohlc_timeframe r)
            /\ s <= ohlc_timestamp r <= e).
Proof.
  clear isoformat.
  intros Hq. unfold get_ohlc, passes. rewrite Hq. simpl. eexists.
  split; [done |]. split; [apply sort_by_sorted |].
  rewrite sort_by_elem, !elem_of_bfilter, !Z.leb_le.
  destruct (String.eqb_spec sym EmptyString) as [E1 | E1];
    destruct (String.eqb_spec tf EmptyString) as [E2 | E2];
    rewrite ?elem_of_bfilter, values_elem, ?String.eqb_eq; tauto.
Qed.

(** X7.  A bar written with [insert_ohlc] can be read back: [get_ohlc]
    for its symbol and timeframe over any window that holds its timestamp
    returns it with the values just written; the answer is in ascending
    time order and holds only stored bars of that symbol and timeframe
    inside the window. *)
Theorem insert_ohlc_read_back (F F' : faults) (d : Database.t)
    (sym : string) (ts : datetime) (tf : string) (o h l c v : Q)
    (s e : datetime) :
  on_merge F (make_ohlc_id sym ts tf) = None ->
  on_commit F = None ->
  on_query F' = None ->
  s <= ts <= e ->
  exists rows,
    get_ohlc F' (insert_ohlc F d sym ts tf o h l c v)
      (Some sym) (Some tf) (Some s) (Some e) = inr rows
    /\ make_ohlc_row sym ts tf o h l c v ∈ rows
    /\ StronglySorted (key_le ohlc_timestamp) rows
    /\ forall r, r ∈ rows ->
         passes sym (ohlc_symbol r) /\ passes tf (ohlc_timeframe r)
         /\ s <= ohlc_timestamp r <= e.
Proof.
  intros Hm Hc Hq Hts.
  pose proof (insert_ohlc_stored isoformat F d sym ts tf o h l c v Hm Hc) as E.
  destruct (get_ohlc_elem F' (insert_ohlc F d sym ts tf o h l c v) sym tf s e
              (make_ohlc_row sym ts tf o h l c v) Hq)
    as (rows & Hr & Hs & Hin).
  exists rows. split; [done |]. split; [| split; [done |]].
  - apply Hin. split.
    + exists (make_ohlc_id sym ts tf). rewrite E. simpl.
      by rewrite lookup_insert_eq.
    + unfold passes. simpl. auto.
  - intros r Hrin.
    destruct (get_ohlc_elem F' (insert_ohlc F d sym ts tf o h l c v)
                sym tf s e r Hq) as (rows' & Hr' & _ & Hin').
    rewrite Hr in Hr'. injection Hr' as <-. apply Hin' in Hrin. tauto.
Qed.

End BarQueries.

Lemma insert_ohlc_read_back_witness :
  exists rows,
    Database.get_ohlc Database.no_faults
      (Database.insert_ohlc Sample.isoformat Database.no_faults
         Database.empty_db "btcusdt" 60000000 "1m" 100 101 99 100 3)
      (Some "btcusdt"%string) (Some "1m"%string) (Some 0) (Some 60000000)
    = inr rows
    /\ Database.mkOHLCData "btcusdt_1m_60000000" "btcusdt" 60000000 "1m"
         100 101 99 100 3 ∈ rows.
Proof.
  destruct (insert_ohlc_read_back Sample.isoformat Database.no_faults
              Database.no_faults Database.empty_db
              "btcusdt" 60000000 "1m" 100 101 99 100 3 0 60000000
              eq_refl eq_refl eq_refl)
    as (rows & Hr & Hin & _).
  - lia.
  - exists rows. split; [exact Hr | exact Hin].
Defined.

(** ** Frames, ticks and the buffer *)

Section FeedFacts.
Import Py Database Collector.

Variable str_lower : string -> string.
Variable float_of_string : string -> option Np.float.
Variable fromtimestamp : Np.float -> result datetime.

#[local] Abbreviation normalize :=
  (normalize str_lower float_of_string fromtimestamp).
#[local] Abbreviation handle_trade :=
  (handle_trade str_lower float_of_string fromtimestamp).
#[local] Abbreviation receive :=
  (receive str_lower float_of_string fromtimestamp).
#[local] Abbreviation try_connect :=
  (try_connect str_lower float_of_string fromtimestamp).
#[local] Abbreviation connect_symbol :=
  (connect_symbol str_lower float_of_string fromtimestamp).

#[local] Arguments Collector.try_connect : simpl never.
#[local] Arguments Collector.backoff : simpl never.

(** The tick, if any, that a frame contributes to the buffer. *)
Definition accepted (now : datetime) (msg : message) : option Tick :=
  match msg with
  | Json (VDict d) =>
      if is_trade (default VNone (assoc "e" d))
      then match normalize now (VDict d) with
           | inr tk => Some tk
           | inl _ => None
           end
      else None
  | _ => None
  end.

Lemma handle_trade_buffer now sym msg st :
  buffer (handle_trade now sym msg st)
  = buffer st ++ option_list (accepted now msg).
Proof.
  unfold Collector.handle_trade, handle_trade_body, accepted.
  destruct msg as [| v]; simpl; [by rewrite app_nil_r |].
  destruct v; simpl; try by rewrite app_nil_r.
  destruct (is_trade _); simpl; [| by rewrite app_nil_r].
  unfold mbind, result_bind.
  destruct (Collector.normalize _ _ _ _) as [e | tk]; simpl; [| done].
  destruct e; simpl; by rewrite app_nil_r.
Qed.


(** The frames delivered before the stop signal. *)
Fixpoint before_signal (frames : list inbound) : list (datetime * message) :=
  match frames with
  | Recv now msg :: rest => (now, msg) :: before_signal rest
  | _ => []
  end.

Lemma receive_stopped sym frames : forall st,
  running st = false ->
  buffer (receive sym frames st).1 = buffer st
  /\ log (receive sym frames st).1 = log st
  /\ running (receive sym frames st).1 = false.
Proof.
  induction frames as [| [now msg |] rest IH]; intros st Hrun; simpl.
  - done.
  - by rewrite Hrun.
  - by destruct (IH (set_running false st) eq_refl) as (-> & -> & ->).
Qed.

(** X9.  While a connection is open, the ticks of its frames are appended
    to the buffer in the order of arrival, behind what was buffered
    before, and frames that arrive after the stop signal are not handled
    at all: they leave no tick and no log line. *)
Theorem receive_in_order (sym : string) (frames : list inbound) (st : t) :
  running st = true ->
  buffer (receive sym frames st).1
  = buffer st ++ omap (fun '(now, msg) => accepted now msg)
                      (before_signal frames)
  /\ forall st0 : t, running st0 = false ->
       buffer (receive sym frames st0).1 = buffer st0
       /\ log (receive sym frames st0).1 = log st0.
Proof.
  intros Hrun. split.
  - revert st Hrun.
    induction frames as [| [now msg |] rest IH]; intros st Hrun; simpl.
    + by rewrite app_nil_r.
    + rewrite Hrun. simpl.
      destruct (handle_trade_frame str_lower float_of_string
          fromtimestamp now sym msg st)
        as (_ & _ & Hr & _).
      rewrite IH by by rewrite Hr.
      rewrite handle_trade_buffer, <- app_assoc. f_equal.
      by destruct (accepted now msg).
    + rewrite app_nil_r.
      by destruct (receive_stopped sym rest (set_running false st)).
  - intros st0 H0. destruct (receive_stopped sym frames st0 H0) as (? & ? & _).
    done.
Qed.

(** What a connection task leaves alone: buffered ticks stay where they
    are, and the database and the symbol list are not touched. *)
Definition appends_only (st st' : t) : Prop :=
  (exists new, buffer st' = buffer st ++ new)
  /\ db st' = db st /\ symbols st' = symbols st.

Lemma appends_only_refl st : appends_only st st.
Proof. split; [exists []; by rewrite app_nil_r | done]. Qed.

Lemma appends_only_trans st1 st2 st3 :
  appends_only st1 st2 -> appends_only st2 st3 -> appends_only st1 st3.
Proof.
  intros ([n1 H1] & Hd1 & Hs1) ([n2 H2] & Hd2 & Hs2). split.
  - exists (n1 ++ n2). by rewrite H2, H1, app_assoc.
  - split; congruence.
Qed.

Lemma handle_trade_appends_only now sym msg st :
  appends_only st (handle_trade now sym msg st).
Proof.
  split; [rewrite handle_trade_buffer; eauto |].
  unfold Collector.handle_trade, handle_trade_body.
  destruct (json_loads msg) as [e | data]; simpl; [by destruct e |].
  destruct (get data "e" VNone) as [e | ev]; simpl; [by destruct e |].
  destruct (is_trade ev); [| done]. unfold mbind, result_bind.
  destruct (Collector.normalize _ _ _ _) as [e | tk]; simpl;
    [by destruct e | done].
Qed.

Lemma receive_appends_only sym frames : forall st,
  appends_only st (receive sym frames st).1.
Proof.
  induction frames as [| [now msg |] rest IH]; intros st; simpl.
  - apply appends_only_refl.
  - destruct (running st); simpl; [| apply appends_only_refl].
    eapply appends_only_trans; [apply handle_trade_appends_only | apply IH].
  - apply (appends_only_trans st (set_running false st)); [| apply IH].
    split; [exists []; by rewrite app_nil_r | done].
Qed.

Lemma on_exception_appends_only sym e st :
  appends_only st (on_exception sym e st).1.
Proof. destruct e; (split; [exists []; by rewrite app_nil_r | done]). Qed.

Lemma try_connect_appends_only sym a st :
  appends_only st (try_connect sym a st).1.
Proof.
  unfold Collector.try_connect. destruct a as [e | frames ending].
  - apply (appends_only_trans st
             (logging INFO ("Connecting to " +:+ sym +:+ " stream...") st));
      [| apply on_exception_appends_only].
    split; [exists []; by rewrite app_nil_r | done].
  - pose proof (receive_appends_only sym frames
                  (on_connected sym
                     (logging INFO ("Connecting to " +:+ sym +:+ " stream...") st)))
      as Hr.
    destruct (Collector.receive _ _ _ _ _) as [st' broke]. simpl in Hr.
    assert (appends_only st st') as Hst.
    { eapply appends_only_trans; [| exact Hr].
      split; [exists []; by rewrite app_nil_r | done]. }
    destruct broke, ending as [e |]; simpl; try done.
    eapply appends_only_trans; [exact Hst | apply on_exception_appends_only].
Qed.

Lemma backoff_appends_only sym signal st st' :
  backoff sym signal st = inr st' -> appends_only st st'.
Proof.
  unfold backoff. destruct (reconnect_delays st !! sym); [| done].
  intros [= <-].
  destruct signal; (split; [exists []; by rewrite app_nil_r | done]).
Qed.

(** X10.  A connection task only ever appends to the buffer: whatever the
    script and whether or not the run ends with an exception of its own,
    the ticks buffered before are still there, in place, and neither the
    database nor the list of symbols has changed. *)
Theorem connect_symbol_appends_only (sym : string)
    (script : list (attempt * bool)) (st st' : t) :
  connect_symbol sym script st = inr st' ->
  (exists new, buffer st' = buffer st ++ new)
  /\ db st' = db st /\ symbols st' = symbols st.
Proof.
  revert st. induction script as [| [a signal] rest IH]; intros st; simpl.
  { intros [= <-]. apply appends_only_refl. }
  destruct (running st); simpl; [| intros [= <-]; apply appends_only_refl].
  pose proof (try_connect_appends_only sym a st) as H1.
  destruct (try_connect sym a st) as [st1 go_on]. simpl in H1.
  destruct go_on; simpl; [| by intros [= <-]].
  destruct (running st1).
  - destruct (backoff sym signal st1) as [e | st2] eqn:Hb; simpl; [done |].
    intros H. apply IH in H. apply backoff_appends_only in Hb.
    eapply appends_only_trans; [exact H1 |].
    eapply appends_only_trans; [exact Hb | exact H].
  - intros H. apply IH in H. eapply appends_only_trans; [exact H1 | exact H].
Qed.

(** X11.  An invalid address ends the task at once: there is no wait, the
    delay is left as it was, nothing is buffered, and the rest of the
    script is never played. *)
Theorem invalid_uri_is_final (sym : string) (signal : bool)
    (rest : list (attempt * bool)) (st : t) :
  running st = true ->
  exists st',
    connect_symbol sym ((Refused InvalidURI, signal) :: rest) st = inr st'
    /\ slept st' = slept st
    /\ reconnect_delays st' = reconnect_delays st
    /\ buffer st' = buffer st
    /\ running st' = true
    /\ log st' = log st ++ [(INFO, "Connecting to " +:+ sym +:+ " stream...");
                            (ERROR, "Invalid URI for " +:+ sym)].
Proof.
  intros Hrun. simpl. rewrite Hrun. simpl.
  unfold Collector.try_connect. simpl. eexists. split; [done |].
  simpl. by rewrite <- app_assoc.
Qed.

(** X12.  The stop signal ends the task cooperatively: if it arrives
    during the wait that follows an attempt, or if the task is already
    stopped, no further attempt of the script is made. *)
Theorem stop_signal_ends_task (sym : string) (a : attempt)
    (rest : list (attempt * bool)) (st : t) :
  connect_symbol sym ((a, true) :: rest) st
  = connect_symbol sym [(a, true)] st
  /\ (running st = false ->
      connect_symbol sym ((a, true) :: rest) st = inr st).
Proof.
  split.
  - simpl. destruct (running st); simpl; [| done].
    destruct (try_connect sym a st) as [st1 go_on].
    destruct go_on; simpl; [| done].
    destruct (running st1) eqn:Hr1.
    + destruct (reconnect_delays st1 !! sym) as [d |] eqn:Hd.
      * destruct (backoff_spec sym true st1 d Hd) as (st2 & -> & _ & _ & Hr2).
        simpl. destruct rest as [| [a' s'] rest']; [done |].
        simpl. by rewrite Hr2.
      * unfold backoff. by rewrite Hd.
    + destruct rest as [| [a' s'] rest']; [done |]. simpl. by rewrite Hr1.
  - intros Hrun. simpl. by rewrite Hrun.
Qed.

End FeedFacts.

Lemma receive_in_order_witness :
  Collector.buffer
    (Collector.receive Sample.lower Sample.float_of_string
        Sample.fromtimestamp "btcusdt"
       [Collector.Recv 0
          (Py.Json (Py.VDict [("e", Py.VStr "trade"); ("s", Py.VStr "BTCUSDT");
                              ("T", Py.VInt 1000); ("p", Py.VStr "100");
                              ("q", Py.VStr "1")]%string));
        Collector.Recv 0 Py.Garbled;
        Collector.Recv 0
          (Py.Json (Py.VDict [("e", Py.VStr "trade"); ("s", Py.VStr "BTCUSDT");
                              ("T", Py.VInt 2000); ("p", Py.VStr "101");
                              ("q", Py.VStr "2")]%string));
        Collector.Signal;
        Collector.Recv 0
          (Py.Json (Py.VDict [("e", Py.VStr "trade"); ("s", Py.VStr "BTCUSDT");
                              ("T", Py.VInt 3000); ("p", Py.VStr "102");
                              ("q", Py.VStr "3")]%string))]
       sample_collector).1
  = [Database.mkTick "btcusdt" 1000000 100 1;
     Database.mkTick "btcusdt" 2000000 101 2].
Proof.
  destruct (receive_in_order Sample.lower Sample.float_of_string
      Sample.fromtimestamp
              "btcusdt"
              [Collector.Recv 0
                 (Py.Json (Py.VDict [("e", Py.VStr "trade");
                                     ("s", Py.VStr "BTCUSDT");
                                     ("T", Py.VInt 1000); ("p", Py.VStr "100");
                                     ("q", Py.VStr "1")]%string));
               Collector.Recv 0 Py.Garbled;
               Collector.Recv 0
                 (Py.Json (Py.VDict [("e", Py.VStr "trade");
                                     ("s", Py.VStr "BTCUSDT");
                                     ("T", Py.VInt 2000); ("p", Py.VStr "101");
                                     ("q", Py.VStr "2")]%string));
               Collector.Signal;
               Collector.Recv 0
                 (Py.Json (Py.VDict [("e", Py.VStr "trade");
                                     ("s", Py.VStr "BTCUSDT");
                                     ("T", Py.VInt 3000); ("p", Py.VStr "102");
                                     ("q", Py.VStr "3")]%string))]
              sample_collector eq_refl) as [H _].
  rewrite H. reflexivity.
Defined.

(** One connection that delivers a trade and is then closed, with the
    stop signal arriving during the wait. *)
Definition sample_script : list (Collector.attempt * bool) :=
  [(Collector.Connected
      [Collector.Recv 0
         (Py.Json (Py.VDict [("e", Py.VStr "trade"); ("s", Py.VStr "BTCUSDT");
                             ("T", Py.VInt 1000); ("p", Py.VStr "100");
                             ("q", Py.VStr "1")]%string))]
      (Some Py.ConnectionClosed), true)].

Lemma connect_symbol_appends_only_witness :
  exists st',
    Collector.connect_symbol Sample.lower Sample.float_of_string
        Sample.fromtimestamp
      "btcusdt" sample_script sample_loaded = inr st'
    /\ Collector.buffer st'
       = [sample_tick; Database.mkTick "btcusdt" 1000000 100 1]
    /\ Collector.db st' = Database.empty_db.
Proof.
  destruct (Collector.connect_symbol Sample.lower Sample.float_of_string
              Sample.fromtimestamp "btcusdt" sample_script sample_loaded)
    as [e | st'] eqn:E.
  - vm_compute in E. discriminate.
  - exists st'. split; [reflexivity |].
    destruct (connect_symbol_appends_only Sample.lower Sample.float_of_string
                Sample.fromtimestamp "btcusdt" sample_script sample_loaded
                st' E) as (_ & Hd & _).
    split; [| exact Hd].
    vm_compute in E. injection E as <-. reflexivity.
Defined.

Lemma invalid_uri_is_final_witness :
  exists st',
    Collector.connect_symbol Sample.lower Sample.float_of_string
        Sample.fromtimestamp
      "btcusdt"
      [(Collector.Refused Py.InvalidURI, false);
       (Collector.Refused Py.OSError, false)] sample_collector = inr st'
    /\ Collector.slept st' = [].
Proof.
  destruct (invalid_uri_is_final Sample.lower Sample.float_of_string
      Sample.fromtimestamp
              "btcusdt" false [(Collector.Refused Py.OSError, false)]
              sample_collector eq_refl) as (st' & H & Hs & _).
  exists st'. split; [exact H | exact Hs].
Defined.

(** ** The fields of a normalised tick *)

Section NormalizeFacts.
Import Py Database Collector.

Variable str_lower : string -> string.
Variable float_of_string : string -> option Np.float.
Variable fromtimestamp : Np.float -> result datetime.

#[local] Abbreviation normalize :=
  (normalize str_lower float_of_string fromtimestamp).

(** A field as [data.get] reads it, [None] when the key is absent. *)
Definition field (k : string) (d : list (string * value)) : value :=
  default VNone (assoc k d).

(** The instant that a millisecond field stands for. *)
Definition instant_of (v : value) (ts : datetime) : Prop :=
  exists secs, div1000 v = inr secs /\ fromtimestamp secs = inr ts.

Lemma bind_inr {A B} (m : result A) (k : A -> result B) y :
  bind m k = inr y -> exists x, m = inr x /\ k x = inr y.
Proof. destruct m as [e | x]; simpl; [done | eauto]. Qed.

Ltac open_bind :=
  match goal with
  | H : bind _ _ = inr _ |- _ => apply bind_inr in H as (? & ? & ?)
  end.

Ltac run_normalize :=
  repeat match goal with
    | |- context [Py.bind ?m _] =>
        let E := fresh "E" in destruct m eqn:E; simpl; try discriminate
    end.

(** X13.  [normalize] takes the timestamp from the first of the fields
    "T", "E" and "t" that holds a true value, so that an absent field, a
    null and a zero are all passed over, and from the clock when none of
    the three does. *)
Theorem normalize_timestamp_order (now : datetime)
    (d : list (string * value)) (tk : Tick) :
  normalize now (VDict d) = inr tk ->
  (truthy (field "T" d) = true -> instant_of (field "T" d) (timestamp tk))
  /\ (truthy (field "T" d) = false -> truthy (field "E" d) = true ->
      instant_of (field "E" d) (timestamp tk))
  /\ (truthy (field "T" d) = false -> truthy (field "E" d) = false ->
      truthy (field "t" d) = true ->
      instant_of (field "t" d) (timestamp tk))
  /\ (truthy (field "T" d) = false -> truthy (field "E" d) = false ->
      truthy (field "t" d) = false -> timestamp tk = now).
Proof.
  unfold Collector.normalize, field, instant_of, mbind, result_bind. simpl.
  destruct (truthy (default VNone (assoc "T" d))) eqn:HT; simpl.
  - rewrite HT. run_normalize. intros [= <-]. simpl. open_bind.
    repeat split; try done. intros _. eauto.
  - destruct (truthy (default VNone (assoc "E" d))) eqn:HE; simpl.
    + rewrite HE. run_normalize. intros [= <-]. simpl. open_bind.
      repeat split; try done. intros _ _. eauto.
    + destruct (truthy (default VNone (assoc "t" d))) eqn:Ht; simpl.
      * run_normalize. intros [= <-]. simpl. open_bind.
        repeat split; try done. intros _ _ _. eauto.
      * run_normalize. intros [= <-]. simpl. repeat split; done.
Qed.

(** X14.  The symbol of a normalised tick is what [str.lower] makes of
    the "s" field, and of the empty string when the field is absent; a
    field that is not a string makes [normalize] raise. *)
Theorem normalize_symbol (now : datetime) (d : list (string * value)) :
  (forall tk, normalize now (VDict d) = inr tk ->
     (assoc "s" d = None -> symbol tk = str_lower EmptyString)
     /\ (forall s, assoc "s" d = Some (VStr s) -> symbol tk = str_lower s))
  /\ (forall v, assoc "s" d = Some v -> (forall s, v <> VStr s) ->
        exists e, normalize now (VDict d) = inl e).
Proof.
  unfold Collector.normalize, mbind, result_bind. simpl. split.
  - intros tk.
    destruct (if truthy (default VNone (assoc "T" d)) then _ else _)
      as [e | v0]; simpl; [done |].
    destruct (if truthy v0 then _ else _) as [e | ts]; simpl; [done |].
    destruct (lower_ str_lower (default (VStr EmptyString) (assoc "s" d)))
      as [e | sym] eqn:Es; simpl; [done |].
    run_normalize. intros [= <-]. simpl.
    destruct (assoc "s" d) as [v |]; simpl in Es.
    + destruct v; try done. injection Es as <-.
      split; [done |]. by intros s' [= <-].
    + injection Es as <-. split; done.
  - intros v Hv Hns. rewrite Hv. simpl.
    destruct (if truthy (default VNone (assoc "T" d)) then _ else _)
      as [e | v0]; simpl; [eauto |].
    destruct (if truthy v0 then _ else _) as [e | ts]; simpl; [eauto |].
    destruct v; simpl; eauto. by destruct (Hns s).
Qed.

End NormalizeFacts.

Lemma normalize_timestamp_order_witness :
  instant_of Sample.fromtimestamp (Py.VInt 2000) 2000000.
Proof.
  destruct (normalize_timestamp_order Sample.lower Sample.float_of_string
              Sample.fromtimestamp 7
              [("e", Py.VStr "trade"); ("T", Py.VInt 0);
               ("E", Py.VInt 2000); ("t", Py.VInt 3000)]%string
              (Database.mkTick EmptyString 2000000 0 0) eq_refl)
    as (_ & H & _).
  apply H; reflexivity.
Defined.

(** ** Configured symbols *)

Section InitFacts.
Import Py Database Collector.

Variable str_lower : string -> string.
Variable str_strip : string -> string.

#[local] Abbreviation init := (init str_lower str_strip).

(** The symbols that [__init__] keeps. *)
Definition kept_symbols (syms : list string) : list string :=
  (fun s => str_strip (str_lower s)) <$>
    List.filter (fun s => negb (String.eqb (str_strip s) EmptyString)) syms.

Lemma kept_symbols_elem syms sym :
  sym ∈ kept_symbols syms
  <-> exists s, s ∈ syms /\ str_strip s <> EmptyString
                /\ sym = str_strip (str_lower s).
Proof.
  unfold kept_symbols. rewrite list_elem_of_fmap. split.
  - intros (s & -> & Hs). apply elem_of_bfilter in Hs as [Hs Hne].
    exists s. split; [done |]. split; [| done].
    apply negb_true_iff in Hne. by apply String.eqb_neq.
  - intros (s & Hs & Hne & ->). exists s. split; [done |].
    apply elem_of_bfilter. split; [done |].
    apply negb_true_iff. by apply String.eqb_neq.
Qed.

Lemma kept_symbols_all syms :
  (forall s, s ∈ syms -> str_strip s <> EmptyString) ->
  kept_symbols syms = (fun s => str_strip (str_lower s)) <$> syms.
Proof.
  intros Hall. unfold kept_symbols. f_equal.
  induction syms as [| s syms IH]; [done |]. simpl.
  destruct (String.eqb_spec (str_strip s) EmptyString) as [Hs | _].
  - destruct (Hall s); [apply list_elem_of_here | done].
  - simpl. f_equal. apply IH. intros s' Hs'. apply Hall.
    by apply list_elem_of_further.
Qed.

(** X15.  [__init__] raises [ValueError] exactly when every given symbol
    is blank, that is, when [str.strip] leaves nothing of it.  Otherwise
    the collector starts stopped, with an empty buffer, and its symbols
    are the non-blank ones, lower-cased and then stripped (all of them,
    in the given order, when none is blank); each has the initial
    reconnect delay, and no other key has a delay. *)
Theorem init_symbols (syms : list string) (d : Database.t) :
  (init syms d = inl ValueError
   <-> forall s, s ∈ syms -> str_strip s = EmptyString)
  /\ forall st, init syms d = inr st ->
       running st = false /\ buffer st = [] /\ db st = d
       /\ (forall sym, sym ∈ symbols st
             <-> exists s, s ∈ syms /\ str_strip s <> EmptyString
                           /\ sym = str_strip (str_lower s))
       /\ ((forall s, s ∈ syms -> str_strip s <> EmptyString) ->
           symbols st = (fun s => str_strip (str_lower s)) <$> syms)
       /\ (forall sym, sym ∈ symbols st ->
             reconnect_delays st !! sym = Some INITIAL_RECONNECT_DELAY)
       /\ (forall sym, sym ∉ symbols st -> reconnect_delays st !! sym = None).
Proof.
  unfold Collector.init. fold (kept_symbols syms).
  pose proof (kept_symbols_elem syms) as Hk.
  pose proof (kept_symbols_all syms) as Hall.
  destruct (kept_symbols syms) as [| k kept] eqn:E.
  - split; [| done]. split; [| done]. intros _ s Hs.
    destruct (String.eqb_spec (str_strip s) EmptyString) as [| Hne];
      [done |].
    assert (str_strip (str_lower s) ∈ []) as Hin by (apply Hk; eauto).
    by apply elem_of_nil in Hin.
  - split.
    + split; [done |]. intros Hblank.
      assert (k ∈ k :: kept) as Hin by apply list_elem_of_here.
      apply Hk in Hin as (s & Hs & Hne & _). by destruct (Hne (Hblank s Hs)).
    + intros st [= <-]. cbn [running buffer db symbols reconnect_delays].
      split; [done |]. split; [done |]. split; [done |].
      split; [exact Hk |]. split; [exact Hall |]. split.
      * intros sym Hin. by apply (uniform_map_lookup (k :: kept)).
      * intros sym Hnot. apply not_elem_of_cons in Hnot as [Hne Hnot].
        rewrite lookup_insert_ne by done. apply not_elem_of_list_to_map_1.
        by rewrite <- list_fmap_compose, list_fmap_id.
Qed.

End InitFacts.

(** ** A flush scheduler with healthy storage *)

Section FlushStores.
Import Py Database Collector.

Variable isoformat : datetime -> string.
Variable float_str : Np.float -> string.

#[local] Abbreviation make_tick_id := (make_tick_id isoformat float_str).
#[local] Abbreviation make_tick_row := (make_tick_row isoformat float_str).
#[local] Abbreviation insert_ticks_batch :=
  (insert_ticks_batch isoformat float_str).
#[local] Abbreviation flush := (flush isoformat float_str).
#[local] Abbreviation save_buffer := (save_buffer isoformat float_str).

(** The table holds, under the id of [tk], the row of a tick with that
    id. *)
Definition stored (d : Database.t) (tk : Tick) : Prop :=
  exists tk', make_tick_id tk' = make_tick_id tk
              /\ ticks d !! make_tick_id tk = Some (make_tick_row tk').

Lemma insert_ticks_batch_stores F d batch tk :
  writes_ok F ->
  stored d tk \/ tk ∈ batch ->
  stored (insert_ticks_batch F d batch) tk.
Proof.
  intros HF Htk. unfold stored.
  rewrite (insert_ticks_batch_lookup isoformat float_str F d batch _ HF).
  destruct (latest make_tick_id make_tick_row (make_tick_id tk) batch)
    as [r |] eqn:El.
  - apply latest_elem in El as (tk' & _ & Hid & <-). eauto.
  - destruct Htk as [Hs | Hin]; [done |].
    by destruct (latest_None _ _ _ _ El tk Hin).
Qed.

Lemma flush_stores F st :
  writes_ok F ->
  exists st',
    flush F st = inr st'
    /\ buffer st' = [] /\ running st' = running st
    /\ forall tk, stored (db st) tk \/ tk ∈ buffer st -> stored (db st') tk.
Proof.
  intros HF. unfold Collector.flush. simpl.
  destruct (buffer st) as [| tk0 rest] eqn:Hb.
  - eexists. split; [done |]. simpl. repeat split; try done.
    intros tk [Hs | Hin]; [done | by apply elem_of_nil in Hin].
  - eexists. split; [done |]. simpl. repeat split; try done.
    intros tk Htk. by apply insert_ticks_batch_stores.
Qed.

Lemma save_buffer_stores script : forall st,
  running st = true ->
  Forall (fun turn => writes_ok turn.1) script ->
  exists st',
    save_buffer script st = inr st'
    /\ (script <> [] -> buffer st' = [])
    /\ forall tk,
         stored (db st) tk
         \/ (script <> [] /\ tk ∈ buffer st)
         \/ tk ∈ concat (snd <$> script) ->
         stored (db st') tk.
Proof.
  induction script as [| [F arrived] rest IH]; intros st Hrun Hok; simpl.
  - exists st. split; [done |]. split; [done |].
    intros tk [Hs | [[Hne _] | Hin]]; [done | done |].
    by apply elem_of_nil in Hin.
  - rewrite Hrun. simpl. apply Forall_cons in Hok as [HF Hok].
    destruct (flush_stores F (set_buffer (buffer st ++ arrived) st) HF)
      as (st1 & -> & Hb1 & Hr1 & Hs1).
    simpl in Hr1, Hs1. simpl.
    destruct (IH st1) as (st' & Hsave & Hb' & Hs'); [congruence | done |].
    exists st'. split; [done |]. split.
    + intros _. destruct rest as [| turn rest']; [| by apply Hb'].
      simpl in Hsave. by injection Hsave as <-.
    + intros tk Htk. apply Hs'.
      destruct Htk as [Hs | [[_ Hin] | Hin]].
      * left. apply Hs1. by left.
      * left. apply Hs1. right. apply elem_of_app. by left.
      * apply elem_of_app in Hin as [Hin | Hin]; [| by right; right].
        left. apply Hs1. right. apply elem_of_app. by right.
Qed.

(** X16.  With storage that lets every write through, the flush
    scheduler loses nothing: after any run of at least one turn the buffer
    is empty, and every tick that was buffered at the start or arrived
    during the run has a row under its id, as has every tick stored
    before. *)
Theorem save_buffer_persists (script : list (faults * list Tick)) (st : t) :
  running st = true ->
  script <> [] ->
  Forall (fun turn => writes_ok turn.1) script ->
  exists st',
    save_buffer script st = inr st'
    /\ buffer st' = []
    /\ forall tk,
         stored (db st) tk \/ tk ∈ buffer st \/ tk ∈ concat (snd <$> script) ->
         stored (db st') tk.
Proof.
  intros Hrun Hne Hok.
  destruct (save_buffer_stores script st Hrun Hok) as (st' & Hs & Hb & Hst).
  exists st'. split; [done |]. split; [by apply Hb |].
  intros tk [H | [H | H]]; apply Hst; auto.
Qed.

End FlushStores.

Lemma init_symbols_witness :
  exists st,
    Collector.init Sample.lower Sample.strip
        [" BTCUSDT "%string; EmptyString] Database.empty_db = inr st
    /\ Collector.symbols st = ["btcusdt"%string]
    /\ Collector.running st = false.
Proof.
  destruct (init_symbols Sample.lower Sample.strip
              [" BTCUSDT "%string; EmptyString] Database.empty_db)
    as (_ & H).
  destruct (H (Collector.set_running false sample_collector) eq_refl)
    as (Hr & _).
  eexists. split; [reflexivity |]. split; [reflexivity | exact Hr].
Defined.

Lemma save_buffer_persists_witness :
  exists st',
    Collector.save_buffer Sample.isoformat Sample.float_str
      [(Database.no_faults, [Database.mkTick "btcusdt" 1000000 100 1])]
      sample_loaded = inr st'
    /\ Collector.buffer st' = [].
Proof.
  destruct (save_buffer_persists Sample.isoformat Sample.float_str
              [(Database.no_faults, [Database.mkTick "btcusdt" 1000000 100 1])]
              sample_loaded eq_refl)
    as (st' & Hs & Hb & _).
  - discriminate.
  - repeat constructor.
  - exists st'. split; [exact Hs | exact Hb].
Defined.

(** ** More on resampled bars *)

Section BarFacts.
Import Py Pd Database Np Analytics.

Lemma width_pos f : 0 < width f.
Proof. by destruct f. Qed.

(** X17.  Every bar that [resample_data] returns, for whatever timeframe
    string, is well formed: its low is at most its open and its close,
    which are at most its high. *)
Theorem resample_data_bar_bounds (df : list TickRow) (timeframe : string)
    (bar : Bar) :
  bar ∈ resample_data df timeframe ->
  (bar_low bar <= bar_open bar)%Q /\ (bar_open bar <= bar_high bar)%Q
  /\ (bar_low bar <= bar_close bar)%Q /\ (bar_close bar <= bar_high bar)%Q
  /\ (bar_low bar <= bar_high bar)%Q.
Proof.
  intros Hbar.
  assert (df <> []) as Hne by (intros ->; by apply elem_of_nil in Hbar).
  rewrite (resample_data_bars df timeframe Hne) in Hbar.
  destruct (resample_bars_spec _ df
              (width_pos (dict_get freq_map timeframe Freq_1T)))
    as (_ & Hbars & _).
  destruct (Hbars bar Hbar) as (_ & _ & Hsum).
  destruct Hsum as ((ro & Hro & <- & _) & (rc & Hrc & <- & _)
                    & _ & Hhigh & _ & Hlow & _).
  repeat split; auto.
  eapply Qle_trans; [apply (Hlow ro Hro) | apply (Hhigh ro Hro)].
Qed.

(** X18.  When no two rows of the frame share a timestamp, the bars do
    not depend on the order in which the rows are given. *)
Theorem resample_data_row_order (df df' : list TickRow)
    (timeframe : string) :
  df ≡ₚ df' ->
  (forall x y, x ∈ df -> y ∈ df ->
     tr_timestamp x = tr_timestamp y -> x = y) ->
  resample_data df timeframe = resample_data df' timeframe.
Proof.
  intros Hp Hdistinct.
  assert (sort_by tr_timestamp df = sort_by tr_timestamp df') as Hs.
  { apply (StronglySorted_unique_strong (key_le tr_timestamp)).
    - intros x y Hx Hy Hxy Hyx.
      rewrite sort_by_elem in Hx. rewrite sort_by_elem, <- ?Hp in Hy.
      apply Hdistinct; try done. by apply Z.le_antisymm.
    - apply sort_by_sorted.
    - apply sort_by_sorted.
    - by rewrite !sort_by_perm. }
  unfold resample_data, resample.
  destruct df as [| r df], df' as [| r' df'].
  - done.
  - by apply Permutation_nil_l in Hp.
  - by apply Permutation_nil_r in Hp.
  - by rewrite Hs.
Qed.

End BarFacts.

Lemma resample_data_bar_bounds_witness :
  Qle (Analytics.bar_low (Analytics.mkBar 0 100 101 99 99 4))
      (Analytics.bar_high (Analytics.mkBar 0 100 101 99 99 4)).
Proof.
  destruct (resample_data_bar_bounds three_ticks "1m"
              (Analytics.mkBar 0 100 101 99 99 4)) as (_ & _ & _ & _ & H).
  - apply list_elem_of_here.
  - exact H.
Defined.

Lemma resample_data_row_order_witness :
  Analytics.resample_data three_ticks "1s"
  = Analytics.resample_data (reverse three_ticks) "1s".
Proof.
  apply resample_data_row_order.
  - symmetry. apply reverse_Permutation.
  - unfold three_ticks. intros x y Hx Hy.
    rewrite !elem_of_cons, elem_of_nil in Hx, Hy.
    destruct Hx as [-> | [-> | [-> | []]]], Hy as [-> | [-> | [-> | []]]];
      simpl; intros; (reflexivity || discriminate).
Defined.

(** ** More on the spread *)

Section SpreadEdges.
Import Py Pd Np Analytics.

Lemma truthy_zero h : feq h (Fin 0) -> truthy h = false.
Proof.
  destruct h as [q | | |]; simpl; try tauto.
  intros H. apply Qeq_bool_iff in H. by rewrite H.
Qed.

Lemma feq_sym x y : feq x y -> feq y x.
Proof. destruct x, y; simpl; try tauto. intros H. by symmetry. Qed.

(** X20.  A hedge ratio of zero is not used as a ratio: the test
    [if hedge_ratio:] takes it for an absent one, so the spread is the
    plain difference of the two prices, the same as for a ratio of one,
    rather than the second price alone. *)
Theorem compute_spread_zero_ratio (df1 df2 : list PriceRow) (h : float) :
  feq h (Fin 0) ->
  compute_spread df1 df2 (Some h) = compute_spread df1 df2 None
  /\ Forall2 feq (compute_spread df1 df2 (Some h))
                 (compute_spread df1 df2 (Some (Fin 1))).
Proof.
  intros Hh. apply truthy_zero in Hh.
  unfold compute_spread. rewrite Hh.
  destruct df1 as [| a df1]; [by split |].
  destruct df2 as [| b df2]; [by split |].
  split; [done |].
  change (truthy (Fin 1)) with true. cbv iota.
  apply Forall2_fmap, Forall_Forall2_diag, Forall_forall.
  intros [[ts p1] p2] _. apply fsub_feq, feq_sym, fmul_one.
Qed.

(** X21.  Where the second frame has exactly one row at the instant of
    a row of the first, the spread at that position is computed from
    these two rows. *)
Theorem compute_spread_exact_match (df1 df2 : list PriceRow)
    (hedge_ratio : option float) (i : nat) (a b : PriceRow) :
  (forall h, hedge_ratio = Some h -> truthy h = true) ->
  sort_by row_timestamp df1 !! i = Some a ->
  b ∈ df2 ->
  row_timestamp b = row_timestamp a ->
  (forall b', b' ∈ df2 -> row_timestamp b' = row_timestamp b -> b' = b) ->
  exists x,
    compute_spread df1 df2 hedge_ratio !! i = Some x
    /\ feq x (fsub (row_price b)
                   (fmul (default (Fin 1) hedge_ratio) (row_price a))).
Proof.
  intros Hh Ha Hb Hts Honly.
  assert (df1 <> []) as H1 by (intros ->; done).
  assert (df2 <> []) as H2 by (intros ->; by apply elem_of_nil in Hb).
  destruct (compute_spread_lookup df1 df2 hedge_ratio i H1 H2 Hh)
    as (combine & Hlook & Hcomb).
  rewrite Hlook, Ha. simpl. eexists. split; [done |].
  pose proof (asof_backward_spec df2 (row_timestamp a)) as Hspec.
  destruct (asof_backward _ _) as [m |].
  - destruct Hspec as (Hm & Hle & Hmax).
    assert (m = b) as ->.
    { apply Honly; [done |]. apply Z.le_antisymm.
      - by rewrite Hts.
      - apply Hmax; [done |]. rewrite Hts. apply Z.le_refl. }
    apply Hcomb.
  - specialize (Hspec b Hb). rewrite Hts in Hspec.
    by apply Z.lt_irrefl in Hspec.
Qed.

End SpreadEdges.

Lemma compute_spread_zero_ratio_witness :
  Analytics.compute_spread series_a series_b (Some (Np.Fin 0))
  = Analytics.compute_spread series_a series_b None.
Proof.
  apply (compute_spread_zero_ratio series_a series_b (Np.Fin 0)).
  reflexivity.
Defined.

(** ** More on the z-score *)

Section ZscoreEdges.
Import Py Np Analytics.
Variable sqrt : Q -> Q.

Lemma mapM_is_finite_nan (l : list float) :
  NaN ∈ l -> mapM is_finite l = None.
Proof.
  intros Hin. destruct (mapM is_finite l) as [qs |] eqn:E; [| done].
  apply mapM_Some in E.
  apply list_elem_of_lookup in Hin as [j Hj].
  destruct (Forall2_lookup_l _ _ _ _ _ E Hj) as (q & _ & Hq).
  done.
Qed.

Lemma window_at_nan series window i j :
  series !! j = Some NaN -> (j <= i)%nat -> (i < j + window)%nat ->
  window_at series window i = None.
Proof.
  intros Hj Hle Hlt. unfold window_at.
  destruct (S i <? window)%nat; [done |].
  apply mapM_is_finite_nan, list_elem_of_lookup.
  exists (j - (S i - window))%nat.
  rewrite lookup_take_lt by lia. rewrite lookup_drop.
  by replace (S i - window + (j - (S i - window)))%nat with j by lia.
Qed.

(** X22.  The first [window - 1] positions of the z-score are missing,
    and a missing observation makes the z-score missing at its own
    position and at the [window - 1] positions after it. *)
Theorem compute_zscore_missing (series : list float) (window i : nat) :
  (i < length series)%nat ->
  (S i < window)%nat
  \/ (exists j, series !! j = Some NaN /\ (j <= i)%nat /\ (i < j + window)%nat) ->
  compute_zscore sqrt series window !! i = Some NaN.
Proof.
  intros Hi Hcase.
  destruct (lookup_lt_is_Some_2 series i Hi) as [v Hv].
  rewrite (compute_zscore_lookup sqrt series window i v Hv).
  assert (window_at series window i = None) as ->.
  { destruct Hcase as [Hw | (j & Hj & Hle & Hlt)].
    - unfold window_at. apply Nat.ltb_lt in Hw. by rewrite Hw.
    - by apply (window_at_nan series window i j). }
  simpl. by rewrite fsub_nan.
Qed.

End ZscoreEdges.

Lemma compute_zscore_missing_witness :
  Analytics.compute_zscore Sample.sqrt
    [Np.Fin 1; Np.NaN; Np.Fin 3; Np.Fin 4] 2 !! 2%nat = Some Np.NaN.
Proof.
  apply compute_zscore_missing.
  - simpl. lia.
  - right. exists 1%nat. repeat split; [lia | simpl; lia].
Defined.

(** ** The processor and the two tables *)

Section ProcessorFacts.
Import Py Pd Database Np Analytics Processor.

Variable isoformat : datetime -> string.
Variable resample_other : list TickData -> string -> result (list OhlcRow).

#[local] Abbreviation resample_frame := (resample_frame resample_other).
#[local] Abbreviation save_bar := (save_bar isoformat).
#[local] Abbreviation process_symbol :=
  (process_symbol isoformat resample_other).
#[local] Abbreviation for_symbols := (for_symbols isoformat resample_other).
#[local] Abbreviation cycle := (cycle isoformat resample_other).
#[local] Abbreviation process_timeframe :=
  (process_timeframe isoformat resample_other).

(** *** Table [ticks] is only read *)

Lemma cycle_ticks F0 F now tf p :
  ticks (db (cycle F0 F now tf p)) = ticks (db p)
  /\ running (cycle F0 F now tf p) = running p.
Proof.
  unfold Processor.cycle.
  destruct (get_symbols F0 (db p)) as [e | syms]; [done |].
  pose proof (for_symbols_inv isoformat resample_other F now tf syms p)
    as [Ht Hr].
  destruct (for_symbols F now tf syms p) as [p' [e |]]; by simpl in *.
Qed.

(** X23.  However its turns go, [process_timeframe] leaves table
    [ticks] as it found it, and it never clears its own [running] flag:
    the loop ends only when something else stops it. *)
Theorem process_timeframe_keeps_ticks (timeframe : string)
    (script : list (faults * (string -> faults) * datetime))
    (p : Processor.t) :
  ticks (db (process_timeframe timeframe script p)) = ticks (db p)
  /\ running (process_timeframe timeframe script p) = running p.
Proof.
  revert p. induction script as [| [[F0 F] now] script IH]; intros p; [done |].
  simpl. destruct (running p) eqn:Hr; simpl; [| by rewrite Hr].
  destruct (IH (cycle F0 F now timeframe p)) as [-> ->].
  destruct (cycle_ticks F0 F now timeframe p) as [-> ->]. by rewrite Hr.
Qed.

(** *** What a pass writes *)

Definition row_id (sym tf : string) (row : OhlcRow) : string :=
  make_ohlc_id isoformat sym (o_timestamp row) tf.

Definition row_of (sym tf : string) (row : OhlcRow) : OHLCData :=
  make_ohlc_row isoformat sym (o_timestamp row) tf
    (o_open row) (o_high row) (o_low row) (o_close row) (o_volume row).

(** Id and stored row of a bar computed from a finite frame. *)
Definition bar_id (sym tf : string) (bar : Bar) : string :=
  row_id sym tf (of_bar bar).

Definition bar_row (sym tf : string) (bar : Bar) : OHLCData :=
  row_of sym tf (of_bar bar).

(** What the resampling step of a pass at clock reading [now] gives for
    a symbol: the rows to be written, or the exception. *)
Definition sym_rows (now : datetime) (tf : string) (d : Database.t)
    (sym : string) : result (list OhlcRow) :=
  match sort_by tick_timestamp (matching_ticks d sym (now - one_hour) now) with
  | [] => ret []
  | ticks => resample_frame ticks tf
  end.

Lemma matching_ticks_ext d d' sym s e :
  ticks d = ticks d' -> matching_ticks d sym s e = matching_ticks d' sym s e.
Proof. intros H. unfold matching_ticks. by rewrite H. Qed.

Lemma sym_rows_ext now tf d d' sym :
  ticks d = ticks d' -> sym_rows now tf d sym = sym_rows now tf d' sym.
Proof.
  intros H. unfold sym_rows. by rewrite (matching_ticks_ext d d').
Qed.

Lemma foldl_save_bar_ok F tf sym rows : forall d,
  writes_ok (F sym) ->
  foldl (save_bar F tf sym) d rows
  = mkDb (ticks d)
         (foldl (put (row_id sym tf) (row_of sym tf)) (ohlc d) rows)
         (Database.log d).
Proof.
  induction rows as [| row rows IH]; intros d [Hm Hc]; simpl.
  - by destruct d.
  - rewrite IH by done. unfold Processor.save_bar.
    by rewrite insert_ohlc_stored.
Qed.

Lemma process_symbol_ok F now tf p sym :
  writes_ok (F sym) -> on_query (F sym) = None ->
  match sym_rows now tf (db p) sym with
  | inl e => process_symbol F now tf p sym = inl e
  | inr rows =>
      exists p',
        process_symbol F now tf p sym = inr p'
        /\ db p'
           = mkDb (ticks (db p))
                  (foldl (put (row_id sym tf) (row_of sym tf)) (ohlc (db p))
                         rows)
                  (Database.log (db p))
  end.
Proof.
  intros HF Hq. unfold Processor.process_symbol, sym_rows.
  rewrite (get_ticks_ok _ _ _ _ _ Hq). simpl.
  destruct (sort_by _ _) as [| r rows] eqn:E.
  - eexists. split; [done |]. simpl. by destruct (db p).
  - destruct (resample_frame (r :: rows) tf) as [e | bars]; simpl; [done |].
    eexists. split; [done |]. simpl. by rewrite foldl_save_bar_ok.
Qed.

(** On a database that keeps the tick invariant the rows are the bars
    of [resample_data]. *)
Lemma sym_rows_finite Fq now tf d sym rows :
  finite_ticks d ->
  get_ticks Fq d sym (now - one_hour) now = inr rows ->
  exists trades,
    finite_frame rows = Some trades
    /\ sym_rows now tf d sym = inr (of_bar <$> resample_data trades tf).
Proof.
  intros Hfin Hrows.
  destruct (get_ticks_finite _ _ _ _ _ _ Hfin Hrows) as [trades Ht].
  exists trades. split; [done |].
  apply get_ticks_inv in Hrows as [_ Hrows]. unfold sym_rows.
  rewrite <- Hrows. destruct rows as [| r rows].
  - by injection Ht as <-.
  - by apply resample_frame_finite.
Qed.

Lemma bar_id_inj sym tf bars bar bar' :
  Inj (=) (=) isoformat ->
  StronglySorted Z.lt (bar_timestamp <$> bars) ->
  bar ∈ bars -> bar' ∈ bars ->
  bar_id sym tf bar' = bar_id sym tf bar -> bar' = bar.
Proof.
  intros Hinj Hs Hb Hb' Hid.
  unfold bar_id, row_id, Database.make_ohlc_id in Hid. simpl in Hid.
  repeat apply (inj (String.append _)) in Hid.
  apply Hinj in Hid. by apply (sorted_fmap_inj bar_timestamp bars).
Qed.

Lemma resample_data_timestamps df tf :
  StronglySorted Z.lt (bar_timestamp <$> resample_data df tf).
Proof.
  destruct df as [| r df]; [constructor |].
  rewrite resample_data_bars by done.
  apply resample_bars_spec, width_pos.
Qed.

Lemma stored_bar_lookup sym tf bars m bar :
  Inj (=) (=) isoformat ->
  StronglySorted Z.lt (bar_timestamp <$> bars) ->
  bar ∈ bars ->
  foldl (put (row_id sym tf) (row_of sym tf)) m (of_bar <$> bars)
    !! bar_id sym tf bar
  = Some (bar_row sym tf bar).
Proof.
  intros Hinj Hs Hbar. rewrite foldl_fmap.
  change (foldl (put (bar_id sym tf) (bar_row sym tf)) m bars
            !! bar_id sym tf bar = Some (bar_row sym tf bar)).
  rewrite lookup_foldl_put.
  destruct (latest _ _ _ _) as [v |] eqn:El.
  - apply latest_elem in El as (bar' & Hbar' & Hk & <-).
    f_equal. f_equal. by apply (bar_id_inj sym tf bars).
  - by destruct (latest_None _ _ _ _ El bar Hbar).
Qed.



(** X30.  What the processor writes is what the dashboard reads: on a
    database that keeps the tick invariant, after a pass over a symbol
    with storage that lets everything through, [get_ohlc] for that
    symbol and timeframe returns the row of every bar computed in the
    pass whose start lies in the window asked for. *)
Theorem processed_bars_are_served (F : string -> faults) (F' : faults)
    (now : datetime) (timeframe : string) (p : Processor.t) (sym : string)
    (s e : datetime) :
  Inj (=) (=) isoformat ->
  writes_ok (F sym) -> on_query (F sym) = None -> on_query F' = None ->
  finite_ticks (db p) ->
  exists p' rows trades served,
    process_symbol F now timeframe p sym = inr p'
    /\ get_ticks (F sym) (db p) sym (now - one_hour) now = inr rows
    /\ finite_frame rows = Some trades
    /\ get_ohlc F' (db p') (Some sym) (Some timeframe) (Some s) (Some e)
       = inr served
    /\ forall bar, bar ∈ resample_data trades timeframe ->
         s <= bar_timestamp bar <= e ->
         bar_row sym timeframe bar ∈ served.
Proof.
  intros Hinj HF Hq Hq' Hfin.
  pose proof (get_ticks_ok (F sym) (db p) sym (now - one_hour) now Hq) as Hrows.
  destruct (sym_rows_finite _ now timeframe _ _ _ Hfin Hrows)
    as (trades & Ht & Hsym).
  pose proof (process_symbol_ok F now timeframe p sym HF Hq) as Hok.
  rewrite Hsym in Hok. destruct Hok as (p' & Hp' & Hdb).
  assert (exists served,
            get_ohlc F' (db p') (Some sym) (Some timeframe) (Some s) (Some e)
            = inr served) as [served Hserved].
  { unfold get_ohlc. rewrite Hq'. simpl. eauto. }
  eexists p', _, trades, served.
  split; [done |]. split; [done |]. split; [done |]. split; [done |].
  intros bar Hbar Hts.
  destruct (get_ohlc_elem F' (db p') sym timeframe s e
              (bar_row sym timeframe bar) Hq') as (served' & Hs' & _ & Hin).
  rewrite Hserved in Hs'. injection Hs' as <-. apply Hin.
  split; [| by unfold passes; simpl; auto].
  exists (bar_id sym timeframe bar). rewrite Hdb. simpl.
  apply stored_bar_lookup; try done. apply resample_data_timestamps.
Qed.

(** *** A pass repeated *)

Definition pair_id (tf : string) (sr : string * OhlcRow) : string :=
  row_id sr.1 tf sr.2.

Definition pair_row (tf : string) (sr : string * OhlcRow) : OHLCData :=
  row_of sr.1 tf sr.2.

(** All the rows that a pass writes, symbol by symbol, up to the first
    symbol whose resampling raises, and that exception. *)
Fixpoint pass_rows (now : datetime) (tf : string) (d : Database.t)
    (syms : list string) : list (string * OhlcRow) * option exn :=
  match syms with
  | [] => ([], None)
  | sym :: rest =>
      match sym_rows now tf d sym with
      | inl e => ([], Some e)
      | inr rows =>
          let '(more, err) := pass_rows now tf d rest in
          ((pair sym <$> rows) ++ more, err)
      end
  end.

Lemma pass_rows_ext now tf d d' syms :
  ticks d = ticks d' -> pass_rows now tf d syms = pass_rows now tf d' syms.
Proof.
  intros H. induction syms as [| s syms IH]; [done |].
  simpl. by rewrite IH, (sym_rows_ext now tf d d').
Qed.

Lemma for_symbols_ok F now tf syms : forall p,
  (forall sym, sym ∈ syms -> writes_ok (F sym) /\ on_query (F sym) = None) ->
  exists p',
    for_symbols F now tf syms p = (p', (pass_rows now tf (db p) syms).2)
    /\ db p'
       = mkDb (ticks (db p))
              (foldl (put (pair_id tf) (pair_row tf)) (ohlc (db p))
                     (pass_rows now tf (db p) syms).1)
              (Database.log (db p)).
Proof.
  induction syms as [| s syms IH]; intros p Hok.
  - exists p. split; [done |]. simpl. by destruct (db p).
  - destruct (Hok s) as [HF Hq]; [apply list_elem_of_here |].
    pose proof (process_symbol_ok F now tf p s HF Hq) as H1.
    cbn [pass_rows Processor.for_symbols].
    destruct (sym_rows now tf (db p) s) as [e | rows].
    + rewrite H1. exists p. split; [done |]. simpl. by destruct (db p).
    + destruct H1 as (p1 & Hp1 & Hdb1). rewrite Hp1.
      destruct (IH p1) as (p' & Hp' & Hdb').
      { intros sym Hsym. by apply Hok, list_elem_of_further. }
      rewrite (pass_rows_ext now tf (db p1) (db p)) in Hp', Hdb'
        by (by rewrite Hdb1).
      destruct (pass_rows now tf (db p) syms) as [more err].
      exists p'. split; [done |].
      rewrite Hdb', Hdb1. cbn [ticks ohlc Database.log fst].
      by rewrite foldl_app, foldl_fmap.
Qed.

Lemma cycle_db F0 F now tf p :
  on_query F0 = None ->
  (forall sym, writes_ok (F sym) /\ on_query (F sym) = None) ->
  db (cycle F0 F now tf p)
  = mkDb (ticks (db p))
         (foldl (put (pair_id tf) (pair_row tf)) (ohlc (db p))
                (pass_rows now tf (db p) (stored_symbols (db p))).1)
         (Database.log (db p)).
Proof.
  intros Hq0 Hok. unfold Processor.cycle. rewrite get_symbols_ok by done.
  destruct (for_symbols_ok F now tf (stored_symbols (db p)) p)
    as (p' & Hp' & Hdb); [intros sym _; apply Hok |].
  rewrite Hp'. by destruct (pass_rows _ _ _ _).2.
Qed.

(** X25.  With storage that lets everything through, a second pass at
    the same clock reading changes neither table: it writes the rows
    of the first pass over themselves. *)
Theorem cycle_repeated (F0 : faults) (F : string -> faults) (now : datetime)
    (timeframe : string) (p : Processor.t) :
  on_query F0 = None ->
  (forall sym, writes_ok (F sym) /\ on_query (F sym) = None) ->
  db (cycle F0 F now timeframe (cycle F0 F now timeframe p))
  = db (cycle F0 F now timeframe p).
Proof.
  intros Hq0 Hok.
  rewrite (cycle_db F0 F now timeframe (cycle F0 F now timeframe p))
    by done.
  rewrite (cycle_db F0 F now timeframe p) by done.
  cbn [ticks ohlc Database.log].
  assert (stored_symbols (mkDb (ticks (db p))
            (foldl (put (pair_id timeframe) (pair_row timeframe)) (ohlc (db p))
               (pass_rows now timeframe (db p) (stored_symbols (db p))).1)
            (Database.log (db p)))
          = stored_symbols (db p)) as -> by done.
  rewrite (pass_rows_ext now timeframe (mkDb _ _ _) (db p)) by done.
  by rewrite foldl_put_twice.
Qed.

End ProcessorFacts.

Lemma process_timeframe_keeps_ticks_witness :
  Database.ticks
    (Processor.db
       (Processor.process_timeframe Sample.isoformat Sample.resample_other "1s"
          [(Database.no_faults, query_down_for "btcusdt", 3000000)]
          demo_processor))
  = Database.ticks demo_db.
Proof.
  apply (process_timeframe_keeps_ticks Sample.isoformat Sample.resample_other
           "1s" [(Database.no_faults, query_down_for "btcusdt", 3000000)]
           demo_processor).
Defined.


Lemma processed_bars_are_served_witness :
  exists p' served,
    Processor.process_symbol Sample.isoformat Sample.resample_other
      (fun _ => Database.no_faults) 3000000 "1s" demo_processor "ethusdt"
    = inr p'
    /\ Database.get_ohlc Database.no_faults (Processor.db p')
         (Some "ethusdt"%string) (Some "1s"%string) (Some 0) (Some 3000000)
       = inr served
    /\ bar_row Sample.isoformat "ethusdt" "1s"
         (Analytics.mkBar 1000000 2000 2000 2000 2000 1) ∈ served.
Proof.
  destruct (processed_bars_are_served Sample.isoformat Sample.resample_other
              (fun _ => Database.no_faults) Database.no_faults 3000000 "1s"
              demo_processor "ethusdt" 0 3000000)
    as (p' & rows & trades & served & Hp' & Hrows & Ht & Hserved & Hbars).
  - apply pretty_Z_inj.
  - apply no_faults_writes_ok.
  - reflexivity.
  - reflexivity.
  - apply demo_db_finite.
  - exists p', served. split; [exact Hp' |]. split; [exact Hserved |].
    vm_compute in Hrows. injection Hrows as <-.
    vm_compute in Ht. injection Ht as <-.
    apply Hbars; [apply list_elem_of_here | simpl; lia].
Defined.

Lemma cycle_repeated_witness :
  Processor.db
    (Processor.cycle Sample.isoformat Sample.resample_other Database.no_faults
       (fun _ => Database.no_faults) 3000000 "1s"
       (Processor.cycle Sample.isoformat Sample.resample_other
          Database.no_faults (fun _ => Database.no_faults) 3000000 "1s"
          demo_processor))
  = Processor.db
      (Processor.cycle Sample.isoformat Sample.resample_other
         Database.no_faults (fun _ => Database.no_faults) 3000000 "1s"
         demo_processor).
Proof.
  apply cycle_repeated.
  - reflexivity.
  - intros sym. split; [apply no_faults_writes_ok | reflexivity].
Defined.

(** ** The regression *)

Section RegressionFacts.
Import Py Np Analytics.

Variable HUBER_AVAILABLE : bool.
Variable HuberRegressor_fit : list float -> list float -> result huber_model.
Variable OLS_fit : list float -> list float -> result ols_model.
Variable series_mean series_std : list float -> float.

Lemma filter_length_le {A} (P : A -> bool) (l : list A) :
  (length (List.filter P l) <= length l)%nat.
Proof.
  induction l as [| a l IH]; simpl; [lia |]. destruct (P a); simpl; lia.
Qed.

Lemma filter_length_all {A} (P : A -> bool) (l : list A) :
  length (List.filter P l) = length l <-> Forall (fun a => P a = true) l.
Proof.
  induction l as [| a l IH]; simpl.
  - split; [constructor | done].
  - pose proof (filter_length_le P l) as Hle.
    destruct (P a) eqn:E; simpl.
    + rewrite Forall_cons. split.
      * intros [= H]. split; [done | by apply IH].
      * intros [_ H]. f_equal. by apply IH.
    + split; [lia |]. intros [H _]%Forall_cons. congruence.
Qed.

(** X26.  Without [sklearn], a robust regression is the standard one:
    the request for it changes nothing in the result. *)
Theorem compute_ols_regression_fallback (x y : list float) :
  HUBER_AVAILABLE = false ->
  compute_ols_regression HUBER_AVAILABLE HuberRegressor_fit OLS_fit
    series_mean series_std x y true
  = compute_ols_regression HUBER_AVAILABLE HuberRegressor_fit OLS_fit
      series_mean series_std x y false.
Proof. intros ->. reflexivity. Qed.

(** X27.  A regression that comes back with a result was run on series
    of one length; its [n_observations] counts the positions where both
    hold a value, is at least 2, and is the full length exactly when
    nothing is missing; [r_squared], [pvalue] and [std_err] are all
    absent after a Huber fit and all present otherwise. *)
Theorem compute_ols_regression_result (x y : list float) (robust : bool)
    (r : regression) :
  compute_ols_regression HUBER_AVAILABLE HuberRegressor_fit OLS_fit
    series_mean series_std x y robust = OlsResult r ->
  length x = length y
  /\ n_observations r
     = length (List.filter (fun xy => match xy with
                                      | (NaN, _) | (_, NaN) => false
                                      | _ => true
                                      end) (zip x y))
  /\ (2 <= n_observations r <= length x)%nat
  /\ (n_observations r = length x
      <-> Forall (fun xy => isna xy.1 = false /\ isna xy.2 = false) (zip x y))
  /\ (if robust && HUBER_AVAILABLE
      then r_squared r = None /\ pvalue r = None /\ std_err r = None
      else is_Some (r_squared r) /\ is_Some (pvalue r) /\ is_Some (std_err r)).
Proof.
  unfold compute_ols_regression.
  destruct (length x <? 2)%nat eqn:Ex; [done |].
  destruct (length y <? 2)%nat eqn:Ey; [done |].
  destruct (length x =? length y)%nat eqn:Exy; [| done].
  apply Nat.eqb_eq in Exy. simpl.
  set (clean := List.filter both_present (zip x y)).
  destruct (length clean.*1 <? 2)%nat eqn:Ec; [done |].
  apply Nat.ltb_ge in Ec.
  assert (length (zip x y) = length x) as Hzip
    by (rewrite length_zip; lia).
  assert (length clean.*1 = length x
          <-> Forall (fun xy => isna xy.1 = false /\ isna xy.2 = false)
                     (zip x y)) as Hall.
  { rewrite length_fmap. unfold clean. rewrite <- Hzip, filter_length_all.
    apply Forall_proper; [| done]. intros [a b]. unfold both_present. simpl.
    rewrite negb_true_iff, orb_false_iff. tauto. }
  assert (length clean.*1 <= length x)%nat as Hle.
  { rewrite length_fmap, <- Hzip. apply filter_length_le. }
  intros Hres.
  assert (n_observations r = length clean.*1
          /\ (if robust && HUBER_AVAILABLE
              then r_squared r = None /\ pvalue r = None /\ std_err r = None
              else is_Some (r_squared r) /\ is_Some (pvalue r)
                   /\ is_Some (std_err r))) as [Hn Hkeys].
  { destruct robust, HUBER_AVAILABLE; simpl in Hres |- *.
    - destruct (HuberRegressor_fit _ _) as [e | reg]; [done |].
      simpl in Hres. by injection Hres as <-.
    - destruct (OLS_fit _ _) as [e | model]; [done |].
      simpl in Hres. injection Hres as <-. simpl. eauto.
    - destruct (OLS_fit _ _) as [e | model]; [done |].
      simpl in Hres. injection Hres as <-. simpl. eauto.
    - destruct (OLS_fit _ _) as [e | model]; [done |].
      simpl in Hres. injection Hres as <-. simpl. eauto. }
  rewrite Hn. split; [done |]. split.
  { rewrite length_fmap. unfold clean. f_equal. apply List.filter_ext.
    by intros [[] []]. }
  repeat split; try done; try lia; apply Hall.
Qed.

End RegressionFacts.

Lemma compute_ols_regression_fallback_witness :
  Analytics.compute_ols_regression false Sample.HuberRegressor_fit
    Sample.OLS_fit Sample.series_mean Sample.series_std
    [Np.Fin 1; Np.NaN; Np.Fin 2] [Np.Fin 2; Np.Fin 3; Np.Fin 4] true
  = Analytics.compute_ols_regression false Sample.HuberRegressor_fit
      Sample.OLS_fit Sample.series_mean Sample.series_std
      [Np.Fin 1; Np.NaN; Np.Fin 2] [Np.Fin 2; Np.Fin 3; Np.Fin 4] false.
Proof. by apply compute_ols_regression_fallback. Defined.

Lemma compute_ols_regression_result_witness :
  exists r,
    Analytics.compute_ols_regression true Sample.HuberRegressor_fit
      Sample.OLS_fit Sample.series_mean Sample.series_std
      [Np.Fin 1; Np.NaN; Np.Fin 2] [Np.Fin 2; Np.Fin 3; Np.Fin 4] true
    = Analytics.OlsResult r
    /\ Analytics.n_observations r = 2%nat
    /\ Analytics.r_squared r = None.
Proof.
  eexists. split; [reflexivity |].
  destruct (compute_ols_regression_result true Sample.HuberRegressor_fit
              Sample.OLS_fit Sample.series_mean Sample.series_std
              [Np.Fin 1; Np.NaN; Np.Fin 2] [Np.Fin 2; Np.Fin 3; Np.Fin 4]
              true _ eq_refl) as (_ & Hn & _ & _ & Hkeys & _).
  split; [exact Hn | exact Hkeys].
Defined.

(** ** The NDJSON collector *)

Section NdjsonFacts.
Import Py Ndjson.

Variable json_dumps : Trade -> string.

#[local] Abbreviation line := (line json_dumps).
#[local] Abbreviation flush := (flush json_dumps).
#[local] Abbreviation save_buffer := (save_buffer json_dumps).

(** A trade is kept when it waits in the buffer or its line is in one
    of the files. *)
Definition kept (st : t) (item : Trade) : Prop :=
  item ∈ buffer st \/ exists name, line item ∈ content (files st) name.

Lemma content_append name lines fs name' :
  content (append name lines fs) name'
  = if decide (name = name') then content fs name ++ lines
    else content fs name'.
Proof.
  unfold append, content at 1. rewrite lookup_insert.
  by destruct (decide (name = name')).
Qed.

Lemma content_append_grows name lines fs name' :
  content fs name' `prefix_of` content (append name lines fs) name'.
Proof.
  rewrite content_append. destruct (decide (name = name')) as [<- |].
  - by apply prefix_app_r.
  - done.
Qed.

Lemma write_all_grows o name items fs name' :
  content fs name' `prefix_of` content (write_all json_dumps o name items fs).1 name'.
Proof. destruct o; simpl; [| done |]; apply content_append_grows. Qed.

Lemma flush_files stamp o st :
  files (flush stamp o st)
  = match buffer st with
    | [] => files st
    | _ => (write_all json_dumps o (trades_file (output_dir st) stamp)
              (buffer st) (files st)).1
    end.
Proof.
  unfold Ndjson.flush. simpl. destruct (buffer st) as [| item items]; [done |].
  by destruct (write_all _ _ _ _ _) as [fs [e |]].
Qed.

Lemma flush_grows stamp o st name :
  content (files st) name `prefix_of` content (files (flush stamp o st)) name.
Proof.
  rewrite flush_files. destruct (buffer st); [done |]. apply write_all_grows.
Qed.

Lemma flush_buffer stamp o st :
  buffer (flush stamp o st) = match o with
                              | Written => []
                              | _ => buffer st
                              end.
Proof.
  unfold Ndjson.flush. simpl.
  destruct (buffer st) as [| item items] eqn:E; [by destruct o |].
  destruct o; simpl; by rewrite ?E.
Qed.

Lemma flush_kept stamp o st item :
  kept st item -> kept (flush stamp o st) item.
Proof.
  intros [Hbuf | [name Hfile]].
  - destruct o.
    + right. exists (trades_file (output_dir st) stamp).
      rewrite flush_files. destruct (buffer st) as [| b bs] eqn:E.
      { by apply elem_of_nil in Hbuf. }
      cbn [write_all fst]. rewrite content_append, decide_True by done.
      apply elem_of_app. right. by apply list_elem_of_fmap_2.
    + left. by rewrite flush_buffer.
    + left. by rewrite flush_buffer.
  - right. exists name.
    destruct (flush_grows stamp o st name) as [more ->].
    apply elem_of_app. by left.
Qed.

Lemma flush_running stamp o st : running (flush stamp o st) = running st.
Proof.
  unfold Ndjson.flush. simpl. destruct (buffer st); [done |].
  by destruct (write_all _ _ _ _ _) as [fs [e |]].
Qed.

(** X28.  A turn whose writes fail keeps the buffer for the next turn.
    So, whatever the file system does, the saving task drops nothing:
    every trade that was buffered or in a file at the start, or arrived
    during the run, is in the buffer or in a file at the end, and no
    file ever loses a line. *)
Theorem ndjson_save_buffer_keeps_trades
    (script : list (string * outcome * list Trade)) (st : t) :
  running st = true ->
  (forall item,
     kept st item \/ item ∈ concat (snd <$> script) ->
     kept (save_buffer script st) item)
  /\ (forall name,
        content (files st) name
          `prefix_of` content (files (save_buffer script st)) name).
Proof.
  revert st. induction script as [| [[stamp o] arrived] script IH];
    intros st Hrun.
  - split; [| done]. intros item [H | H]; [done |]. by apply elem_of_nil in H.
  - simpl. rewrite Hrun. simpl.
    set (st1 := flush stamp o (set_buffer (buffer st ++ arrived) st)).
    assert (running st1 = true) as Hrun1 by (unfold st1; by rewrite flush_running).
    destruct (IH st1 Hrun1) as [IHkept IHfiles]. split.
    + intros item H. apply IHkept.
      rewrite elem_of_app in H.
      destruct H as [[Hbuf | Hfile] | [Harr | Hrest]]; [| | | by right].
      * left. apply flush_kept. left. simpl. apply elem_of_app. by left.
      * left. apply flush_kept. by right.
      * left. apply flush_kept. left. simpl. apply elem_of_app. by right.
    + intros name. etrans; [| apply IHfiles].
      apply (flush_grows stamp o (set_buffer (buffer st ++ arrived) st)).
Qed.

(** X29.  The retry after a failed write repeats what the failed write
    had already put into the file: with the same clock reading, the
    file ends up with the lines that got through the first time followed
    by the lines of the whole buffer. *)
Theorem ndjson_retry_repeats_lines (stamp : string) (e : exn) (n : nat)
    (st : t) :
  buffer st <> [] ->
  let st' := flush stamp Written (flush stamp (WriteFailed e n) st) in
  content (files st') (trades_file (output_dir st) stamp)
  = content (files st) (trades_file (output_dir st) stamp)
    ++ take n (line <$> buffer st) ++ (line <$> buffer st)
  /\ buffer st' = [].
Proof.
  intros Hne. simpl. split; [| by rewrite flush_buffer].
  rewrite flush_files, flush_buffer.
  destruct (buffer st) as [| item items] eqn:E; [done |].
  assert (output_dir (flush stamp (WriteFailed e n) st) = output_dir st) as ->.
  { unfold Ndjson.flush. simpl. by rewrite E. }
  cbn [write_all fst]. rewrite content_append, decide_True by done.
  rewrite flush_files, E. cbn [write_all fst].
  rewrite content_append, decide_True by done.
  by rewrite <- app_assoc.
Qed.

End NdjsonFacts.

Definition sample_trade : Ndjson.Trade :=
  Ndjson.mkTrade "btcusdt" "2023-11-14T22:13:20" 100 (1 # 2).

Definition sample_ndjson : Ndjson.t :=
  Ndjson.mkNdjson "data" true [sample_trade] ∅ [] [].

Lemma ndjson_save_buffer_keeps_trades_witness :
  sample_trade
    ∈ Ndjson.buffer
        (Ndjson.save_buffer Ndjson.symbol
           [("20231114_221325"%string, Ndjson.OpenFailed Py.OSError, [])]
           sample_ndjson).
Proof.
  destruct (ndjson_save_buffer_keeps_trades Ndjson.symbol
              [("20231114_221325"%string, Ndjson.OpenFailed Py.OSError, [])]
              sample_ndjson eq_refl) as [Hkept _].
  destruct (Hkept sample_trade) as [Hbuf | [name Hfile]].
  - left. left. apply list_elem_of_here.
  - exact Hbuf.
  - vm_compute in Hfile. by apply elem_of_nil in Hfile.
Defined.

Lemma ndjson_retry_repeats_lines_witness :
  Ndjson.content
    (Ndjson.files
       (Ndjson.flush Ndjson.symbol "20231114_221325" Ndjson.Written
          (Ndjson.flush Ndjson.symbol "20231114_221325"
             (Ndjson.WriteFailed Py.OSError 1) sample_ndjson)))
    "data/trades_20231114_221325.ndjson"
  = [Ndjson.line Ndjson.symbol sample_trade;
     Ndjson.line Ndjson.symbol sample_trade].
Proof.
  destruct (ndjson_retry_repeats_lines Ndjson.symbol "20231114_221325"
              Py.OSError 1 sample_ndjson) as [H _]; [done |].
  exact H.
Defined.

(** ** Further closed instances *)

Lemma get_ticks_window_witness :
  exists rows,
    Database.get_ticks Database.no_faults demo_db "ethusdt" 0 3000000
    = inr rows
    /\ StronglySorted (key_le Database.tick_timestamp) rows.
Proof.
  destruct (get_ticks_window Database.no_faults demo_db "ethusdt" 0 3000000)
    as [_ H].
  destruct (H eq_refl) as (rows & Hrows & Hsorted & _).
  exists rows. split; [exact Hrows | exact Hsorted].
Defined.


Lemma stop_signal_ends_task_witness :
  Collector.connect_symbol Sample.lower Sample.float_of_string
      Sample.fromtimestamp
    "btcusdt"
    [(Collector.Refused Py.OSError, true);
     (Collector.Refused Py.OSError, false)] sample_collector
  = Collector.connect_symbol Sample.lower Sample.float_of_string
      Sample.fromtimestamp
      "btcusdt" [(Collector.Refused Py.OSError, true)] sample_collector.
Proof.
  destruct (stop_signal_ends_task Sample.lower Sample.float_of_string
      Sample.fromtimestamp
              "btcusdt" (Collector.Refused Py.OSError)
              [(Collector.Refused Py.OSError, false)] sample_collector)
    as [H _].
  exact H.
Defined.

Lemma normalize_symbol_witness :
  exists e,
    Collector.normalize Sample.lower Sample.float_of_string
        Sample.fromtimestamp 0
      (Py.VDict [("e", Py.VStr "trade"); ("s", Py.VInt 7)]%string) = inl e.
Proof.
  destruct (normalize_symbol Sample.lower Sample.float_of_string
      Sample.fromtimestamp 0
              [("e", Py.VStr "trade"); ("s", Py.VInt 7)]%string) as [_ H].
  apply (H (Py.VInt 7)); [reflexivity | discriminate].
Defined.

Lemma compute_spread_exact_match_witness :
  exists x,
    Analytics.compute_spread series_b series_b (Some (Np.Fin 2)) !! 0%nat
    = Some x
    /\ Np.feq x (Np.Fin (-5)).
Proof.
  destruct (compute_spread_exact_match series_b series_b (Some (Np.Fin 2))
              0 (Analytics.mkPriceRow 1 (Np.Fin 5))
              (Analytics.mkPriceRow 1 (Np.Fin 5))) as (x & Hx & Hfeq).
  - by intros h [= <-].
  - reflexivity.
  - apply list_elem_of_here.
  - reflexivity.
  - by intros b' ->%list_elem_of_singleton.
  - exists x. split; [exact Hx |].
    vm_compute in Hx. injection Hx as <-. reflexivity.
Defined.
